(** * rmOneNoteSyncClient: the shared sync cache and the page state machine

    A shallow embedding of [cache_io.c] / [cache_io.h] (the binary cache
    shared by the watcher and the HTTP client), of [is_under_shared_path]
    from [metadata_parser.c], of the page scan of [watcher_updated.c] and of
    [process_pending_pages] from [httpclient.c].

    Conventions of the embedding.
    - A file is the list of its bytes; an open [FILE*] read sequentially is
      the list of bytes not yet consumed.  The file system is a finite map
      from paths to contents.
    - A [char] buffer is represented by the C string it holds: the bytes
      before the terminating NUL.  [strncpy] into a zeroed buffer leaves
      zeros behind the string, and the raw write of an id buffer is the
      string padded with zeros.  (A record read from a file whose id field
      has bytes behind an embedded NUL keeps them in memory; the embedding
      drops them, as every comparison in the program does.)
    - Fixed-width integers are [Z] with the wrap-around written out.
    - A pointer into the cache ([DocumentEntry*], [PageEntry*]) is the
      position of the record: bucket index, position in the bucket chain,
      position in the page chain.  The [next] pointers are the list order.
    - Pointer arguments are taken to be non-null, except where a function
      gives the null pointer a meaning of its own ([page_num] of
      [cache_add_or_update_page], [cache] of [cache_get_pending_pages]).
    - [flock] has no effect on a single process and is not represented;
      [calloc] is taken to succeed. *)

From Stdlib Require Import ZArith Lia Strings.Byte Strings.String.
From stdpp Require Import base option list gmap.

#[global] Instance byte_eq_dec : EqDecision byte := Byte.byte_eq_dec.
#[global] Instance byte_countable : Countable byte :=
  inj_countable Byte.to_N Byte.of_N Byte.of_to_N.
#[global] Instance byte_inhabited : Inhabited byte := populate x00.

Local Open Scope Z_scope.

(** ** Bytes, integers and C strings *)

Definition Z_of_byte (b : byte) : Z := Z.of_N (Byte.to_N b).

Definition byte_of_Z (z : Z) : byte :=
  default x00 (Byte.of_N (Z.to_N (z mod 256))).

(** [n] bytes of [z], least significant first (the targets are little
    endian); a negative [z] comes out in two's complement. *)
Fixpoint le_encode (n : nat) (z : Z) : list byte :=
  match n with
  | O => []
  | S n' => byte_of_Z z :: le_encode n' (z / 256)
  end.

Fixpoint le_decode (l : list byte) : Z :=
  match l with
  | [] => 0
  | b :: l' => Z_of_byte b + 256 * le_decode l'
  end.

(** [time_t] is a signed 64-bit integer on the 64-bit ARM target. *)
Definition sizeof_time_t : nat := 8.

Definition time_decode (l : list byte) : Z :=
  let u := le_decode l in
  if decide (u < 2 ^ 63) then u else u - 2 ^ 64.

(** A string literal as the bytes of a C string. *)
Definition bs (s : string) : list byte := list_byte_of_string s.

(** The C string held by a buffer that was filled with raw bytes. *)
Fixpoint cstr (l : list byte) : list byte :=
  match l with
  | [] => []
  | b :: l' => if decide (b = x00) then [] else b :: cstr l'
  end.

(** The first [n] bytes of the zero-filled buffer holding the string [s]. *)
Definition pad (n : nat) (s : list byte) : list byte :=
  take n (s ++ replicate n x00).

(** [strncmp(s1, s2, n)]: zero iff the strings agree on their first [n]
    characters (or up to their common end). *)
Fixpoint strncmp (s1 s2 : list byte) (n : nat) {struct n} : Z :=
  match n with
  | O => 0
  | S n' =>
      match s1, s2 with
      | [], [] => 0
      | [], c2 :: _ => 0 - Z_of_byte c2
      | c1 :: _, [] => Z_of_byte c1
      | c1 :: t1, c2 :: t2 =>
          if decide (c1 = c2) then strncmp t1 t2 n'
          else Z_of_byte c1 - Z_of_byte c2
      end
  end.

(** [s[i]]; the terminator is read at [i = strlen(s)]. *)
Definition char_at (s : list byte) (i : nat) : byte := s !!! i.

(** ** cache_io.h *)

Definition CACHE_MAGIC : Z := 0x524D4348.
Definition CACHE_VERSION : Z := 2.
Definition UUID_LEN : nat := 36.
Definition MAX_PAGE_NUM_LEN : nat := 8.
Definition PATH_MAX : nat := 4096.
Definition HASH_TABLE_SIZE : nat := 256.

Inductive sync_status_t : Set :=
  | SYNC_PENDING
  | SYNC_UPLOADED
  | SYNC_FAILED
  | SYNC_SKIPPED.

(** The value of the enumerator, as stored in the [uint8_t] field. *)
Definition status_code (s : sync_status_t) : Z :=
  match s with
  | SYNC_PENDING => 0
  | SYNC_UPLOADED => 1
  | SYNC_FAILED => 2
  | SYNC_SKIPPED => 3
  end.

Record PageEntry : Set := mkPage {
  uuid : list byte;
  page_num : list byte;
  mtime : Z;
  sync_status : Z;
  retry_count : Z
}.

Record DocumentEntry : Set := mkDoc {
  doc_id : list byte;
  pages : list PageEntry
}.

(** [table_size] is the length of [table]. *)
Record CacheHandle : Set := mkCache {
  table : list (list DocumentEntry);
  dirty : bool;
  path : list byte
}.

#[global] Instance sync_status_eq_dec : EqDecision sync_status_t.
Proof. solve_decision. Defined.
#[global] Instance PageEntry_eq_dec : EqDecision PageEntry.
Proof. solve_decision. Defined.
#[global] Instance DocumentEntry_eq_dec : EqDecision DocumentEntry.
Proof. solve_decision. Defined.
#[global] Instance CacheHandle_eq_dec : EqDecision CacheHandle.
Proof. solve_decision. Defined.

(** Pointers into the cache. *)
Definition DocRef : Set := nat * nat.
Definition PageRef : Set := nat * nat * nat.

Definition deref_doc (c : CacheHandle) (r : DocRef) : option DocumentEntry :=
  table c !! r.1 ≫= λ bucket, bucket !! r.2.

Definition deref (c : CacheHandle) (r : PageRef) : option PageEntry :=
  deref_doc c r.1 ≫= λ doc, pages doc !! r.2.

(** All documents, in the order every full scan of the table visits them. *)
Definition documents (c : CacheHandle) : list DocumentEntry := concat (table c).

(** ** cache_io.c: the hash function *)

(** [unsigned int] arithmetic; the result is taken modulo 256, so it is the
    same whether [char] is signed or not. *)
Definition hash_string (str : list byte) : nat :=
  Z.to_nat
    (fold_left (λ hash c, ((Z.shiftl hash 5 + hash) + Z_of_byte c) mod 2 ^ 32)
               str 5381
     mod Z.of_nat HASH_TABLE_SIZE).

(** [doc->next = table[hash]; table[hash] = doc]. *)
Definition bucket_push (hash : nat) (doc : DocumentEntry)
    (tbl : list (list DocumentEntry)) : list (list DocumentEntry) :=
  <[hash := doc :: tbl !!! hash]> tbl.

(** The insertion of the load loops: the hash is the one of the id read. *)
Definition table_insert (doc : DocumentEntry) (tbl : list (list DocumentEntry))
  : list (list DocumentEntry) :=
  bucket_push (hash_string (doc_id doc)) doc tbl.

(** ** Sequential reads *)

Abbreviation stream := (list byte).

(** A read yields a value, or fails, and leaves the rest of the stream. *)
Definition reader (A : Type) : Type := stream → option A * stream.

#[global] Instance reader_ret : MRet reader := λ A a f, (Some a, f).
#[global] Instance reader_bind : MBind reader := λ A B k m f,
  match m f with
  | (Some a, f') => k a f'
  | (None, f') => (None, f')
  end.

(** [fread(buf, size, 1, f) == 1]; a short read leaves the stream at its
    end. *)
Definition fread (size : nat) : reader (list byte) := λ f,
  if decide (size ≤ length f)%nat then (Some (take size f), drop size f)
  else (None, []).

(** Leave the read unless the condition holds. *)
Definition check (b : bool) : reader unit := λ f,
  if b then (Some (), f) else (None, f).

(** ** cache_io.c: cache_open *)

(** The file system: the content of every file that exists. *)
Abbreviation filesystem := (gmap (list byte) (list byte)).

Module CacheOpen.

(** Magic, version, document count; [None] where [cache_open] closes the
    file and returns the fresh cache. *)
Definition read_header : reader (Z * nat) :=
  magic ← fread 4;
  _ ← check (bool_decide (le_decode magic = CACHE_MAGIC));
  version ← fread 1;
  _ ← check (bool_decide (le_decode version = CACHE_VERSION)
             || bool_decide (le_decode version = 1));
  num_docs ← fread 4;
  mret (le_decode version, Z.to_nat (le_decode num_docs)).

(** One iteration of the page loop; [None] is a [break]. *)
Definition read_page (version : Z) : reader PageEntry :=
  uuid ← fread UUID_LEN;
  page_num_len ← fread 1;
  _ ← check (bool_decide (le_decode page_num_len < Z.of_nat MAX_PAGE_NUM_LEN));
  page_num ← (if decide (0 < le_decode page_num_len)
              then fread (Z.to_nat (le_decode page_num_len))
              else mret []);
  mtime ← fread sizeof_time_t;
  if decide (version = CACHE_VERSION) then
    sync_status ← fread 1;
    retry_count ← fread 1;
    mret (mkPage (cstr uuid) (cstr page_num) (time_decode mtime)
                 (le_decode sync_status) (le_decode retry_count))
  else
    mret (mkPage (cstr uuid) (cstr page_num) (time_decode mtime)
                 (status_code SYNC_PENDING) 0).

(** The page loop: each page is linked behind [last_page], so the chain is
    in file order.  The stream is returned where the loop left it. *)
Fixpoint read_pages (num_pages : nat) (version : Z) (f : stream)
  : list PageEntry * stream :=
  match num_pages with
  | O => ([], f)
  | S j =>
      match read_page version f with
      | (None, f') => ([], f')
      | (Some page, f') =>
          let '(rest, f'') := read_pages j version f' in (page :: rest, f'')
      end
  end.

(** Id length (which must be [UUID_LEN]), id, page count; [None] is a
    [break] of the document loop. *)
Definition read_document_header : reader (list byte * nat) :=
  doc_id_len ← fread 1;
  _ ← check (bool_decide (le_decode doc_id_len = Z.of_nat UUID_LEN));
  doc_id ← fread (Z.to_nat (le_decode doc_id_len));
  num_pages ← fread 2;
  mret (cstr doc_id, Z.to_nat (le_decode num_pages)).

(** The document loop.  A [break] of the page loop does not leave it: the
    document is inserted with the pages read so far and the loop goes on
    from wherever the stream stands. *)
Fixpoint read_documents (num_docs : nat) (version : Z) (f : stream)
    (tbl : list (list DocumentEntry)) : list (list DocumentEntry) :=
  match num_docs with
  | O => tbl
  | S i =>
      match read_document_header f with
      | (None, _) => tbl
      | (Some (id, num_pages), f') =>
          let '(pgs, f'') := read_pages num_pages version f' in
          read_documents i version f'' (table_insert (mkDoc id pgs) tbl)
      end
  end.

Definition cache_open (fs : filesystem) (path_arg : list byte) : CacheHandle :=
  let cache := mkCache (replicate HASH_TABLE_SIZE [])
                       false (take (PATH_MAX - 1) path_arg) in
  match fs !! path_arg with
  | None => cache
  | Some f =>
      match read_header f with
      | (None, _) => cache
      | (Some (version, num_docs), f') =>
          mkCache (read_documents num_docs version f' (table cache))
                  (dirty cache) (path cache)
      end
  end.

End CacheOpen.

(** ** cache_io.c: cache_reload *)

Module CacheReload.

Definition read_header : reader (Z * nat) :=
  magic ← fread 4;
  _ ← check (bool_decide (le_decode magic = CACHE_MAGIC));
  version ← fread 1;
  _ ← check (bool_decide (le_decode version = CACHE_VERSION)
             || bool_decide (le_decode version = 1));
  num_docs ← fread 4;
  mret (le_decode version, Z.to_nat (le_decode num_docs)).

Definition read_page (version : Z) : reader PageEntry :=
  uuid ← fread UUID_LEN;
  page_num_len ← fread 1;
  _ ← check (bool_decide (le_decode page_num_len < Z.of_nat MAX_PAGE_NUM_LEN));
  page_num ← (if decide (0 < le_decode page_num_len)
              then fread (Z.to_nat (le_decode page_num_len))
              else mret []);
  mtime ← fread sizeof_time_t;
  if decide (version = CACHE_VERSION) then
    sync_status ← fread 1;
    retry_count ← fread 1;
    mret (mkPage (cstr uuid) (cstr page_num) (time_decode mtime)
                 (le_decode sync_status) (le_decode retry_count))
  else
    mret (mkPage (cstr uuid) (cstr page_num) (time_decode mtime)
                 (status_code SYNC_PENDING) 0).

Fixpoint read_pages (num_pages : nat) (version : Z) (f : stream)
  : list PageEntry * stream :=
  match num_pages with
  | O => ([], f)
  | S j =>
      match read_page version f with
      | (None, f') => ([], f')
      | (Some page, f') =>
          let '(rest, f'') := read_pages j version f' in (page :: rest, f'')
      end
  end.

Definition read_document_header : reader (list byte * nat) :=
  doc_id_len ← fread 1;
  _ ← check (bool_decide (le_decode doc_id_len = Z.of_nat UUID_LEN));
  doc_id ← fread (Z.to_nat (le_decode doc_id_len));
  num_pages ← fread 2;
  mret (cstr doc_id, Z.to_nat (le_decode num_pages)).

Fixpoint read_documents (num_docs : nat) (version : Z) (f : stream)
    (tbl : list (list DocumentEntry)) : list (list DocumentEntry) :=
  match num_docs with
  | O => tbl
  | S i =>
      match read_document_header f with
      | (None, _) => tbl
      | (Some (id, num_pages), f') =>
          let '(pgs, f'') := read_pages num_pages version f' in
          read_documents i version f'' (table_insert (mkDoc id pgs) tbl)
      end
  end.

(** Every bucket is emptied first.  A missing file is not an error; a bad
    header returns -1 and leaves the dirty flag as it was. *)
Definition cache_reload (fs : filesystem) (cache : CacheHandle)
  : Z * CacheHandle :=
  let cleared := (λ _, []) <$> table cache in
  match fs !! path cache with
  | None => (0, mkCache cleared false (path cache))
  | Some f =>
      match read_header f with
      | (None, _) => (-1, mkCache cleared (dirty cache) (path cache))
      | (Some (version, num_docs), f') =>
          (0, mkCache (read_documents num_docs version f' cleared)
                      false (path cache))
      end
  end.

End CacheReload.

(** ** cache_io.c: cache_save *)

Definition encode_page (page : PageEntry) : list byte :=
  let page_num_len := Z.of_nat (length (page_num page)) mod 256 in
  pad UUID_LEN (uuid page)
  ++ [byte_of_Z page_num_len]
  ++ (if decide (0 < page_num_len)
      then take (Z.to_nat page_num_len) (page_num page) else [])
  ++ le_encode sizeof_time_t (mtime page)
  ++ [byte_of_Z (sync_status page)]
  ++ [byte_of_Z (retry_count page)].

(** [num_pages] is a [uint16_t] counter. *)
Definition encode_document (doc : DocumentEntry) : list byte :=
  [byte_of_Z (Z.of_nat UUID_LEN)]
  ++ pad UUID_LEN (doc_id doc)
  ++ le_encode 2 (Z.of_nat (length (pages doc)) mod 2 ^ 16)
  ++ concat (encode_page <$> pages doc).

(** [num_docs] is a [uint32_t] counter. *)
Definition encode_cache (cache : CacheHandle) : list byte :=
  le_encode 4 CACHE_MAGIC
  ++ [byte_of_Z CACHE_VERSION]
  ++ le_encode 4 (Z.of_nat (length (documents cache)) mod 2 ^ 32)
  ++ concat (encode_document <$> documents cache).

(** What the operating system answers to the two calls of [cache_save] that
    can fail.  The results of [fwrite] are not looked at by the source, and
    the writes are taken to complete. *)
Record io_env : Type := mkIo {
  fopen_wb_ok : list byte → bool;
  rename_ok : list byte → list byte → bool
}.

(** [snprintf(temp_path, sizeof(temp_path), "%s.tmp", cache->path)]. *)
Definition temp_path (cache : CacheHandle) : list byte :=
  take (PATH_MAX - 1) (path cache ++ bs ".tmp").

Definition cache_save (io : io_env) (fs : filesystem) (cache : CacheHandle)
  : Z * filesystem * CacheHandle :=
  if negb (dirty cache) then (0, fs, cache)
  else if negb (fopen_wb_ok io (temp_path cache)) then (-1, fs, cache)
  else
    let fs1 := <[temp_path cache := encode_cache cache]> fs in
    if rename_ok io (temp_path cache) (path cache) then
      (0, <[path cache := encode_cache cache]> (delete (temp_path cache) fs1),
       mkCache (table cache) false (path cache))
    else
      (-1, delete (temp_path cache) fs1, cache).

(** ** cache_io.c: lookups *)

(** The first entry of the bucket chain of [hash_string doc_id] whose id
    compares equal. *)
Definition cache_find_document (cache : CacheHandle) (id : list byte)
  : option DocRef :=
  let hash := hash_string id in
  (λ found, (hash, found.1)) <$>
    list_find (λ doc, doc_id doc = id) (table cache !!! hash).

(** The first page of the chain whose uuid compares equal. *)
Definition cache_find_page (doc : DocumentEntry) (page_uuid : list byte)
  : option nat :=
  fst <$> list_find (λ page, uuid page = page_uuid) (pages doc).

(** The id of the first document, in scan order, that owns a page with this
    uuid. *)
Definition cache_get_document_for_page (cache : CacheHandle)
    (page_uuid : list byte) : option (list byte) :=
  (λ found, doc_id found.2) <$>
    list_find (λ doc, Exists (λ page, uuid page = page_uuid) (pages doc))
              (documents cache).

Definition cache_count_by_status (cache : CacheHandle) (status : sync_status_t)
  : Z :=
  Z.of_nat (length (filter (λ page, sync_status page = status_code status)
                           (documents cache ≫= pages))).

(** ** cache_io.c: mutators *)

(** Apply [f] to the page a pointer designates. *)
Definition update_page_at (r : PageRef) (f : PageEntry → PageEntry)
    (tbl : list (list DocumentEntry)) : list (list DocumentEntry) :=
  alter (alter (λ doc, mkDoc (doc_id doc) (alter f r.2 (pages doc))) r.1.2)
        r.1.1 tbl.

(** [doc->pages] for the document a pointer designates. *)
Definition pages_at (tbl : list (list DocumentEntry)) (d : DocRef)
  : list PageEntry :=
  default [] (pages <$> (tbl !! d.1 ≫= λ bucket, bucket !! d.2)).

(** Find or create the document: a new one holds the first [UUID_LEN]
    characters of the id and becomes the head of the chain of the hash of
    the id as passed. *)
Definition ensure_document (id : list byte) (tbl : list (list DocumentEntry))
  : DocRef * list (list DocumentEntry) :=
  let hash := hash_string id in
  match list_find (λ doc, doc_id doc = id) (tbl !!! hash) with
  | Some found => ((hash, found.1), tbl)
  | None => ((hash, O), bucket_push hash (mkDoc (take UUID_LEN id) []) tbl)
  end.

(** Find or create the page in the document at [d]: a new one is zeroed
    but for its uuid and becomes the head of the page chain. *)
Definition ensure_page (d : DocRef) (page_uuid : list byte)
    (tbl : list (list DocumentEntry)) : PageRef * list (list DocumentEntry) :=
  match list_find (λ page, uuid page = page_uuid) (pages_at tbl d) with
  | Some found => ((d, found.1), tbl)
  | None =>
      ((d, O),
       alter (alter (λ doc, mkDoc (doc_id doc)
                              (mkPage (take UUID_LEN page_uuid) [] 0 0 0
                               :: pages doc)) d.2) d.1 tbl)
  end.

(** A null [page_num] leaves the stored page number alone; [retry_count] is
    not assigned. *)
Definition cache_add_or_update_page (cache : CacheHandle)
    (id page_uuid : list byte) (page_num_arg : option (list byte))
    (mtime_arg : Z) (status : sync_status_t) : Z * CacheHandle :=
  let '(d, tbl1) := ensure_document id (table cache) in
  let '(r, tbl2) := ensure_page d page_uuid tbl1 in
  let tbl3 :=
    update_page_at r
      (λ page, mkPage (uuid page)
                      (match page_num_arg with
                       | Some s => take (MAX_PAGE_NUM_LEN - 1) s
                       | None => page_num page
                       end)
                      mtime_arg (status_code status) (retry_count page))
      tbl2 in
  (0, mkCache tbl3 true (path cache)).

Definition cache_update_page_status (cache : CacheHandle)
    (id page_uuid : list byte) (status : sync_status_t) (retry : Z)
  : Z * CacheHandle :=
  match cache_find_document cache id with
  | None => (-1, cache)
  | Some d =>
      match deref_doc cache d ≫= λ doc, cache_find_page doc page_uuid with
      | None => (-1, cache)
      | Some k =>
          (0, mkCache
                (update_page_at (d, k)
                   (λ page, mkPage (uuid page) (page_num page) (mtime page)
                                   (status_code status) retry)
                   (table cache))
                true (path cache))
      end
  end.

(** ** cache_io.c: cache_get_pending_pages *)

(** The three nested loops; [count] is the length of [results]. *)
Fixpoint pending_in_pages (i j k : nat) (chain : list PageEntry)
    (max_pages : nat) (results : list PageRef) : list PageRef :=
  match chain with
  | [] => results
  | page :: rest =>
      if decide (length results < max_pages)%nat then
        pending_in_pages i j (S k) rest max_pages
          (if decide (sync_status page = status_code SYNC_PENDING)
           then results ++ [(i, j, k)] else results)
      else results
  end.

Fixpoint pending_in_docs (i j : nat) (chain : list DocumentEntry)
    (max_pages : nat) (results : list PageRef) : list PageRef :=
  match chain with
  | [] => results
  | doc :: rest =>
      if decide (length results < max_pages)%nat then
        pending_in_docs i (S j) rest max_pages
          (pending_in_pages i j 0 (pages doc) max_pages results)
      else results
  end.

Fixpoint pending_in_table (i : nat) (buckets : list (list DocumentEntry))
    (max_pages : nat) (results : list PageRef) : list PageRef :=
  match buckets with
  | [] => results
  | bucket :: rest =>
      if decide (length results < max_pages)%nat then
        pending_in_table (S i) rest max_pages
          (pending_in_docs i 0 bucket max_pages results)
      else results
  end.

(** The result is [None] for the null pointer, else the zeroed array of
    [max_pages + 1] slots with the pointers found at its front.  The second
    component is the cache after the call. *)
Definition cache_get_pending_pages (cache : option CacheHandle) (max_pages : Z)
  : option (list (option PageRef)) * option CacheHandle :=
  match cache with
  | None => (None, cache)
  | Some c =>
      if decide (max_pages ≤ 0) then (None, cache)
      else
        let results := pending_in_table 0 (table c) (Z.to_nat max_pages) [] in
        (Some ((Some <$> results)
               ++ replicate (Z.to_nat (max_pages + 1) - length results) None),
         cache)
  end.

(** The entries of an array before its first null pointer. *)
Fixpoint until_null {A : Type} (array : list (option A)) : list A :=
  match array with
  | Some a :: rest => a :: until_null rest
  | _ => []
  end.

(** ** metadata_parser.c: the path filter *)

Definition is_under_shared_path (full_path filter : list byte) : bool :=
  if decide (filter = bs "*") then true
  else
    let filter_len := length filter in
    if decide (strncmp full_path filter filter_len ≠ 0) then false
    else if decide (char_at full_path filter_len = x00
                    ∨ char_at full_path filter_len = "/"%byte)
    then true
    else false.

(** ** watcher_updated.c: scan_document_pages *)

(** What one pass of the [readdir] loop sees of a [.rm] file whose base
    name has [UUID_LEN] characters: the page uuid, the page number that
    [parse_content_file] left in the buffer, and [st.st_mtime]. *)
Record rm_file : Set := mkRm {
  rm_uuid : list byte;
  rm_page_num : list byte;
  st_mtime : Z
}.

(** [doc ? cache_find_page(doc, page_uuid) : NULL] after
    [cache_find_document]. *)
Definition find_page_ref (cache : CacheHandle) (id page_uuid : list byte)
  : option PageRef :=
  d ← cache_find_document cache id;
  doc ← deref_doc cache d;
  k ← cache_find_page doc page_uuid;
  mret (d, k).

(** The body of the loop for one file.  The second branch sits behind the
    negation of [page->mtime < st.st_mtime]. *)
Definition scan_page (id : list byte) (st : Z * CacheHandle) (file : rm_file)
  : Z * CacheHandle :=
  let '(pages_updated, cache) := st in
  let page_ptr := find_page_ref cache id (rm_uuid file) in
  let page := page_ptr ≫= deref cache in
  if match page with
     | None => true
     | Some p => bool_decide (mtime p < st_mtime file)
     end then
    (pages_updated + 1,
     (cache_add_or_update_page cache id (rm_uuid file)
        (Some (rm_page_num file)) (st_mtime file) SYNC_PENDING).2)
  else
    match page_ptr, page with
    | Some r, Some p =>
        if decide (sync_status p = status_code SYNC_UPLOADED
                   ∧ mtime p < st_mtime file) then
          let cache1 :=
            (cache_update_page_status cache id (rm_uuid file) SYNC_PENDING 0).2 in
          (pages_updated + 1,
           mkCache (update_page_at r
                      (λ q, mkPage (uuid q) (page_num q) (st_mtime file)
                                   (sync_status q) (retry_count q))
                      (table cache1))
                   (dirty cache1) (path cache1))
        else st
    | _, _ => st
    end.

(** [None] for a directory that cannot be opened. *)
Definition scan_document_pages (cache : CacheHandle) (id : list byte)
    (dir : option (list rm_file)) : Z * CacheHandle :=
  match dir with
  | None => (0, cache)
  | Some files => fold_left (scan_page id) files (0, cache)
  end.

(** ** httpclient.c: process_pending_pages *)

Definition MAX_BATCH_SIZE : Z := 10.

Record config_t : Set := mkConfig {
  shared_path : list byte;
  max_retries : Z;
  retry_delay_seconds : Z
}.

Record path_info_t : Set := mkPathInfo {
  full_path : list byte;
  document_name : list byte;
  page_name : list byte
}.

(** The two calls that leave the process: the path reconstruction reads the
    tablet's metadata files ([None] is its -1), the upload talks to the
    server and may answer differently at each position of the batch. *)
Record collaborators : Type := mkCollab {
  reconstruct_virtual_path : list byte → list byte → option path_info_t;
  upload_file : nat → list byte → list byte → list byte → list byte → Z
}.

(** The body of the batch loop for [pending[i]].  [sleep] changes nothing
    that is represented. *)
Definition process_page (config : config_t) (env : collaborators) (i : nat)
    (st : Z * CacheHandle) (r : PageRef) : Z * CacheHandle :=
  let '(processed, cache) := st in
  match deref cache r with
  | None => st
  | Some page =>
      match cache_get_document_for_page cache (uuid page) with
      | None => st
      | Some id =>
          match reconstruct_virtual_path env id (page_num page) with
          | None =>
              (processed,
               (cache_update_page_status cache id (uuid page) SYNC_SKIPPED 0).2)
          | Some path_info =>
              if negb (is_under_shared_path (full_path path_info)
                                            (shared_path config)) then
                (processed,
                 (cache_update_page_status cache id (uuid page) SYNC_SKIPPED 0).2)
              else if decide (upload_file env i id (uuid page) (page_num page)
                                          (full_path path_info) = 0) then
                (processed + 1,
                 (cache_update_page_status cache id (uuid page) SYNC_UPLOADED 0).2)
              else
                let new_retry_count := (retry_count page + 1) mod 256 in
                if decide (max_retries config ≤ new_retry_count) then
                  (processed,
                   (cache_update_page_status cache id (uuid page)
                      SYNC_FAILED new_retry_count).2)
                else
                  (processed,
                   (cache_update_page_status cache id (uuid page)
                      SYNC_PENDING new_retry_count).2)
          end
      end
  end.

Fixpoint process_batch (config : config_t) (env : collaborators) (i : nat)
    (pending : list PageRef) (st : Z * CacheHandle) : Z * CacheHandle :=
  match pending with
  | [] => st
  | r :: rest =>
      process_batch config env (S i) rest (process_page config env i st r)
  end.

Definition process_pending_pages (config : config_t) (env : collaborators)
    (io : io_env) (fs : filesystem) (cache : CacheHandle)
  : Z * filesystem * CacheHandle :=
  let cache1 := (CacheReload.cache_reload fs cache).2 in
  match (cache_get_pending_pages (Some cache1) MAX_BATCH_SIZE).1 with
  | None => (0, fs, cache1)
  | Some pending =>
      let '(processed, cache2) :=
        process_batch config env 0 (until_null pending) (0, cache1) in
      if bool_decide (0 < processed) || dirty cache2 then
        let '(_, fs', cache3) := cache_save io fs cache2 in
        (processed, fs', cache3)
      else (processed, fs, cache2)
  end.

(** ** Records the format can hold *)

(** The declared limits of the fields of a page: the two strings fit their
    buffers, the integers their widths. *)
Definition page_wf (p : PageEntry) : Prop :=
  (x00 ∉ uuid p) ∧ (length (uuid p) ≤ UUID_LEN)%nat
  ∧ (x00 ∉ page_num p) ∧ (length (page_num p) < MAX_PAGE_NUM_LEN)%nat
  ∧ (- 2 ^ 63 ≤ mtime p < 2 ^ 63)
  ∧ (0 ≤ sync_status p < 256)
  ∧ (0 ≤ retry_count p < 256).

(** A document: its id fits the buffer and its page count the 2-byte
    [page_count] field. *)
Definition doc_wf (d : DocumentEntry) : Prop :=
  (x00 ∉ doc_id d) ∧ (length (doc_id d) ≤ UUID_LEN)%nat
  ∧ Forall page_wf (pages d)
  ∧ Z.of_nat (length (pages d)) < 2 ^ 16.

(** A cache: the table has its [HASH_TABLE_SIZE] buckets and the document
    count fits the 4-byte [document_count] field. *)
Definition cache_wf (c : CacheHandle) : Prop :=
  length (table c) = HASH_TABLE_SIZE
  ∧ Forall doc_wf (documents c)
  ∧ Z.of_nat (length (documents c)) < 2 ^ 32.

#[global] Instance page_wf_dec (p : PageEntry) : Decision (page_wf p).
Proof. unfold page_wf. apply _. Defined.
#[global] Instance doc_wf_dec (d : DocumentEntry) : Decision (doc_wf d).
Proof. unfold doc_wf. apply _. Defined.
#[global] Instance cache_wf_dec (c : CacheHandle) : Decision (cache_wf c).
Proof. unfold cache_wf. apply _. Defined.

(** ** Damaged files *)

(** A header that cannot be read: fewer than the 9 bytes of magic, version
    and document count, a wrong magic, or a version that is neither 2
    nor 1. *)
Definition bad_header (f : list byte) : Prop :=
  (length f < 9)%nat
  ∨ le_decode (take 4 f) ≠ CACHE_MAGIC
  ∨ (le_decode (take 1 (drop 4 f)) ≠ CACHE_VERSION
     ∧ le_decode (take 1 (drop 4 f)) ≠ 1).

(** What is left of a file where a document record should start, when that
    start cannot be read: fewer than the 39 bytes of id length, id and page
    count, or an id length other than [UUID_LEN]. *)
Definition doc_error (f : list byte) : Prop :=
  (length f < 39)%nat ∨ le_decode (take 1 f) ≠ Z.of_nat UUID_LEN.

(** ** Where a record is found *)

(** The document with this id is found at [d]. *)
Definition doc_at (tbl : list (list DocumentEntry)) (id : list byte)
    (d : DocRef) : Prop :=
  d.1 = hash_string id
  ∧ fst <$> list_find (λ doc, doc_id doc = id) (tbl !!! d.1) = Some d.2.

(** The page with this uuid is found at position [k] of the document at
    [d]. *)
Definition page_at (tbl : list (list DocumentEntry)) (d : DocRef)
    (page_uuid : list byte) (k : nat) : Prop :=
  fst <$> list_find (λ page, uuid page = page_uuid) (pages_at tbl d) = Some k.

(** ** The scan order *)

(** Every page of a chain with the pointer to it, from position [k] on;
    then the same for a bucket chain and for the table: the order in which
    the nested loops of a full scan meet the pages. *)
Fixpoint entries_pages (i j k : nat) (chain : list PageEntry)
  : list (PageRef * PageEntry) :=
  match chain with
  | [] => []
  | page :: rest => ((i, j, k), page) :: entries_pages i j (S k) rest
  end.

Fixpoint entries_docs (i j : nat) (chain : list DocumentEntry)
  : list (PageRef * PageEntry) :=
  match chain with
  | [] => []
  | doc :: rest => entries_pages i j 0 (pages doc) ++ entries_docs i (S j) rest
  end.

Fixpoint entries_table (i : nat) (buckets : list (list DocumentEntry))
  : list (PageRef * PageEntry) :=
  match buckets with
  | [] => []
  | bucket :: rest => entries_docs i 0 bucket ++ entries_table (S i) rest
  end.

(** The pointers to the pages that are PENDING, in scan order. *)
Definition pending_refs (entries : list (PageRef * PageEntry)) : list PageRef :=
  fst <$> filter (λ e, sync_status e.2 = status_code SYNC_PENDING) entries.

(** ** Scenarios *)

Definition sample_path : list byte :=
  bs "/home/root/onenote-sync/cache/.sync_cache".

(** Two document ids with the same hash, and the ids of five pages. *)
Definition doc_a : list byte := bs "dddddddd-0000-0000-0000-00000000000b".
Definition doc_b : list byte := bs "dddddddd-0000-0000-0000-00000000001A".
Definition P1 : list byte := bs "aaaaaaaa-0000-0000-0000-000000000001".
Definition P2 : list byte := bs "aaaaaaaa-0000-0000-0000-000000000002".
Definition P3 : list byte := bs "aaaaaaaa-0000-0000-0000-000000000003".
Definition P4 : list byte := bs "aaaaaaaa-0000-0000-0000-000000000004".
Definition P5 : list byte := bs "aaaaaaaa-0000-0000-0000-000000000005".

(** The cache a process starts with when there is no cache file. *)
Definition fresh_cache : CacheHandle := CacheOpen.cache_open ∅ sample_path.

(** What the watcher holds after it has seen page [P3] of [doc_a]. *)
Definition p3_cache : CacheHandle :=
  (cache_add_or_update_page fresh_cache doc_a P3 (Some (bs "1")) 100
     SYNC_PENDING).2.

(** Where [P3] lives in it. *)
Definition p3_ref : PageRef := (hash_string doc_a, O, O).

(** An operating system on which every call succeeds, and one on which the
    rename fails. *)
Definition io_ok : io_env := mkIo (λ _, true) (λ _ _, true).

(** The cache file after the watcher saved [p3_cache]. *)
Definition p3_fs : filesystem := (cache_save io_ok ∅ p3_cache).1.2.

(** Path reconstruction that resolves every document to ["Work/Notes"]; a
    server that refuses every upload, and one that accepts every upload. *)
Definition resolved : path_info_t := mkPathInfo (bs "Work/Notes") (bs "Notes") [].
Definition failing_server : collaborators :=
  mkCollab (λ _ _, Some resolved) (λ _ _ _ _ _, -1).
Definition working_server : collaborators :=
  mkCollab (λ _ _, Some resolved) (λ _ _ _ _ _, 0).

Definition three_retries : config_t := mkConfig (bs "*") 3 0.

(** Three upload cycles of the HTTP client against the failing server, and
    a fourth against the working one. *)
Definition cycle_1 : Z * filesystem * CacheHandle :=
  process_pending_pages three_retries failing_server io_ok p3_fs fresh_cache.
Definition cycle_2 : Z * filesystem * CacheHandle :=
  process_pending_pages three_retries failing_server io_ok cycle_1.1.2 cycle_1.2.
Definition cycle_3 : Z * filesystem * CacheHandle :=
  process_pending_pages three_retries failing_server io_ok cycle_2.1.2 cycle_2.2.
Definition cycle_4 : Z * filesystem * CacheHandle :=
  process_pending_pages three_retries working_server io_ok cycle_3.1.2 cycle_3.2.

(** The watcher has then seen a page with the uuid [P3] in [doc_b] too.
    [doc_b] falls in the bucket of [doc_a] and is put at its head, so the
    page of [doc_a] is now the second document's. *)
Definition shadowed_cache : CacheHandle :=
  (cache_add_or_update_page p3_cache doc_b P3 (Some (bs "1")) 100
     SYNC_PENDING).2.
Definition shadowed_ref : PageRef := (hash_string doc_a, 1%nat, O).
Definition shadowing_ref : PageRef := (hash_string doc_b, O, O).

(** A cache with two documents in one bucket and five PENDING pages. *)
Definition five_pending : CacheHandle :=
  let upsert c id page number :=
    (cache_add_or_update_page c id page (Some number) 100 SYNC_PENDING).2 in
  upsert (upsert (upsert (upsert (upsert fresh_cache doc_a P1 (bs "1"))
                            doc_a P2 (bs "2")) doc_a P3 (bs "3"))
            doc_b P4 (bs "1"))
         doc_b P5 (bs "2").

(** A cache file that announces two documents and ends behind the first,
    which has one page. *)
Definition cut_file : list byte :=
  le_encode 4 CACHE_MAGIC ++ [byte_of_Z CACHE_VERSION] ++ le_encode 4 2
  ++ encode_document (mkDoc doc_a [mkPage P3 (bs "1") 100 1 0]).

(** A version-1 file with one document of one page: the page record ends
    with the modification time. *)
Definition legacy_file : list byte :=
  le_encode 4 CACHE_MAGIC ++ [byte_of_Z 1] ++ le_encode 4 1
  ++ [byte_of_Z 36] ++ doc_a ++ le_encode 2 1
  ++ P3 ++ [byte_of_Z 1] ++ bs "7" ++ le_encode sizeof_time_t 100.

(** [P3] after its retries ran out, and the file the scan then sees with a
    newer modification time. *)
Definition p3_failed_cache : CacheHandle :=
  (cache_update_page_status p3_cache doc_a P3 SYNC_FAILED 3).2.
Definition p3_modified : rm_file := mkRm P3 (bs "1") 200.

(** [P3] after a successful upload, and a configuration whose filter the
    resolved path ["Work/Notes"] does not pass. *)
Definition p3_uploaded_cache : CacheHandle :=
  (cache_update_page_status p3_cache doc_a P3 SYNC_UPLOADED 0).2.
Definition shared_only : config_t := mkConfig (bs "Shared") 3 0.

(** ** watcher.c: process_metadata_change *)

(** [opendir] tells for each document id what [scan_document_pages] finds
    in the directory of that document.  The file name is the one of the
    inotify event; the document id is its first [UUID_LEN] characters. *)
Definition process_metadata_change (io : io_env)
    (opendir : list byte → option (list rm_file))
    (fs : filesystem) (cache : CacheHandle) (filename : list byte)
  : filesystem * CacheHandle :=
  if decide (length filename < UUID_LEN + 9)%nat then (fs, cache)
  else
    let id := take UUID_LEN filename in
    let '(pages_updated, cache1) :=
      scan_document_pages cache id (opendir id) in
    if decide (0 < pages_updated) then
      let '(_, fs1, cache2) := cache_save io fs cache1 in (fs1, cache2)
    else (fs, cache1).

(** ** http_simple.c: parse_url *)

(** [strchr(s, ch)] as the offset of the first occurrence. *)
Definition strchr (s : list byte) (ch : byte) : option nat :=
  fst <$> list_find (λ b, b = ch) s.

Definition isspace (b : byte) : bool :=
  bool_decide (b ∈ [" "%byte; x09; x0a; x0b; x0c; x0d]).

Definition isdigit (b : byte) : bool :=
  bool_decide (Z_of_byte "0" ≤ Z_of_byte b ≤ Z_of_byte "9").

Fixpoint skip_spaces (s : list byte) : list byte :=
  match s with
  | b :: rest => if isspace b then skip_spaces rest else s
  | [] => []
  end.

(** The value of the leading decimal digits. *)
Fixpoint digits_value (acc : Z) (s : list byte) : Z :=
  match s with
  | b :: rest =>
      if isdigit b then digits_value (acc * 10 + (Z_of_byte b - Z_of_byte "0")) rest
      else acc
  | [] => acc
  end.

(** [atoi]: white space, an optional sign, decimal digits.  [None] where
    the value is not an [int], which the C standard leaves undefined. *)
Definition atoi (s : list byte) : option Z :=
  let s1 := skip_spaces s in
  let '(negative, s2) :=
    match s1 with
    | b :: rest =>
        if decide (b = "-"%byte) then (true, rest)
        else if decide (b = "+"%byte) then (false, rest)
        else (false, s1)
    | [] => (false, [])
    end in
  let value := if negative : bool then - digits_value 0 s2
               else digits_value 0 s2 in
  if decide (- 2 ^ 31 ≤ value < 2 ^ 31) then Some value else None.

(** The arrays [host] and [path] of the two callers, [http_get] and
    [http_post_file]. *)
Definition HOST_SIZE : nat := 256.
Definition URL_PATH_SIZE : nat := 1024.

(** The call returns -1, or returns 0 with the three outputs, or leaves
    defined behaviour: [strcpy] writes past the end of an array, or [atoi]
    meets a number that is not an [int]. *)
Inductive parse_url_result : Type :=
  | UrlError
  | UrlOk (host : list byte) (port : Z) (path : list byte)
  | UrlUndefined.

(** [strcpy(path, *p ? p : "/")]. *)
Definition parse_url_path (host : list byte) (port : Z) (p : list byte)
  : parse_url_result :=
  let path := if decide (p = []) then bs "/" else p in
  if decide (URL_PATH_SIZE ≤ length path)%nat then UrlUndefined
  else UrlOk host port path.

(** [p] is the url behind ["http://"]; [slash] and [colon] are offsets
    into it. *)
Definition parse_url (url : list byte) : parse_url_result :=
  if decide (strncmp url (bs "http://") 7 = 0) then
    let p := drop 7 url in
    let slash := strchr p "/" in
    let colon := strchr p ":" in
    let without_port :=
      match slash with
      | Some s =>
          if decide (256 ≤ s)%nat then UrlError
          else parse_url_path (take s p) 80 (drop s p)
      | None =>
          if decide (HOST_SIZE ≤ length p)%nat then UrlUndefined
          else parse_url_path p 80 (drop (length p) p)
      end in
    let with_port (c : nat) :=
      if decide (256 ≤ c)%nat then UrlError
      else
        match atoi (drop (S c) p) with
        | None => UrlUndefined
        | Some port =>
            if decide (port ≤ 0 ∨ 65535 < port) then UrlError
            else
              parse_url_path (take c p) port
                (match slash with
                 | Some s => drop s p
                 | None => drop (c + length (drop (S c) p)) p
                 end)
        end in
    match colon, slash with
    | Some c, None => with_port c
    | Some c, Some s => if decide (c < s)%nat then with_port c else without_port
    | None, _ => without_port
    end
  else UrlError.

(** ** metadata_parser.c: the metadata files *)

Definition XOCHITL_PATH : list byte :=
  bs "/home/root/.local/share/remarkable/xochitl".
Definition MAX_PATH_DEPTH : nat := 32.

(** [strstr(s, needle)] as the offset of the first occurrence. *)
Fixpoint strstr (s needle : list byte) : option nat :=
  if bool_decide (needle `prefix_of` s) then Some O
  else
    match s with
    | [] => None
    | _ :: rest => S <$> strstr rest needle
    end.

(** The double quote. *)
Definition quote : byte := x22.

(** The white space [read_json_value] skips behind the colon. *)
Fixpoint skip_json_space (s : list byte) : list byte :=
  match s with
  | b :: rest =>
      if bool_decide (b ∈ [" "%byte; x09; x0a; x0d]) then skip_json_space rest
      else s
  | [] => []
  end.

(** The copy loop for a number or boolean: up to a comma, closing brace,
    space, line end or the end of the string, and at most [n] characters. *)
Fixpoint take_token (n : nat) (s : list byte) : list byte :=
  match n, s with
  | S n', b :: rest =>
      if bool_decide (b ∈ [","%byte; "}"%byte; " "%byte; x0a; x0d]) then []
      else b :: take_token n' rest
  | _, _ => []
  end.

(** [Some value] when the call returns true; [value_size] is 256, 37 or 32
    at the calls. *)
Definition read_json_value (json key : list byte) (value_size : nat)
  : option (list byte) :=
  let search_key := take 255 ([quote] ++ key ++ [quote]) in
  key_pos ← strstr json search_key;
  let behind_key := drop (key_pos + length search_key) json in
  colon ← strchr behind_key ":";
  let p := skip_json_space (drop (S colon) behind_key) in
  if decide (char_at p 0 = quote) then
    let p := drop 1 p in
    end_pos ← strchr p quote;
    let len := if decide (value_size ≤ end_pos)%nat then (value_size - 1)%nat
               else end_pos in
    Some (take len p)
  else if decide (char_at p 0 = "n"%byte ∧ strncmp p (bs "null") 4 = 0) then
    Some []
  else
    let value := take_token (value_size - 1) p in
    if decide (0 < length value)%nat then Some value else None.

(** [type] is [None] where the field is left as it was found. *)
Record metadata_info_t : Set := mkMeta {
  meta_doc_id : list byte;
  visible_name : list byte;
  parent : list byte;
  type : option (list byte)
}.

(** [snprintf(path, sizeof(path), "%s/%s.metadata", XOCHITL_PATH, doc_id)]. *)
Definition metadata_path (id : list byte) : list byte :=
  take (PATH_MAX - 1) (XOCHITL_PATH ++ bs "/" ++ id ++ bs ".metadata").

(** At most 4095 bytes of the file are read, and the buffer is used as a
    string. *)
Definition read_metadata_file (fs : filesystem) (id : list byte)
  : option metadata_info_t :=
  match fs !! metadata_path id with
  | None => None
  | Some content =>
      let buffer := take 4095 content in
      if decide (length buffer = 0)%nat then None
      else
        let json := cstr buffer in
        let name := default (bs "Untitled")
                            (read_json_value json (bs "visibleName") 256) in
        let parent_id := default [] (read_json_value json (bs "parent") 37) in
        Some (mkMeta (take UUID_LEN id) name
                (if decide (parent_id = bs "trash") then [] else parent_id)
                (read_json_value json (bs "type") 32))
  end.

(** ** metadata_parser.c: the virtual path *)

(** [path_parts] is the array of the caller; [remaining] is
    [max_depth - depth], so that [depth >= max_depth] is [remaining = 0]. *)
Fixpoint build_path_from (fs : filesystem) (remaining : nat) (id : list byte)
    (path_parts : list (list byte)) (depth : nat)
  : nat * list (list byte) :=
  match remaining with
  | O => (depth, path_parts)
  | S remaining' =>
      if decide (id = []) then (depth, path_parts)
      else
        match read_metadata_file fs id with
        | None => (depth, path_parts)
        | Some info =>
            let path_parts' := <[depth := visible_name info]> path_parts in
            if decide (parent info ≠ []) then
              build_path_from fs remaining' (parent info) path_parts' (S depth)
            else (S depth, path_parts')
        end
  end.

Definition build_path_recursive (fs : filesystem) (id : list byte)
    (path_parts : list (list byte)) (depth max_depth : nat)
  : nat * list (list byte) :=
  build_path_from fs (max_depth - depth) id path_parts depth.

(** [strcat] of one component, behind a slash unless the path is still
    empty. *)
Definition append_part (acc part : list byte) : list byte :=
  (if decide (acc ≠ []) then acc ++ bs "/" else acc) ++ part.

(** The call returns -1, or 0 with [info] filled, or [strcat] writes past
    the end of [info->full_path]. *)
Inductive reconstruct_result : Type :=
  | PathError
  | PathOk (info : path_info_t)
  | PathUndefined.

Module MetadataParser.

(** [path_parts] is the array as the call finds it on the stack, of
    [MAX_PATH_DEPTH] rows. *)
Definition reconstruct_virtual_path (fs : filesystem)
    (path_parts : list (list byte)) (id : list byte)
    (page_num : option (list byte)) : reconstruct_result :=
  match read_metadata_file fs id with
  | None => PathError
  | Some doc_meta =>
      let '(num_parts, path_parts) :=
        if decide (parent doc_meta ≠ []) then
          build_path_recursive fs (parent doc_meta) path_parts 0 MAX_PATH_DEPTH
        else (O, path_parts) in
      let folders :=
        foldl (λ acc i, append_part acc (path_parts !!! i)) []
              (reverse (seq 0 num_parts)) in
      let path := append_part folders (visible_name doc_meta) in
      if decide (PATH_MAX ≤ length path)%nat then PathUndefined
      else
        PathOk (mkPathInfo path (take 255 (visible_name doc_meta))
                  (match page_num with
                   | Some s =>
                       if decide (s ≠ []) then take 63 (bs "Page " ++ s)
                       else []
                   | None => []
                   end))
  end.

End MetadataParser.

(** The folders above a document, from its parent to the top: each has a
    metadata file, and only the last has no parent. *)
Inductive ancestors (fs : filesystem) : list byte → list (list byte) → Prop :=
  | ancestors_top (id : list byte) (info : metadata_info_t) :
      id ≠ [] → read_metadata_file fs id = Some info → parent info = [] →
      ancestors fs id [visible_name info]
  | ancestors_step (id : list byte) (info : metadata_info_t)
      (names : list (list byte)) :
      id ≠ [] → read_metadata_file fs id = Some info → parent info ≠ [] →
      ancestors fs (parent info) names →
      ancestors fs id (visible_name info :: names).

(** The names [build_path_recursive] stores, from the folder it starts at
    upwards, without the array. *)
Fixpoint folder_names (fs : filesystem) (remaining : nat) (id : list byte)
  : list (list byte) :=
  match remaining with
  | O => []
  | S remaining' =>
      if decide (id = []) then []
      else
        match read_metadata_file fs id with
        | None => []
        | Some info =>
            visible_name info
            :: (if decide (parent info ≠ [])
                then folder_names fs remaining' (parent info) else [])
        end
  end.

(** Path components with a slash between each two. *)
Fixpoint join_path (parts : list (list byte)) : list byte :=
  match parts with
  | [] => []
  | [part] => part
  | part :: rest => part ++ bs "/" ++ join_path rest
  end.

(** ** watcher.c: extract_document_id *)

(** [strrchr(s, ch)] as the offset of the last occurrence. *)
Fixpoint strrchr (s : list byte) (ch : byte) : option nat :=
  match s with
  | [] => None
  | b :: rest =>
      match strrchr rest ch with
      | Some i => Some (S i)
      | None => if decide (b = ch) then Some O else None
      end
  end.

(** The result points into [path]: it is the file name. *)
Definition extract_document_id (path : list byte) : option (list byte) :=
  let filename :=
    match strrchr path "/" with
    | None => path
    | Some i => drop (S i) path
    end in
  if decide (UUID_LEN ≤ length filename)%nat then
    if decide (char_at filename 8 = "-"%byte ∧ char_at filename 13 = "-"%byte
               ∧ char_at filename 18 = "-"%byte
               ∧ char_at filename 23 = "-"%byte)
    then Some filename else None
  else None.

(** ** A tablet with two folders *)

(** A metadata file as the tablet writes it, with the three fields the
    parser looks for. *)
Definition metadata_json (name parent_id type_name : list byte) : list byte :=
  bs "{" ++ quote :: bs "parent" ++ quote :: bs ": " ++ quote :: parent_id
  ++ quote :: bs ", " ++ quote :: bs "type" ++ quote :: bs ": "
  ++ quote :: type_name ++ quote :: bs ", " ++ quote :: bs "visibleName"
  ++ quote :: bs ": " ++ quote :: name ++ quote :: bs "}".

Definition folder_work : list byte :=
  bs "ffffffff-0000-0000-0000-000000000001".
Definition folder_projects : list byte :=
  bs "ffffffff-0000-0000-0000-000000000002".

(** The document [doc_a], named Notes, in the folder Projects of the folder
    Work. *)
Definition tablet_fs : filesystem :=
  <[metadata_path doc_a :=
      metadata_json (bs "Notes") folder_projects (bs "DocumentType")]>
  (<[metadata_path folder_projects :=
       metadata_json (bs "Projects") folder_work (bs "CollectionType")]>
   (<[metadata_path folder_work :=
        metadata_json (bs "Work") [] (bs "CollectionType")]> ∅)).

(** ** The cache as a map from ids to pages *)

(** The page a document id and a page uuid lead to: [cache_find_document]
    and then [cache_find_page], the way every caller pairs them. *)
Definition page_lookup (c : CacheHandle) (id page_uuid : list byte)
  : option PageEntry :=
  find_page_ref c id page_uuid ≫= deref c.

(** The same search inside one bucket chain. *)
Definition bucket_lookup (bucket : list DocumentEntry) (id page_uuid : list byte)
  : option PageEntry :=
  match list_find (λ doc, doc_id doc = id) bucket with
  | Some found =>
      snd <$> list_find (λ page, uuid page = page_uuid) (pages found.2)
  | None => None
  end.

(** What find-or-create followed by an update [f] makes of a page chain and
    of a bucket chain. *)
Definition upsert_pages (page_uuid : list byte) (f : PageEntry → PageEntry)
    (chain : list PageEntry) : list PageEntry :=
  match list_find (λ page, uuid page = page_uuid) chain with
  | Some found => alter f found.1 chain
  | None => f (mkPage (take UUID_LEN page_uuid) [] 0 0 0) :: chain
  end.

Definition upsert_bucket (id page_uuid : list byte) (f : PageEntry → PageEntry)
    (bucket : list DocumentEntry) : list DocumentEntry :=
  match list_find (λ doc, doc_id doc = id) bucket with
  | Some found =>
      alter (λ doc, mkDoc (doc_id doc) (upsert_pages page_uuid f (pages doc)))
            found.1 bucket
  | None => mkDoc (take UUID_LEN id) (upsert_pages page_uuid f []) :: bucket
  end.

(** ** Chains without shadowing *)

(** Every document of the chain of bucket [h] has an id that hashes to [h],
    no two documents of the chain have the same id, and no two pages of a
    document the same uuid: the first match of a search is then the only
    one. *)
Definition bucket_ok (h : nat) (bucket : list DocumentEntry) : Prop :=
  Forall (λ doc, hash_string (doc_id doc) = h ∧ NoDup (uuid <$> pages doc))
         bucket
  ∧ NoDup (doc_id <$> bucket).

Definition chained (c : CacheHandle) : Prop :=
  length (table c) = HASH_TABLE_SIZE
  ∧ Forall (λ h, bucket_ok h (table c !!! h)) (seq 0 HASH_TABLE_SIZE).

#[global] Instance bucket_ok_dec (h : nat) (bucket : list DocumentEntry)
  : Decision (bucket_ok h bucket).
Proof. unfold bucket_ok. apply _. Defined.
#[global] Instance chained_dec (c : CacheHandle) : Decision (chained c).
Proof. unfold chained. apply _. Defined.

(** The two mutators of cache_io.c as operations, and a run of them. *)
Inductive cache_op : Type :=
  | AddOrUpdatePage (id page_uuid : list byte)
      (page_num_arg : option (list byte)) (mtime_arg : Z)
      (status : sync_status_t)
  | UpdatePageStatus (id page_uuid : list byte) (status : sync_status_t)
      (retry : Z).

Definition apply_op (c : CacheHandle) (op : cache_op) : CacheHandle :=
  match op with
  | AddOrUpdatePage id page_uuid page_num_arg mtime_arg status =>
      (cache_add_or_update_page c id page_uuid page_num_arg mtime_arg status).2
  | UpdatePageStatus id page_uuid status retry =>
      (cache_update_page_status c id page_uuid status retry).2
  end.

(** The ids an insert is called with fit their buffers. *)
Definition op_fits (op : cache_op) : Prop :=
  match op with
  | AddOrUpdatePage id page_uuid _ _ _ =>
      (length id ≤ UUID_LEN)%nat ∧ (length page_uuid ≤ UUID_LEN)%nat
  | UpdatePageStatus _ _ _ _ => True
  end.

#[global] Instance op_fits_dec (op : cache_op) : Decision (op_fits op).
Proof. destruct op; apply _. Defined.

(** ** The scan of a directory on the map *)

(** What one file of the directory does to the map. *)
Definition scanned_page (file : rm_file) (old : option PageEntry) : PageEntry :=
  match old with
  | Some p =>
      if bool_decide (mtime p < st_mtime file)
      then mkPage (rm_uuid file) (take (MAX_PAGE_NUM_LEN - 1) (rm_page_num file))
                  (st_mtime file) (status_code SYNC_PENDING) (retry_count p)
      else p
  | None =>
      mkPage (rm_uuid file) (take (MAX_PAGE_NUM_LEN - 1) (rm_page_num file))
             (st_mtime file) (status_code SYNC_PENDING) 0
  end.

(** ** The upload batch on the map *)

(** The ids of the table: for every document its id and the uuids of its
    pages, in scan order. *)
Definition outline (c : CacheHandle) : list (list byte * list (list byte)) :=
  (λ doc, (doc_id doc, uuid <$> pages doc)) <$> documents c.

(** A page uuid occurs under one document id only. *)
Definition uuids_owned (c : CacheHandle) : Prop :=
  Forall (λ e, Forall (λ e' : list byte * list (list byte),
                         Forall (λ u, u ∈ e'.2 → e.1 = e'.1) e.2)
                      (outline c))
         (outline c).

#[global] Instance uuids_owned_dec (c : CacheHandle) : Decision (uuids_owned c).
Proof. unfold uuids_owned. apply _. Defined.

(** What the batch loop decides for the page at position [i] of the batch,
    of the document [id]: whether it counts as processed, and the status
    and retry count it passes to [cache_update_page_status]. *)
Definition upload_outcome (config : config_t) (env : collaborators) (i : nat)
    (id : list byte) (page : PageEntry) : bool * (sync_status_t * Z) :=
  match reconstruct_virtual_path env id (page_num page) with
  | None => (false, (SYNC_SKIPPED, 0))
  | Some path_info =>
      if negb (is_under_shared_path (full_path path_info) (shared_path config))
      then (false, (SYNC_SKIPPED, 0))
      else if decide (upload_file env i id (uuid page) (page_num page)
                                  (full_path path_info) = 0)
      then (true, (SYNC_UPLOADED, 0))
      else
        let new_retry_count := (retry_count page + 1) mod 256 in
        if decide (max_retries config ≤ new_retry_count)
        then (false, (SYNC_FAILED, new_retry_count))
        else (false, (SYNC_PENDING, new_retry_count))
  end.

Definition record_outcome (o : bool * (sync_status_t * Z)) (page : PageEntry)
  : PageEntry :=
  mkPage (uuid page) (page_num page) (mtime page) (status_code o.2.1) o.2.2.

(** The part of a page the upload batch never writes. *)
Definition page_key (page : PageEntry) : list byte * list byte * Z :=
  (uuid page, page_num page, mtime page).

(** What a pointer reaches before and after steps of the batch: the same
    uuid, page number and mtime, and a FAILED page only where there was one
    or where an 8-bit retry count can reach the retry limit. *)
Definition page_kept (config : config_t) (old new : option PageEntry) : Prop :=
  match old, new with
  | None, None => True
  | Some p, Some p' =>
      page_key p' = page_key p
      ∧ (sync_status p' = status_code SYNC_FAILED →
         sync_status p = status_code SYNC_FAILED ∨ max_retries config ≤ 255)
  | _, _ => False
  end.

(** * Properties *)

(** ** Bytes and integers *)

Lemma Z_of_byte_range (b : byte) : 0 ≤ Z_of_byte b < 256.
Proof.
  unfold Z_of_byte. pose proof (Byte.to_N_bounded b). lia.
Qed.

Lemma Z_of_byte_of_Z (z : Z) : Z_of_byte (byte_of_Z z) = z mod 256.
Proof.
  unfold Z_of_byte, byte_of_Z.
  pose proof (Z.mod_pos_bound z 256 ltac:(lia)) as Hr.
  destruct (Byte.of_N (Z.to_N (z mod 256))) as [b|] eqn:Hb; simpl.
  - apply Byte.to_of_N in Hb. rewrite Hb. lia.
  - apply Byte.of_N_None_iff in Hb. lia.
Qed.

Lemma Z_of_byte_inj (a b : byte) : Z_of_byte a = Z_of_byte b → a = b.
Proof.
  unfold Z_of_byte. intros H. apply N2Z.inj in H.
  pose proof (Byte.of_to_N a) as Ha. rewrite H, Byte.of_to_N in Ha.
  by injection Ha.
Qed.

Lemma length_le_encode (n : nat) (z : Z) : length (le_encode n z) = n.
Proof. revert z. induction n as [|n IH]; intros z; simpl; [done | by rewrite IH]. Qed.

Lemma le_decode_encode (n : nat) (z : Z) :
  le_decode (le_encode n z) = z mod 256 ^ Z.of_nat n.
Proof.
  revert z. induction n as [|n IH]; intros z.
  - simpl. by rewrite Z.mod_1_r.
  - cbn [le_encode le_decode]. rewrite Z_of_byte_of_Z, IH.
    rewrite Nat2Z.inj_succ, Z.pow_succ_r by lia.
    rewrite (Z.rem_mul_r z 256 (256 ^ Z.of_nat n)) by lia. lia.
Qed.

Lemma le_decode_encode_small (n : nat) (z : Z) :
  0 ≤ z < 256 ^ Z.of_nat n → le_decode (le_encode n z) = z.
Proof. intros H. rewrite le_decode_encode. by apply Z.mod_small. Qed.

Lemma le_decode_byte (z : Z) : 0 ≤ z < 256 → le_decode [byte_of_Z z] = z.
Proof. intros H. apply (le_decode_encode_small 1 z). lia. Qed.

Lemma time_decode_encode (z : Z) :
  - 2 ^ 63 ≤ z < 2 ^ 63 → time_decode (le_encode sizeof_time_t z) = z.
Proof.
  intros H. unfold time_decode, sizeof_time_t. rewrite le_decode_encode.
  change (256 ^ Z.of_nat 8) with (2 ^ 64).
  destruct (decide (0 ≤ z)) as [Hz|Hz].
  - rewrite Z.mod_small by lia. case_decide; lia.
  - replace (z mod 2 ^ 64) with (z + 2 ^ 64).
    + case_decide; lia.
    + apply (Z.mod_unique _ _ (-1)); lia.
Qed.

(** ** C strings and buffers *)

Lemma cstr_app_nul (s rest : list byte) :
  x00 ∉ s → cstr (s ++ x00 :: rest) = s.
Proof.
  induction s as [|b s IH]; intros Hs; simpl.
  - done.
  - apply not_elem_of_cons in Hs as [Hb Hs]. case_decide; [congruence|].
    by rewrite IH.
Qed.

Lemma cstr_id (s : list byte) : x00 ∉ s → cstr s = s.
Proof.
  induction s as [|b s IH]; intros Hs; simpl; [done|].
  apply not_elem_of_cons in Hs as [Hb Hs]. case_decide; [congruence|].
  by rewrite IH.
Qed.

Lemma cstr_no_nul (l : list byte) : x00 ∉ cstr l.
Proof.
  induction l as [|b l IH]; simpl.
  - apply not_elem_of_nil.
  - case_decide; [apply not_elem_of_nil|]. apply not_elem_of_cons. split; congruence.
Qed.

Lemma length_cstr (l : list byte) : (length (cstr l) ≤ length l)%nat.
Proof. induction l as [|b l IH]; simpl; [lia|]. case_decide; simpl; lia. Qed.

Lemma length_pad (n : nat) (s : list byte) : length (pad n s) = n.
Proof. unfold pad. rewrite length_take, length_app, length_replicate. lia. Qed.

Lemma cstr_pad (n : nat) (s : list byte) :
  x00 ∉ s → (length s ≤ n)%nat → cstr (pad n s) = s.
Proof.
  intros Hs Hn. unfold pad. rewrite take_app_ge by done.
  destruct (decide (length s = n)) as [->|Hne].
  - rewrite Nat.sub_diag, take_0, app_nil_r. by apply cstr_id.
  - rewrite take_replicate.
    destruct (n - length s)%nat as [|k] eqn:Hk; [lia|].
    rewrite Nat.min_l by lia. simpl. by apply cstr_app_nul.
Qed.

(** ** Sequential reads *)

Lemma bind_unfold {A B : Type} (m : reader A) (k : A → reader B) (f : stream) :
  (m ≫= k) f = match m f with
               | (Some a, f') => k a f'
               | (None, f') => (None, f')
               end.
Proof. reflexivity. Qed.

Lemma fread_app (n : nat) (l rest : list byte) :
  length l = n → fread n (l ++ rest) = (Some l, rest).
Proof.
  intros <-. unfold fread. rewrite length_app.
  rewrite decide_True by lia.
  by rewrite take_app_length, drop_app_length.
Qed.


Lemma check_true (f : stream) : check true f = (Some (), f).
Proof. reflexivity. Qed.

Lemma read_page_encode (p : PageEntry) (rest : list byte) :
  page_wf p →
  CacheReload.read_page CACHE_VERSION (encode_page p ++ rest) = (Some p, rest).
Proof.
  intros (Hu & Hul & Hn & Hnl & Hm & Hs & Hr).
  unfold CacheReload.read_page, encode_page.
  unfold MAX_PAGE_NUM_LEN in *.
  rewrite (Z.mod_small (Z.of_nat (length (page_num p)))) by lia.
  rewrite <- !app_assoc.
  rewrite bind_unfold, (fread_app UUID_LEN) by apply length_pad.
  rewrite bind_unfold, (fread_app 1 [_]) by done.
  rewrite le_decode_byte by lia.
  rewrite bind_unfold, bool_decide_true, check_true by lia.
  rewrite Nat2Z.id, firstn_all.
  rewrite bind_unfold.
  assert ((if decide (0 < Z.of_nat (length (page_num p)))
           then fread (length (page_num p)) else mret [])
            ((if decide (0 < Z.of_nat (length (page_num p)))
              then page_num p else []) ++
             le_encode sizeof_time_t (mtime p) ++
             [byte_of_Z (sync_status p)] ++ [byte_of_Z (retry_count p)] ++ rest)
          = (Some (page_num p),
             le_encode sizeof_time_t (mtime p) ++
             [byte_of_Z (sync_status p)] ++ [byte_of_Z (retry_count p)] ++ rest))
    as ->.
  { case_decide.
    - by apply fread_app.
    - destruct (page_num p); [done | simpl in *; lia]. }
  rewrite bind_unfold, (fread_app sizeof_time_t) by apply length_le_encode.
  rewrite decide_True by done.
  rewrite bind_unfold, (fread_app 1 [_]) by done.
  rewrite bind_unfold, (fread_app 1 [_]) by done.
  rewrite cstr_pad, cstr_id, time_decode_encode, !le_decode_byte by done.
  by destruct p.
Qed.

Lemma read_pages_encode (ps : list PageEntry) (rest : list byte) :
  Forall page_wf ps →
  CacheReload.read_pages (length ps) CACHE_VERSION
    (concat (encode_page <$> ps) ++ rest) = (ps, rest).
Proof.
  induction 1 as [|p ps Hp _ IH]; [done|].
  cbn [length fmap list_fmap concat CacheReload.read_pages].
  rewrite <- app_assoc, read_page_encode by done.
  by rewrite IH.
Qed.

Lemma read_document_header_encode (d : DocumentEntry) (rest : list byte) :
  doc_wf d →
  CacheReload.read_document_header (encode_document d ++ rest)
  = (Some (doc_id d, length (pages d)),
     concat (encode_page <$> pages d) ++ rest).
Proof.
  intros (Hi & Hil & Hp & Hn).
  unfold CacheReload.read_document_header, encode_document.
  rewrite <- !app_assoc.
  rewrite bind_unfold, (fread_app 1 [_]) by done.
  rewrite le_decode_byte by (unfold UUID_LEN; lia).
  rewrite bind_unfold, bool_decide_true, check_true by done.
  rewrite Nat2Z.id.
  rewrite bind_unfold, (fread_app UUID_LEN) by apply length_pad.
  rewrite bind_unfold, (fread_app 2) by apply length_le_encode.
  rewrite Z.mod_small by lia.
  rewrite le_decode_encode_small by (change (256 ^ Z.of_nat 2) with (2 ^ 16); lia).
  by rewrite cstr_pad, Nat2Z.id.
Qed.

(** The table after the documents [ds] went through the insertion of the
    load loop, one after the other. *)
Lemma read_documents_encode (ds : list DocumentEntry) (n : nat)
    (rest : list byte) (tbl : list (list DocumentEntry)) :
  Forall doc_wf ds →
  CacheReload.read_documents (length ds + n) CACHE_VERSION
    (concat (encode_document <$> ds) ++ rest) tbl
  = CacheReload.read_documents n CACHE_VERSION rest
      (fold_left (λ t d, table_insert d t) ds tbl).
Proof.
  intros Hds. revert tbl.
  induction Hds as [|d ds Hd _ IH]; intros tbl; [done|].
  cbn [length fmap list_fmap concat Nat.add CacheReload.read_documents fold_left].
  rewrite <- app_assoc, read_document_header_encode by done.
  rewrite read_pages_encode by apply Hd.
  rewrite IH. by destruct d.
Qed.

Lemma read_header_encode (num_docs : Z) (rest : list byte) :
  0 ≤ num_docs < 2 ^ 32 →
  CacheReload.read_header
    (le_encode 4 CACHE_MAGIC ++ [byte_of_Z CACHE_VERSION]
     ++ le_encode 4 num_docs ++ rest)
  = (Some (CACHE_VERSION, Z.to_nat num_docs), rest).
Proof.
  intros Hn. unfold CacheReload.read_header.
  rewrite bind_unfold, (fread_app 4) by apply length_le_encode.
  rewrite bind_unfold, bool_decide_true, check_true by done.
  rewrite bind_unfold, (fread_app 1 [_]) by done.
  rewrite bind_unfold, bool_decide_true, check_true by done.
  rewrite bind_unfold, (fread_app 4) by apply length_le_encode.
  rewrite le_decode_encode_small by (change (256 ^ Z.of_nat 4) with (2 ^ 32); lia).
  done.
Qed.

(** ** The two load loops are the same function *)

Lemma read_pages_agree (n : nat) (version : Z) (f : stream) :
  CacheReload.read_pages n version f = CacheOpen.read_pages n version f.
Proof.
  revert f. induction n as [|n IH]; intros f; [done|].
  cbn [CacheReload.read_pages CacheOpen.read_pages].
  change (CacheReload.read_page version f) with (CacheOpen.read_page version f).
  destruct (CacheOpen.read_page version f) as [[page|] f']; [|done].
  by rewrite IH.
Qed.

Lemma read_documents_agree (n : nat) (version : Z) (f : stream)
    (tbl : list (list DocumentEntry)) :
  CacheReload.read_documents n version f tbl
  = CacheOpen.read_documents n version f tbl.
Proof.
  revert f tbl. induction n as [|n IH]; intros f tbl; [done|].
  cbn [CacheReload.read_documents CacheOpen.read_documents].
  change (CacheReload.read_document_header f)
    with (CacheOpen.read_document_header f).
  destruct (CacheOpen.read_document_header f) as [[[id np]|] f']; [|done].
  rewrite read_pages_agree.
  destruct (CacheOpen.read_pages np version f') as [pgs f''].
  apply IH.
Qed.

Lemma read_header_agree (f : stream) :
  CacheReload.read_header f = CacheOpen.read_header f.
Proof. reflexivity. Qed.

(** ** The hash table *)

Lemma hash_string_lt (s : list byte) : (hash_string s < HASH_TABLE_SIZE)%nat.
Proof.
  unfold hash_string, HASH_TABLE_SIZE.
  set (h := fold_left _ _ _).
  pose proof (Z.mod_pos_bound h (Z.of_nat 256) ltac:(lia)). lia.
Qed.

Lemma length_bucket_push (h : nat) (d : DocumentEntry)
    (tbl : list (list DocumentEntry)) :
  length (bucket_push h d tbl) = length tbl.
Proof. unfold bucket_push. apply length_insert. Qed.

Lemma bucket_push_middle (d : DocumentEntry) (x : list DocumentEntry)
    (front back : list (list DocumentEntry)) :
  bucket_push (length front) d (front ++ x :: back) = front ++ (d :: x) :: back.
Proof.
  unfold bucket_push.
  rewrite list_lookup_total_middle by done.
  rewrite insert_app_r_alt, Nat.sub_diag by lia. done.
Qed.

Lemma concat_bucket_push (h : nat) (d : DocumentEntry)
    (tbl : list (list DocumentEntry)) :
  (h < length tbl)%nat → concat (bucket_push h d tbl) ≡ₚ d :: concat tbl.
Proof.
  intros Hh.
  destruct (lookup_lt_is_Some_2 tbl h Hh) as [x Hx].
  apply list_elem_of_split_length in Hx as (front & back & -> & ->).
  rewrite bucket_push_middle, !concat_app. simpl.
  symmetry. apply Permutation_middle.
Qed.

Lemma length_table_insert (d : DocumentEntry) (tbl : list (list DocumentEntry)) :
  length (table_insert d tbl) = length tbl.
Proof. apply length_bucket_push. Qed.


Lemma concat_fold_insert (ds : list DocumentEntry)
    (tbl : list (list DocumentEntry)) :
  length tbl = HASH_TABLE_SIZE →
  concat (fold_left (λ t d, table_insert d t) ds tbl) ≡ₚ ds ++ concat tbl.
Proof.
  revert tbl. induction ds as [|d ds IH]; intros tbl Hl; [done|].
  simpl. rewrite IH by (by rewrite length_table_insert).
  unfold table_insert. rewrite concat_bucket_push.
  - by rewrite Permutation_middle.
  - rewrite Hl. apply hash_string_lt.
Qed.


Lemma cleared_replicate (tbl : list (list DocumentEntry)) :
  (λ _, []) <$> tbl = replicate (length tbl) (@nil DocumentEntry).
Proof. induction tbl as [|b tbl IH]; [done|]. csimpl. by rewrite IH. Qed.

Lemma concat_replicate_nil (n : nat) :
  concat (replicate n (@nil DocumentEntry)) = [].
Proof. induction n as [|n IH]; [done|]. by simpl. Qed.

(** Reloading what was saved puts every chain back in reverse. *)
Lemma fold_insert_bucket (b x : list DocumentEntry)
    (front back : list (list DocumentEntry)) :
  Forall (λ d, hash_string (doc_id d) = length front) b →
  fold_left (λ t d, table_insert d t) b (front ++ x :: back)
  = front ++ (reverse b ++ x) :: back.
Proof.
  intros Hb. revert x. induction Hb as [|d b Hd _ IH]; intros x; [done|].
  simpl. unfold table_insert at 2. rewrite Hd, bucket_push_middle, IH.
  by rewrite reverse_cons, <- app_assoc.
Qed.

Lemma fold_insert_table (front tbl : list (list DocumentEntry)) :
  (∀ j b, tbl !! j = Some b →
          Forall (λ d, hash_string (doc_id d) = (length front + j)%nat) b) →
  fold_left (λ t d, table_insert d t) (concat tbl)
            (front ++ replicate (length tbl) [])
  = front ++ (reverse <$> tbl).
Proof.
  revert front. induction tbl as [|b tbl IH]; intros front Hok; [done|].
  cbn [concat length replicate fmap list_fmap].
  rewrite fold_left_app, fold_insert_bucket.
  - rewrite app_nil_r.
    rewrite (cons_middle (reverse b) front), app_assoc, IH.
    + by rewrite <- app_assoc.
    + intros j b' Hj. rewrite length_app. simpl.
      replace (length front + 1 + j)%nat with (length front + S j)%nat by lia.
      by apply Hok.
  - specialize (Hok O b eq_refl). by rewrite Nat.add_0_r in Hok.
Qed.

(** ** Legacy records *)

Lemma bind_Some {A B : Type} (m : reader A) (k : A → reader B)
    (f f' : stream) (b : B) :
  (m ≫= k) f = (Some b, f') →
  ∃ a f1, m f = (Some a, f1) ∧ k a f1 = (Some b, f').
Proof.
  rewrite bind_unfold. destruct (m f) as [[a|] f1]; [|done]. eauto.
Qed.

Lemma fread_Some (n : nat) (f f' : stream) (l : list byte) :
  fread n f = (Some l, f') → l = take n f ∧ f' = drop n f ∧ (n ≤ length f)%nat.
Proof. unfold fread. case_decide; [|done]. by intros [= <- <-]. Qed.

Lemma check_Some (b : bool) (f f' : stream) (u : ()) :
  check b f = (Some u, f') → b = true ∧ f' = f.
Proof. destruct b; [|done]. by intros [= <-]. Qed.

Lemma read_header_Some (f f' : stream) (version : Z) (num_docs : nat) :
  CacheOpen.read_header f = (Some (version, num_docs), f') →
  (9 ≤ length f)%nat
  ∧ le_decode (take 4 f) = CACHE_MAGIC
  ∧ version = le_decode (take 1 (drop 4 f))
  ∧ (version = CACHE_VERSION ∨ version = 1)
  ∧ num_docs = Z.to_nat (le_decode (take 4 (drop 5 f)))
  ∧ f' = drop 9 f.
Proof.
  unfold CacheOpen.read_header.
  intros (magic & f1 & (-> & -> & ?)%fread_Some & H1)%bind_Some.
  apply bind_Some in H1 as (u1 & f2 & (Hm%bool_decide_eq_true & ->)%check_Some & H2).
  apply bind_Some in H2 as (v & f3 & (-> & -> & Hl1)%fread_Some & H3).
  apply bind_Some in H3 as (u2 & f4 & (Hv & ->)%check_Some & H4).
  apply bind_Some in H4 as (nd & f5 & (-> & -> & Hl2)%fread_Some & H5).
  injection H5 as <- <- <-.
  rewrite !length_drop in *. rewrite !drop_drop.
  apply orb_true_iff in Hv as [Hv%bool_decide_eq_true|Hv%bool_decide_eq_true].
  - split_and!; auto; lia.
  - split_and!; auto; lia.
Qed.





Lemma documents_fresh (n : nat) (d : bool) (p : list byte) :
  documents (mkCache (replicate n []) d p) = [].
Proof. apply concat_replicate_nil. Qed.


(** ** Damaged files *)

Lemma read_header_bad (f : stream) :
  bad_header f → (CacheOpen.read_header f).1 = None.
Proof.
  intros Hbad.
  destruct (CacheOpen.read_header f) as [[[version n]|] f'] eqn:Hh; [|done].
  apply read_header_Some in Hh as (Hl & Hm & -> & Hv & _).
  unfold bad_header in Hbad. unfold CACHE_VERSION in Hv. exfalso.
  destruct Hbad as [?|[?|[? ?]]]; [lia|done|]. by destruct Hv.
Qed.

Lemma read_document_header_bad (f : stream) :
  doc_error f → (CacheOpen.read_document_header f).1 = None.
Proof.
  intros Herr.
  destruct (CacheOpen.read_document_header f) as [[[id np]|] f'] eqn:Hh; [|done].
  exfalso. unfold CacheOpen.read_document_header in Hh.
  apply bind_Some in Hh as (l & f1 & (-> & -> & Hl1)%fread_Some & H1).
  apply bind_Some in H1 as (u & f2 & (Hc%bool_decide_eq_true & ->)%check_Some & H2).
  rewrite Hc, Nat2Z.id in H2.
  apply bind_Some in H2 as (i & f3 & (-> & -> & Hl2)%fread_Some & H3).
  apply bind_Some in H3 as (k & f4 & (-> & -> & Hl3)%fread_Some & H4).
  rewrite !length_drop in *. unfold UUID_LEN in *.
  destruct Herr as [?|?]; [lia|done].
Qed.

Lemma read_documents_stop (n : nat) (version : Z) (f : stream)
    (tbl : list (list DocumentEntry)) :
  doc_error f → CacheOpen.read_documents n version f tbl = tbl.
Proof.
  intros Herr%read_document_header_bad. destruct n as [|n]; [done|].
  cbn [CacheOpen.read_documents].
  by destruct (CacheOpen.read_document_header f) as [[[id np]|] f'].
Qed.

(** ** Saving and loading *)

Lemma load_encoded (c : CacheHandle) (tbl : list (list DocumentEntry)) :
  Forall doc_wf (documents c) →
  Z.of_nat (length (documents c)) < 2 ^ 32 →
  ∃ f', CacheReload.read_header (encode_cache c)
        = (Some (CACHE_VERSION, length (documents c)), f')
        ∧ CacheReload.read_documents (length (documents c)) CACHE_VERSION f' tbl
          = fold_left (λ t d, table_insert d t) (documents c) tbl.
Proof.
  intros Hwf Hn. eexists. split.
  - unfold encode_cache. rewrite Z.mod_small by lia.
    rewrite read_header_encode by lia. by rewrite Nat2Z.id.
  - rewrite <- (Nat.add_0_r (length (documents c))) at 1.
    rewrite <- (app_nil_r (concat _)).
    by rewrite read_documents_encode.
Qed.

(** C4. For a cache whose fields are within the limits of the format,
    decoding the bytes [cache_save] writes gives back the documents of the
    cache, each with its id and with the same pages in the same order and
    with equal uuid, page number, modification time, status and retry
    count; and [cache_reload] straight after a [cache_save] that wrote and
    renamed its file gives them back too.  The chain of every bucket comes
    back in reverse order. *)
Theorem save_reload_round_trip (io : io_env) (fs : filesystem)
    (c : CacheHandle) :
  cache_wf c →
  documents (CacheOpen.cache_open (<[path c := encode_cache c]> fs) (path c))
    ≡ₚ documents c
  ∧ (dirty c = true →
     fopen_wb_ok io (temp_path c) = true →
     rename_ok io (temp_path c) (path c) = true →
     let saved := cache_save io fs c in
     let reloaded := CacheReload.cache_reload saved.1.2 saved.2 in
     saved.1.1 = 0
     ∧ saved.1.2 !! path c = Some (encode_cache c)
     ∧ reloaded.1 = 0
     ∧ documents reloaded.2 ≡ₚ documents c
     ∧ ((∀ i b, table c !! i = Some b →
                Forall (λ d, hash_string (doc_id d) = i) b) →
        table reloaded.2 = reverse <$> table c)).
Proof.
  intros (Hlen & Hwf & Hn).
  destruct (load_encoded c (replicate HASH_TABLE_SIZE []) Hwf Hn)
    as (f' & Hhead & Hdocs).
  split.
  - unfold CacheOpen.cache_open. rewrite lookup_insert_eq.
    rewrite <- read_header_agree, Hhead. cbn [table].
    rewrite <- read_documents_agree, Hdocs.
    unfold documents at 1. cbn [table].
    rewrite concat_fold_insert by apply length_replicate.
    by rewrite concat_replicate_nil, app_nil_r.
  - intros Hd Hopen Hren. cbv zeta.
    unfold cache_save. rewrite Hd, Hopen, Hren. cbn [negb fst snd].
    unfold CacheReload.cache_reload. cbn [path table].
    rewrite !lookup_insert_eq. cbv beta iota. rewrite Hhead, cleared_replicate, Hlen, Hdocs.
    cbn [fst snd].
    split_and!; [done..| |].
    + unfold documents at 1. cbn [table].
      rewrite concat_fold_insert by apply length_replicate.
      by rewrite concat_replicate_nil, app_nil_r.
    + intros Hok. cbn [table]. unfold documents. rewrite <- Hlen.
      apply (fold_insert_table [] (table c)). intros j b Hj. by apply Hok.
Qed.

(** C2 (as the code has it).  [cache_open] never fails on a damaged file.
    A header that cannot be read gives the fresh, empty cache, and so does
    a file that ends right behind the magic number.  An error at the start
    of a document record ends the load, and the cache keeps the documents
    decoded before it. *)
Theorem open_damaged_file (fs : filesystem) (path_arg f : list byte) :
  fs !! path_arg = Some f →
  (bad_header f →
   CacheOpen.cache_open fs path_arg
   = mkCache (replicate HASH_TABLE_SIZE []) false (take (PATH_MAX - 1) path_arg))
  ∧ (f = le_encode 4 CACHE_MAGIC →
     documents (CacheOpen.cache_open fs path_arg) = [])
  ∧ (∀ (ds : list DocumentEntry) (n : nat) (rest : list byte),
       f = le_encode 4 CACHE_MAGIC ++ [byte_of_Z CACHE_VERSION]
           ++ le_encode 4 (Z.of_nat n)
           ++ concat (encode_document <$> ds) ++ rest →
       Forall doc_wf ds → (length ds < n)%nat → Z.of_nat n < 2 ^ 32 →
       doc_error rest →
       documents (CacheOpen.cache_open fs path_arg) ≡ₚ ds).
Proof.
  intros Hf.
  assert (bad_header f →
          CacheOpen.cache_open fs path_arg
          = mkCache (replicate HASH_TABLE_SIZE []) false
                    (take (PATH_MAX - 1) path_arg)) as Hbad.
  { intros Hb%read_header_bad. unfold CacheOpen.cache_open. rewrite Hf.
    by destruct (CacheOpen.read_header f) as [[[version n]|] f']. }
  split_and!; [done| |].
  - intros ->. rewrite Hbad; [apply documents_fresh|]. left. simpl. lia.
  - intros ds n rest -> Hds Hlt Hn Herr.
    unfold CacheOpen.cache_open. rewrite Hf.
    rewrite <- read_header_agree, read_header_encode by lia.
    rewrite Nat2Z.id. cbn [table dirty path].
    replace n with (length ds + (n - length ds))%nat by lia.
    rewrite <- read_documents_agree, read_documents_encode by done.
    rewrite read_documents_agree, read_documents_stop by done.
    unfold documents. cbn [table].
    rewrite concat_fold_insert by apply length_replicate.
    by rewrite concat_replicate_nil, app_nil_r.
Qed.

(** ** The path filter *)

Lemma strncmp_prefix (s1 s2 : list byte) :
  x00 ∉ s2 → strncmp s1 s2 (length s2) = 0 ↔ s2 `prefix_of` s1.
Proof.
  revert s1. induction s2 as [|c2 s2 IH]; intros s1 Hnul.
  - split; [intros _; apply prefix_nil | intros _; reflexivity].
  - apply not_elem_of_cons in Hnul as [Hc2 Hnul].
    destruct s1 as [|c1 s1]; cbn [length strncmp].
    + split.
      * intros H. exfalso. apply Hc2. apply Z_of_byte_inj.
        change (Z_of_byte x00) with 0. lia.
      * intros H. by apply prefix_nil_not in H.
    + case_decide as Hc.
      * subst c2. rewrite IH by done. split.
        -- apply prefix_cons.
        -- apply prefix_cons_inv_2.
      * split.
        -- intros H. exfalso. apply Hc. apply Z_of_byte_inj. lia.
        -- intros H%prefix_cons_inv_1. congruence.
Qed.

(** C6. The filter ["*"] lets every path through.  Any other filter lets
    through exactly the paths it is a prefix of with the prefix ending at a
    component boundary: the path ends there or goes on with ['/'].  So
    ["Work"] matches ["Work"] and ["Work/Projects"] and not ["Workspace"]. *)
Theorem is_under_shared_path_spec (full_path filter : list byte) :
  x00 ∉ full_path → x00 ∉ filter →
  (filter = bs "*" → is_under_shared_path full_path filter = true)
  ∧ (filter ≠ bs "*" →
     (is_under_shared_path full_path filter = true
      ↔ filter `prefix_of` full_path
        ∧ (length full_path = length filter
           ∨ full_path !! length filter = Some "/"%byte)))
  ∧ is_under_shared_path (bs "Work") (bs "Work") = true
  ∧ is_under_shared_path (bs "Work/Projects") (bs "Work") = true
  ∧ is_under_shared_path (bs "Workspace") (bs "Work") = false.
Proof.
  intros Hp Hf. split_and!; [| |done..].
  - intros ->. done.
  - intros Hne. unfold is_under_shared_path.
    rewrite decide_False by done.
    destruct (decide (strncmp full_path filter (length filter) ≠ 0)) as [Hc|Hc].
    + split; [done|]. intros [Hpre _]. apply strncmp_prefix in Hpre; done.
    + apply dec_stable in Hc. apply strncmp_prefix in Hc as Hpre; [|done].
      unfold char_at.
      destruct (full_path !! length filter) as [ch|] eqn:Hch.
      * rewrite (list_lookup_total_correct _ _ _ Hch).
        apply lookup_lt_Some in Hch as Hlt.
        assert (ch ≠ x00) as Hnz.
        { intros ->. apply Hp. by eapply list_elem_of_lookup_2. }
        case_decide as Hd.
        -- split; [|done]. intros _. split; [done|].
           right. destruct Hd as [?| ->]; done.
        -- split; [done|]. intros [_ [?|Hs]]; [lia|].
           injection Hs as ->. exfalso. apply Hd. by right.
      * apply lookup_ge_None in Hch as Hge.
        rewrite list_lookup_total_alt, Hch. simpl.
        split; [|done]. intros _. split; [done|]. left.
        apply prefix_length in Hpre. lia.
Qed.

(** ** cache_save *)



(** ** Lookups after a mutation *)

Lemma list_find_cons {A : Type} (P : A → Prop) `{!∀ x, Decision (P x)}
    (x : A) (l : list A) :
  list_find P (x :: l)
  = if decide (P x) then Some (O, x) else prod_map S id <$> list_find P l.
Proof. reflexivity. Qed.

Lemma list_find_alter {A : Type} (P : A → Prop) `{!∀ x, Decision (P x)}
    (f : A → A) (i : nat) (l : list A) :
  (∀ x, P (f x) ↔ P x) →
  fst <$> list_find P (alter f i l) = fst <$> list_find P l.
Proof.
  intros HP. revert i. induction l as [|x l IH]; intros i; [done|].
  destruct i as [|i].
  - assert (alter f O (x :: l) = f x :: l) as -> by reflexivity.
    rewrite !list_find_cons.
    rewrite (decide_ext (P (f x)) (P x)) by apply HP.
    by case_decide.
  - assert (alter f (S i) (x :: l) = x :: alter f i l) as -> by reflexivity.
    rewrite !list_find_cons.
    case_decide; [done|].
    specialize (IH i).
    destruct (list_find P (alter f i l)) as [[? ?]|], (list_find P l) as [[? ?]|];
      by simplify_eq/=.
Qed.

Lemma lookup_total_alter_eq (g : list DocumentEntry → list DocumentEntry)
    (i : nat) (tbl : list (list DocumentEntry)) :
  g [] = [] → alter g i tbl !!! i = g (tbl !!! i).
Proof.
  intros Hg. rewrite !list_lookup_total_alt, list_lookup_alter_eq.
  by destruct (tbl !! i).
Qed.

Lemma lookup_total_alter_ne (g : list DocumentEntry → list DocumentEntry)
    (i j : nat) (tbl : list (list DocumentEntry)) :
  i ≠ j → alter g i tbl !!! j = tbl !!! j.
Proof.
  intros Hij. by rewrite !list_lookup_total_alt, list_lookup_alter_ne.
Qed.

Lemma ensure_document_found (tbl : list (list DocumentEntry)) (id : list byte)
    (d : DocRef) :
  doc_at tbl id d → ensure_document id tbl = (d, tbl).
Proof.
  destruct d as [h j0]. intros [Hh Hf]. simpl in Hh, Hf. subst h.
  unfold ensure_document.
  destruct (list_find _ (tbl !!! hash_string id)) as [[j x]|]; [|done].
  simpl in Hf. by injection Hf as ->.
Qed.

Lemma ensure_page_found (tbl : list (list DocumentEntry)) (d : DocRef)
    (page_uuid : list byte) (k : nat) :
  page_at tbl d page_uuid k → ensure_page d page_uuid tbl = ((d, k), tbl).
Proof.
  unfold page_at, ensure_page.
  destruct (list_find _ (pages_at tbl d)) as [[j x]|]; [|done].
  simpl. by intros [= ->].
Qed.

Lemma cache_find_document_at (c : CacheHandle) (id : list byte) (d : DocRef) :
  cache_find_document c id = Some d ↔ doc_at (table c) id d.
Proof.
  unfold cache_find_document, doc_at. destruct d as [h j]. simpl. split.
  - destruct (list_find _ (table c !!! hash_string id)) as [[j' x]|] eqn:Hf;
      [|done].
    simpl. intros [= <- <-]. by rewrite Hf.
  - intros [-> Hf].
    destruct (list_find _ (table c !!! hash_string id)) as [[j' x]|]; [|done].
    simpl in *. by injection Hf as ->.
Qed.

Lemma pages_at_deref (c : CacheHandle) (d : DocRef) (doc : DocumentEntry) :
  deref_doc c d = Some doc → pages_at (table c) d = pages doc.
Proof. unfold deref_doc, pages_at. by intros ->. Qed.

Lemma find_page_ref_at (c : CacheHandle) (id page_uuid : list byte)
    (r : PageRef) :
  find_page_ref c id page_uuid = Some r →
  doc_at (table c) id r.1 ∧ page_at (table c) r.1 page_uuid r.2.
Proof.
  unfold find_page_ref. destruct r as [d k].
  destruct (cache_find_document c id) as [d'|] eqn:Hd; [|done]. simpl.
  destruct (deref_doc c d') as [doc|] eqn:Hdoc; [|done]. simpl.
  destruct (cache_find_page doc page_uuid) as [k'|] eqn:Hk; [|done]. simpl.
  intros [= <- <-]. split; [by apply cache_find_document_at|].
  unfold page_at. by rewrite (pages_at_deref c d' doc).
Qed.

Lemma doc_at_lookup (tbl : list (list DocumentEntry)) (id : list byte)
    (d : DocRef) :
  doc_at tbl id d →
  ∃ bucket doc, tbl !! d.1 = Some bucket ∧ bucket !! d.2 = Some doc
                ∧ doc_id doc = id.
Proof.
  intros [_ Hf].
  destruct (list_find _ (tbl !!! d.1)) as [[j x]|] eqn:Hfind; [|done].
  simpl in Hf. injection Hf as ->.
  apply list_find_Some in Hfind as (Hx & Hid & _).
  rewrite list_lookup_total_alt in Hx.
  destruct (tbl !! d.1) as [bucket|]; [|done]. eauto.
Qed.

Lemma pages_at_update (r : PageRef) (f : PageEntry → PageEntry)
    (tbl : list (list DocumentEntry)) (d : DocRef) :
  pages_at (update_page_at r f tbl) d
  = if decide (d = r.1) then alter f r.2 (pages_at tbl d) else pages_at tbl d.
Proof.
  destruct r as [[i j] k], d as [i' j']. unfold pages_at, update_page_at.
  cbn [fst snd]. rewrite list_lookup_alter.
  destruct (decide (i = i')) as [<-|Hi].
  - destruct (tbl !! i) as [bucket|]; simpl; [|by case_decide].
    rewrite list_lookup_alter.
    destruct (decide (j = j')) as [<-|Hj].
    + rewrite decide_True by done. by destruct (bucket !! j).
    + rewrite decide_False by congruence. done.
  - rewrite decide_False by congruence. done.
Qed.

Lemma page_at_update (r : PageRef) (f : PageEntry → PageEntry)
    (tbl : list (list DocumentEntry)) (d : DocRef) (page_uuid : list byte)
    (k : nat) :
  (∀ page, uuid (f page) = uuid page) →
  page_at tbl d page_uuid k → page_at (update_page_at r f tbl) d page_uuid k.
Proof.
  intros Hf. unfold page_at. rewrite pages_at_update.
  case_decide; [|done]. rewrite list_find_alter; [done|].
  intros page. by rewrite Hf.
Qed.

Lemma doc_at_alter (g : list PageEntry → list PageEntry) (i j : nat)
    (tbl : list (list DocumentEntry)) (id : list byte) (d : DocRef) :
  doc_at tbl id d →
  doc_at (alter (alter (λ doc, mkDoc (doc_id doc) (g (pages doc))) j) i tbl)
         id d.
Proof.
  intros [Hh Hfind]. split; [done|].
  destruct (decide (i = d.1)) as [->|Hi].
  - rewrite lookup_total_alter_eq by done.
    rewrite list_find_alter; [done|]. by intros doc.
  - by rewrite lookup_total_alter_ne.
Qed.

Lemma update_page_at_twice (r : PageRef) (f : PageEntry → PageEntry)
    (tbl : list (list DocumentEntry)) :
  (∀ page, f (f page) = f page) →
  update_page_at r f (update_page_at r f tbl) = update_page_at r f tbl.
Proof.
  intros Hf. unfold update_page_at.
  rewrite list_alter_alter_eq. apply list_alter_ext; [|done].
  intros bucket _. cbn [compose].
  rewrite list_alter_alter_eq. apply list_alter_ext; [|done].
  intros doc _. cbn [compose doc_id pages]. f_equal.
  rewrite list_alter_alter_eq. apply list_alter_ext; [|done].
  intros page _. apply Hf.
Qed.

Lemma ensure_document_doc_at (tbl : list (list DocumentEntry))
    (id : list byte) :
  length tbl = HASH_TABLE_SIZE → (length id ≤ UUID_LEN)%nat →
  doc_at (ensure_document id tbl).2 id (ensure_document id tbl).1.
Proof.
  intros Hlen Hid. unfold ensure_document.
  destruct (list_find _ (tbl !!! hash_string id)) as [[j x]|] eqn:Hfind.
  - split; [done|]. cbn [fst snd]. by rewrite Hfind.
  - split; [done|]. cbn [fst snd]. unfold bucket_push.
    rewrite list_lookup_total_insert_eq
      by (rewrite Hlen; apply hash_string_lt).
    rewrite list_find_cons. cbn [doc_id].
    rewrite decide_True by (by apply take_ge). done.
Qed.

Lemma ensure_page_page_at (tbl : list (list DocumentEntry)) (id : list byte)
    (d : DocRef) (page_uuid : list byte) :
  doc_at tbl id d → (length page_uuid ≤ UUID_LEN)%nat →
  (ensure_page d page_uuid tbl).1.1 = d
  ∧ page_at (ensure_page d page_uuid tbl).2 d page_uuid
            (ensure_page d page_uuid tbl).1.2
  ∧ doc_at (ensure_page d page_uuid tbl).2 id d.
Proof.
  intros Hd Hu. unfold ensure_page.
  destruct (list_find _ (pages_at tbl d)) as [[k x]|] eqn:Hfind.
  - cbn [fst snd]. split_and!; [done| |done]. unfold page_at. by rewrite Hfind.
  - cbn [fst snd]. split_and!; [done| |].
    + destruct (doc_at_lookup _ _ _ Hd) as (bucket & doc & Hb & Hdoc & _).
      unfold page_at, pages_at.
      rewrite list_lookup_alter_eq, Hb. cbn [fmap option_fmap option_map mbind option_bind].
      rewrite list_lookup_alter_eq, Hdoc. cbn [fmap option_fmap option_map default pages].
      unfold Datatypes.id. rewrite list_find_cons. cbn [uuid].
      rewrite decide_True by (by apply take_ge). done.
    + by apply (doc_at_alter (λ chain, _ :: chain)).
Qed.

Lemma deref_pages_at (c : CacheHandle) (r : PageRef) :
  deref c r = pages_at (table c) r.1 !! r.2.
Proof.
  unfold deref, pages_at, deref_doc.
  by destruct (table c !! r.1.1 ≫= λ bucket, bucket !! r.1.2).
Qed.

Lemma deref_update (c c' : CacheHandle) (r r' : PageRef)
    (f : PageEntry → PageEntry) :
  table c' = update_page_at r f (table c) →
  deref c' r' = if decide (r' = r) then f <$> deref c r' else deref c r'.
Proof.
  intros Ht. rewrite !deref_pages_at, Ht, pages_at_update.
  destruct r as [d k], r' as [d' k']. cbn [fst snd].
  destruct (decide (d' = d)) as [->|Hd].
  - rewrite decide_True by done. rewrite list_lookup_alter.
    destruct (decide (k = k')) as [->|Hk].
    + by rewrite !decide_True.
    + by rewrite !decide_False by congruence.
  - by rewrite !decide_False by congruence.
Qed.

Lemma deref_doc_update (c c' : CacheHandle) (r : PageRef) (d : DocRef)
    (f : PageEntry → PageEntry) :
  table c' = update_page_at r f (table c) →
  deref_doc c' d
  = if decide (d = r.1)
    then (λ doc, mkDoc (doc_id doc) (alter f r.2 (pages doc))) <$> deref_doc c d
    else deref_doc c d.
Proof.
  intros Ht. unfold deref_doc. rewrite Ht. unfold update_page_at.
  destruct r as [[i j] k], d as [i' j']. cbn [fst snd].
  rewrite list_lookup_alter.
  destruct (decide (i = i')) as [<-|Hi].
  - destruct (table c !! i) as [bucket|]; simpl; [|by case_decide].
    rewrite list_lookup_alter.
    destruct (decide (j = j')) as [<-|Hj].
    + by rewrite decide_True.
    + by rewrite decide_False by congruence.
  - by rewrite decide_False by congruence.
Qed.

Lemma upsert_existing (c : CacheHandle) (id page_uuid : list byte)
    (page_num_arg : option (list byte)) (mtime_arg : Z)
    (status : sync_status_t) (r : PageRef) :
  doc_at (table c) id r.1 → page_at (table c) r.1 page_uuid r.2 →
  cache_add_or_update_page c id page_uuid page_num_arg mtime_arg status
  = (0, mkCache
          (update_page_at r
             (λ page, mkPage (uuid page)
                             (match page_num_arg with
                              | Some s => take (MAX_PAGE_NUM_LEN - 1) s
                              | None => page_num page
                              end)
                             mtime_arg (status_code status) (retry_count page))
             (table c))
          true (path c)).
Proof.
  intros Hd Hp. unfold cache_add_or_update_page.
  rewrite (ensure_document_found _ _ _ Hd).
  rewrite (ensure_page_found _ _ _ _ Hp). by destruct r.
Qed.

(** C9. On a page that is already in the cache, [cache_add_or_update_page]
    returns 0 and leaves the page with its uuid and its retry count, with
    the new modification time and status, and with the page number passed
    (cut to the buffer) or, for a null page number, the one it had.  Every
    other page and every other document is as before, the owning document
    keeps its id and the number of its pages, and the cache is dirty. *)
Theorem upsert_existing_page_frame (c : CacheHandle) (id page_uuid : list byte)
    (page_num_arg : option (list byte)) (mtime_arg : Z)
    (status : sync_status_t) (r : PageRef) (p : PageEntry) :
  find_page_ref c id page_uuid = Some r →
  deref c r = Some p →
  let result :=
    cache_add_or_update_page c id page_uuid page_num_arg mtime_arg status in
  let c' := result.2 in
  result.1 = 0
  ∧ deref c' r
    = Some (mkPage (uuid p)
                   (match page_num_arg with
                    | Some s => take (MAX_PAGE_NUM_LEN - 1) s
                    | None => page_num p
                    end)
                   mtime_arg (status_code status) (retry_count p))
  ∧ (∀ r', r' ≠ r → deref c' r' = deref c r')
  ∧ (∀ d, d ≠ r.1 → deref_doc c' d = deref_doc c d)
  ∧ doc_id <$> deref_doc c' r.1 = doc_id <$> deref_doc c r.1
  ∧ (length ∘ pages) <$> deref_doc c' r.1 = (length ∘ pages) <$> deref_doc c r.1
  ∧ length <$> table c' = length <$> table c
  ∧ dirty c' = true
  ∧ path c' = path c.
Proof.
  intros [Hd Hp]%find_page_ref_at Hr. cbv zeta.
  rewrite (upsert_existing _ _ _ _ _ _ _ Hd Hp). cbn [fst snd dirty path].
  split_and!; [done| | | | | | |done..].
  - erewrite deref_update by done. by rewrite decide_True, Hr.
  - intros r' Hne. erewrite deref_update by done. by rewrite decide_False.
  - intros d Hne. erewrite deref_doc_update by done. by rewrite decide_False.
  - erewrite deref_doc_update by done. rewrite decide_True by done.
    by destruct (deref_doc c r.1).
  - erewrite deref_doc_update by done. rewrite decide_True by done.
    destruct (deref_doc c r.1); [|done]. simpl. by rewrite length_alter.
  - cbn [table]. unfold update_page_at.
    apply list_eq. intros i. rewrite !list_lookup_fmap, list_lookup_alter.
    case_decide; [|done]. subst i.
    destruct (table c !! r.1.1); [|done]. simpl. by rewrite length_alter.
Qed.

(** C8. With ids that fit the [UUID_LEN] characters of their buffers, a
    second [cache_add_or_update_page] with the arguments of the first
    returns 0 and leaves the cache (documents, pages, every field, dirty
    flag) as the first call left it. *)
Theorem upsert_page_idempotent (c : CacheHandle) (id page_uuid : list byte)
    (page_num_arg : option (list byte)) (mtime_arg : Z)
    (status : sync_status_t) :
  length (table c) = HASH_TABLE_SIZE →
  (length id ≤ UUID_LEN)%nat → (length page_uuid ≤ UUID_LEN)%nat →
  let c1 :=
    (cache_add_or_update_page c id page_uuid page_num_arg mtime_arg status).2 in
  cache_add_or_update_page c1 id page_uuid page_num_arg mtime_arg status
  = (0, c1).
Proof.
  intros Hlen Hid Hu. cbv zeta.
  set (f := λ page : PageEntry,
         mkPage (uuid page)
                (match page_num_arg with
                 | Some s => take (MAX_PAGE_NUM_LEN - 1) s
                 | None => page_num page
                 end)
                mtime_arg (status_code status) (retry_count page)).
  assert (∃ r tbl2,
            cache_add_or_update_page c id page_uuid page_num_arg mtime_arg status
            = (0, mkCache (update_page_at r f tbl2) true (path c))
            ∧ doc_at tbl2 id r.1 ∧ page_at tbl2 r.1 page_uuid r.2)
    as (r & tbl2 & -> & Hd2 & Hp2).
  { unfold cache_add_or_update_page.
    pose proof (ensure_document_doc_at (table c) id Hlen Hid) as Hd1.
    destruct (ensure_document id (table c)) as [d tbl1]. cbn [fst snd] in Hd1.
    pose proof (ensure_page_page_at tbl1 id d page_uuid Hd1 Hu)
      as (Hr & Hp2 & Hd2).
    destruct (ensure_page d page_uuid tbl1) as [r tbl2]. cbn [fst snd] in *.
    subst d. by exists r, tbl2. }
  cbn [snd].
  assert (doc_at (update_page_at r f tbl2) id r.1) as Hd3.
  { unfold update_page_at.
    by apply (doc_at_alter (λ chain : list PageEntry, alter f r.2 chain)). }
  assert (page_at (update_page_at r f tbl2) r.1 page_uuid r.2) as Hp3
    by (by apply page_at_update).
  rewrite (upsert_existing _ _ _ _ _ _ r) by done.
  cbn [table path]. fold f. rewrite update_page_at_twice; [done|].
  intros page. unfold f. by destruct page_num_arg.
Qed.

(** ** The scan for pending pages *)

Lemma take_extend {A : Type} (n : nat) (l k : list A) :
  take n l ++ take (n - length (take n l)) k = take n (l ++ k).
Proof.
  rewrite take_app, length_take. f_equal.
  destruct (decide (n ≤ length l)%nat).
  - rewrite Nat.min_l by done. replace (n - n)%nat with O by lia.
    by replace (n - length l)%nat with O by lia.
  - by rewrite Nat.min_r by lia.
Qed.

Lemma pending_in_pages_spec (i j k : nat) (chain : list PageEntry)
    (max_pages : nat) (results : list PageRef) :
  pending_in_pages i j k chain max_pages results
  = results ++ take (max_pages - length results)
                    (pending_refs (entries_pages i j k chain)).
Proof.
  revert k results. induction chain as [|page rest IH]; intros k results.
  - unfold pending_refs. simpl. by rewrite take_nil, app_nil_r.
  - cbn [pending_in_pages entries_pages]. unfold pending_refs.
    rewrite filter_cons. cbn [snd].
    destruct (decide (length results < max_pages)%nat) as [Hlt|Hge].
    + rewrite IH. fold (pending_refs (entries_pages i j (S k) rest)).
      case_decide.
      * rewrite length_app, <- app_assoc. cbn [length fmap list_fmap fst app].
        f_equal.
        destruct (max_pages - length results)%nat as [|m] eqn:Hm; [lia|].
        simpl. f_equal. f_equal. lia.
      * done.
    + replace (max_pages - length results)%nat with O by lia.
      by rewrite take_0, app_nil_r.
Qed.

Lemma pending_in_docs_spec (i j : nat) (chain : list DocumentEntry)
    (max_pages : nat) (results : list PageRef) :
  pending_in_docs i j chain max_pages results
  = results ++ take (max_pages - length results)
                    (pending_refs (entries_docs i j chain)).
Proof.
  revert j results. induction chain as [|doc rest IH]; intros j results.
  - unfold pending_refs. simpl. by rewrite take_nil, app_nil_r.
  - cbn [pending_in_docs entries_docs].
    destruct (decide (length results < max_pages)%nat) as [Hlt|Hge].
    + rewrite IH, pending_in_pages_spec.
      unfold pending_refs. rewrite filter_app, fmap_app.
      rewrite <- app_assoc. f_equal.
      rewrite length_app.
      rewrite <- take_extend. f_equal. f_equal. lia.
    + replace (max_pages - length results)%nat with O by lia.
      by rewrite take_0, app_nil_r.
Qed.

Lemma pending_in_table_spec (i : nat) (buckets : list (list DocumentEntry))
    (max_pages : nat) (results : list PageRef) :
  pending_in_table i buckets max_pages results
  = results ++ take (max_pages - length results)
                    (pending_refs (entries_table i buckets)).
Proof.
  revert i results. induction buckets as [|bucket rest IH]; intros i results.
  - unfold pending_refs. simpl. by rewrite take_nil, app_nil_r.
  - cbn [pending_in_table entries_table].
    destruct (decide (length results < max_pages)%nat) as [Hlt|Hge].
    + rewrite IH, pending_in_docs_spec.
      unfold pending_refs. rewrite filter_app, fmap_app.
      rewrite <- app_assoc. f_equal.
      rewrite length_app.
      rewrite <- take_extend. f_equal. f_equal. lia.
    + replace (max_pages - length results)%nat with O by lia.
      by rewrite take_0, app_nil_r.
Qed.

Lemma entries_pages_elem (i j k : nat) (chain : list PageEntry)
    (r : PageRef) (p : PageEntry) :
  (r, p) ∈ entries_pages i j k chain →
  ∃ n, r = (i, j, (k + n)%nat) ∧ chain !! n = Some p.
Proof.
  revert k. induction chain as [|page rest IH]; intros k Hin; simpl in Hin.
  - by apply elem_of_nil in Hin.
  - apply elem_of_cons in Hin as [Heq|Hin].
    + injection Heq as -> ->. exists O. split; [|done]. f_equal. lia.
    + apply IH in Hin as (n & -> & Hn). exists (S n). split; [|done].
      f_equal. lia.
Qed.

Lemma entries_docs_elem (i j : nat) (chain : list DocumentEntry)
    (r : PageRef) (p : PageEntry) :
  (r, p) ∈ entries_docs i j chain →
  r.1.1 = i ∧ (j ≤ r.1.2)%nat
  ∧ ∃ doc, chain !! (r.1.2 - j)%nat = Some doc ∧ pages doc !! r.2 = Some p.
Proof.
  revert j. induction chain as [|doc rest IH]; intros j Hin; simpl in Hin.
  - by apply elem_of_nil in Hin.
  - apply elem_of_app in Hin as [Hin|Hin].
    + apply entries_pages_elem in Hin as (n & -> & Hn). cbn [fst snd].
      split_and!; [done..|]. exists doc. by rewrite Nat.sub_diag.
    + apply IH in Hin as (Hi & Hj & doc' & Hd & Hp).
      split_and!; [done|lia|]. exists doc'. split; [|done].
      by replace (r.1.2 - j)%nat with (S (r.1.2 - S j)) by lia.
Qed.

Lemma entries_table_elem (i : nat) (buckets : list (list DocumentEntry))
    (r : PageRef) (p : PageEntry) :
  (r, p) ∈ entries_table i buckets →
  (i ≤ r.1.1)%nat
  ∧ ∃ bucket doc, buckets !! (r.1.1 - i)%nat = Some bucket
                  ∧ bucket !! r.1.2 = Some doc ∧ pages doc !! r.2 = Some p.
Proof.
  revert i. induction buckets as [|bucket rest IH]; intros i Hin; simpl in Hin.
  - by apply elem_of_nil in Hin.
  - apply elem_of_app in Hin as [Hin|Hin].
    + apply entries_docs_elem in Hin as (Hi & _ & doc & Hd & Hp).
      split; [lia|]. exists bucket, doc.
      rewrite Hi, Nat.sub_diag. by rewrite Nat.sub_0_r in Hd.
    + apply IH in Hin as (Hi & bucket' & doc & Hb & Hd & Hp).
      split; [lia|]. exists bucket', doc. split; [|done].
      by replace (r.1.1 - i)%nat with (S (r.1.1 - S i)) by lia.
Qed.

Lemma entries_table_deref (c : CacheHandle) (r : PageRef) (p : PageEntry) :
  (r, p) ∈ entries_table 0 (table c) → deref c r = Some p.
Proof.
  intros (_ & bucket & doc & Hb & Hd & Hp)%entries_table_elem.
  rewrite Nat.sub_0_r in Hb. unfold deref, deref_doc.
  rewrite Hb. simpl. rewrite Hd. done.
Qed.

Lemma NoDup_entries_pages (i j k : nat) (chain : list PageEntry) :
  NoDup (fst <$> entries_pages i j k chain).
Proof.
  revert k. induction chain as [|page rest IH]; intros k; csimpl.
  - constructor.
  - constructor; [|apply IH].
    intros ([r p] & Heq & Hin)%list_elem_of_fmap. simpl in Heq. subst r.
    apply entries_pages_elem in Hin as (n & Heq & _).
    injection Heq as Heq. lia.
Qed.

Lemma NoDup_entries_docs (i j : nat) (chain : list DocumentEntry) :
  NoDup (fst <$> entries_docs i j chain).
Proof.
  revert j. induction chain as [|doc rest IH]; intros j; csimpl.
  - constructor.
  - rewrite fmap_app. apply NoDup_app. split_and!.
    + apply NoDup_entries_pages.
    + intros r ([r1 p1] & Heq1 & Hin1)%list_elem_of_fmap
               ([r2 p2] & Heq2 & Hin2)%list_elem_of_fmap.
      simpl in *. subst r1 r2.
      apply entries_pages_elem in Hin1 as (n & -> & _).
      apply entries_docs_elem in Hin2 as (_ & Hj & _). simpl in Hj. lia.
    + apply IH.
Qed.

Lemma NoDup_entries_table (i : nat) (buckets : list (list DocumentEntry)) :
  NoDup (fst <$> entries_table i buckets).
Proof.
  revert i. induction buckets as [|bucket rest IH]; intros i; csimpl.
  - constructor.
  - rewrite fmap_app. apply NoDup_app. split_and!.
    + apply NoDup_entries_docs.
    + intros r ([r1 p1] & Heq1 & Hin1)%list_elem_of_fmap
               ([r2 p2] & Heq2 & Hin2)%list_elem_of_fmap.
      simpl in *. subst r1 r2.
      apply entries_docs_elem in Hin1 as (Hi & _).
      apply entries_table_elem in Hin2 as (Hi2 & _). lia.
    + apply IH.
Qed.

Lemma pending_refs_sublist (entries : list (PageRef * PageEntry)) :
  pending_refs entries `sublist_of` fst <$> entries.
Proof. unfold pending_refs. apply fmap_sublist, sublist_filter. Qed.

Lemma pending_refs_elem (entries : list (PageRef * PageEntry)) (r : PageRef) :
  r ∈ pending_refs entries →
  ∃ p, (r, p) ∈ entries ∧ sync_status p = status_code SYNC_PENDING.
Proof.
  unfold pending_refs.
  intros ([r' p] & -> & [Hs Hin]%list_elem_of_filter)%list_elem_of_fmap.
  by exists p.
Qed.

Lemma until_null_found {A : Type} (found : list A) (n : nat) :
  until_null ((Some <$> found) ++ replicate n None) = found.
Proof.
  induction found as [|a found IH]; csimpl.
  - by destruct n.
  - by rewrite IH.
Qed.

(** C10. [cache_get_pending_pages] never changes the cache.  For the null
    cache or a limit that is not positive it returns the null pointer, not
    an empty array.  For a positive limit (below [INT_MAX], so that
    [max_pages + 1] is an [int]) it returns an array of
    [max_pages + 1] slots: the pointers found, at most [max_pages] of them
    and so followed by at least one null slot, pairwise distinct, each to a
    page of the cache whose status is PENDING; they are the first PENDING
    pages in scan order. *)
Theorem cache_get_pending_pages_spec (cache : option CacheHandle)
    (max_pages : Z) :
  max_pages < 2 ^ 31 - 1 →
  let result := cache_get_pending_pages cache max_pages in
  result.2 = cache
  ∧ (cache = None ∨ max_pages ≤ 0 → result.1 = None)
  ∧ (∀ c, cache = Some c → 0 < max_pages →
       ∃ found : list PageRef,
         result.1
         = Some ((Some <$> found)
                 ++ replicate (Z.to_nat (max_pages + 1) - length found) None)
         ∧ until_null (default [] result.1) = found
         ∧ Z.of_nat (length (default [] result.1)) = max_pages + 1
         ∧ Z.of_nat (length found) ≤ max_pages
         ∧ NoDup found
         ∧ (∀ r, r ∈ found →
                 ∃ p, deref c r = Some p
                      ∧ sync_status p = status_code SYNC_PENDING)
         ∧ found = take (Z.to_nat max_pages)
                        (pending_refs (entries_table 0 (table c)))).
Proof.
  intros _. cbv zeta. unfold cache_get_pending_pages. split_and!.
  - destruct cache as [c|]; [|done]. by case_decide.
  - intros [->|Hle]; [done|]. destruct cache as [c|]; [|done].
    by rewrite decide_True.
  - intros c -> Hpos. rewrite decide_False by lia. cbn [fst].
    rewrite pending_in_table_spec. cbn [app length].
    rewrite Nat.sub_0_r.
    set (found := take _ _).
    assert (length found ≤ Z.to_nat max_pages)%nat as Hlen.
    { unfold found. rewrite length_take. lia. }
    exists found. split_and!; [done| | | | | |done].
    + apply until_null_found.
    + cbn [default from_option]. unfold Datatypes.id.
      rewrite length_app, length_fmap, length_replicate. lia.
    + lia.
    + eapply sublist_NoDup; [apply (NoDup_entries_table 0 (table c))|].
      etrans; [apply sublist_take|apply pending_refs_sublist].
    + intros r Hr.
      assert (r ∈ pending_refs (entries_table 0 (table c))) as Hin.
      { eapply elem_of_sublist; [apply Hr|]. apply sublist_take. }
      apply pending_refs_elem in Hin as (p & Hin & Hs).
      exists p. split; [|done]. by apply entries_table_deref.
Qed.

(** ** The page state machine *)

Lemma update_status_found (c : CacheHandle) (id page_uuid : list byte)
    (status : sync_status_t) (retry : Z) (r : PageRef) :
  find_page_ref c id page_uuid = Some r →
  cache_update_page_status c id page_uuid status retry
  = (0, mkCache
          (update_page_at r
             (λ page, mkPage (uuid page) (page_num page) (mtime page)
                             (status_code status) retry)
             (table c))
          true (path c)).
Proof.
  unfold find_page_ref, cache_update_page_status. destruct r as [d k].
  destruct (cache_find_document c id) as [d'|]; [|done]. simpl.
  destruct (deref_doc c d') as [doc|]; [|done]. simpl.
  destruct (cache_find_page doc page_uuid) as [k'|]; [|done]. simpl.
  by intros [= -> ->].
Qed.

Lemma pending_pointer_status (c : CacheHandle) (max_pages : Z) (r : PageRef) :
  r ∈ until_null (default [] (cache_get_pending_pages (Some c) max_pages).1) →
  ∃ p, deref c r = Some p ∧ sync_status p = status_code SYNC_PENDING.
Proof.
  unfold cache_get_pending_pages. case_decide; [by intros ?%elem_of_nil|].
  cbn [fst default from_option]. unfold Datatypes.id.
  rewrite until_null_found, pending_in_table_spec. cbn [app].
  intros Hr.
  assert (r ∈ pending_refs (entries_table 0 (table c))) as Hin.
  { eapply elem_of_sublist; [apply Hr|]. apply sublist_take. }
  apply pending_refs_elem in Hin as (p & Hin & Hs).
  exists p. split; [|done]. by apply entries_table_deref.
Qed.

(** The second branch of the scan is never taken: its condition asks for
    [page->mtime < st.st_mtime], which the first branch has consumed. *)
Lemma scan_page_rearm_branch_dead (id : list byte) (st : Z * CacheHandle)
    (file : rm_file) :
  scan_page id st file
  = match find_page_ref st.2 id (rm_uuid file) ≫= deref st.2 with
    | Some p =>
        if bool_decide (mtime p < st_mtime file) then
          (st.1 + 1,
           (cache_add_or_update_page st.2 id (rm_uuid file)
              (Some (rm_page_num file)) (st_mtime file) SYNC_PENDING).2)
        else st
    | None =>
        (st.1 + 1,
         (cache_add_or_update_page st.2 id (rm_uuid file)
            (Some (rm_page_num file)) (st_mtime file) SYNC_PENDING).2)
    end.
Proof.
  destruct st as [pages_updated c]. unfold scan_page. cbn [fst snd].
  destruct (find_page_ref c id (rm_uuid file)) as [r|]; [|done].
  cbn [mbind option_bind].
  destruct (deref c r) as [p|]; [|done].
  destruct (bool_decide (mtime p < st_mtime file)) eqn:Hnewer; [done|].
  apply bool_decide_eq_false in Hnewer.
  rewrite decide_False; [done|]. by intros [_ ?].
Qed.

(** C3, as the code has it.  When the scan finds a page that is already in
    the cache with an older modification time, the page comes out PENDING
    with the new time and with the retry count it had: nothing resets
    it. *)
Theorem scan_keeps_retry_count (c : CacheHandle) (id : list byte)
    (file : rm_file) (pages_updated : Z) (r : PageRef) (p : PageEntry) :
  find_page_ref c id (rm_uuid file) = Some r →
  deref c r = Some p →
  mtime p < st_mtime file →
  let result := scan_page id (pages_updated, c) file in
  result.1 = pages_updated + 1
  ∧ deref result.2 r
    = Some (mkPage (uuid p) (take (MAX_PAGE_NUM_LEN - 1) (rm_page_num file))
                   (st_mtime file) (status_code SYNC_PENDING) (retry_count p)).
Proof.
  intros Hfind Hr Hm. cbv zeta. unfold scan_page.
  rewrite Hfind. cbn [mbind option_bind]. rewrite Hr.
  rewrite bool_decide_true by done. cbn [fst snd].
  split; [done|].
  apply find_page_ref_at in Hfind as [Hd Hp].
  rewrite (upsert_existing _ _ _ _ _ _ _ Hd Hp). cbn [snd].
  erewrite deref_update by done. by rewrite decide_True, Hr.
Qed.


(** ** What a load can produce is within the limits of the format *)

Lemma le_decode_range (l : list byte) :
  0 ≤ le_decode l < 256 ^ Z.of_nat (length l).
Proof.
  induction l as [|b l IH]; cbn [le_decode length].
  - simpl. lia.
  - pose proof (Z_of_byte_range b).
    rewrite Nat2Z.inj_succ, Z.pow_succ_r by lia. lia.
Qed.

Lemma time_decode_range (l : list byte) :
  length l = sizeof_time_t → - 2 ^ 63 ≤ time_decode l < 2 ^ 63.
Proof.
  intros Hl. unfold time_decode. pose proof (le_decode_range l) as Hr.
  rewrite Hl in Hr. change (256 ^ Z.of_nat sizeof_time_t) with (2 ^ 64) in Hr.
  case_decide; lia.
Qed.

Lemma cstr_take_wf (n : nat) (f : list byte) :
  (x00 ∉ cstr (take n f)) ∧ (length (cstr (take n f)) ≤ n)%nat.
Proof.
  split; [apply cstr_no_nul|].
  etrans; [apply length_cstr|]. rewrite length_take. lia.
Qed.

Lemma read_page_wf (version : Z) (f f' : stream) (page : PageEntry) :
  CacheOpen.read_page version f = (Some page, f') → page_wf page.
Proof.
  unfold CacheOpen.read_page.
  intros (u & f1 & (-> & _ & _)%fread_Some & H1)%bind_Some.
  apply bind_Some in H1 as (l & f2 & (-> & _ & _)%fread_Some & H2).
  apply bind_Some in H2
    as (? & f3 & (Hlen%bool_decide_eq_true & _)%check_Some & H3).
  apply bind_Some in H3 as (pn & f4 & Hpn & H4).
  apply bind_Some in H4 as (mt & f5 & (-> & _ & Hmt)%fread_Some & H5).
  assert ((x00 ∉ cstr pn) ∧ (length (cstr pn) < MAX_PAGE_NUM_LEN)%nat)
    as [Hn Hnl].
  { split; [apply cstr_no_nul|].
    eapply Nat.le_lt_trans; [apply length_cstr|].
    revert Hpn.
    destruct (decide (0 < le_decode (take 1 f1))) as [Hpos|Hzero]; intros Hpn.
    - apply fread_Some in Hpn as (-> & _ & _). rewrite length_take. lia.
    - injection Hpn as <- _. unfold MAX_PAGE_NUM_LEN. simpl. lia. }
  assert (- 2 ^ 63 ≤ time_decode (take sizeof_time_t f4) < 2 ^ 63) as Hm.
  { apply time_decode_range. rewrite length_take. lia. }
  destruct (cstr_take_wf UUID_LEN f) as [Hu Hul].
  revert H5.
  destruct (decide (version = CACHE_VERSION)) as [Hv|Hv]; intros H5.
  - apply bind_Some in H5 as (st & f6 & (-> & _ & Hst)%fread_Some & H6).
    apply bind_Some in H6 as (rc & f7 & (-> & _ & Hrc)%fread_Some & H7).
    injection H7 as <- _. unfold page_wf.
    cbn [uuid page_num mtime sync_status retry_count].
    pose proof (le_decode_range (take 1 f5)) as Hr1.
    pose proof (le_decode_range (take 1 f6)) as Hr2.
    rewrite length_take in Hr1, Hr2.
    rewrite Nat.min_l in Hr1, Hr2 by lia.
    change (256 ^ Z.of_nat 1) with 256 in Hr1, Hr2.
    split_and!; try done; lia.
  - injection H5 as <- _. unfold page_wf.
    cbn [uuid page_num mtime sync_status retry_count].
    split_and!; try done; simpl; lia.
Qed.

Lemma read_pages_wf (n : nat) (version : Z) (f : stream) :
  Forall page_wf (CacheOpen.read_pages n version f).1
  ∧ (length (CacheOpen.read_pages n version f).1 ≤ n)%nat.
Proof.
  revert f. induction n as [|n IH]; intros f.
  - split; [by constructor|done].
  - cbn [CacheOpen.read_pages].
    destruct (CacheOpen.read_page version f) as [[page|] f'] eqn:Hp.
    + specialize (IH f').
      destruct (CacheOpen.read_pages n version f') as [rest f'']. cbn [fst] in *.
      destruct IH as [IH1 IH2]. split.
      * constructor; [by eapply read_page_wf|done].
      * simpl. lia.
    + split; [by constructor|simpl; lia].
Qed.

Lemma read_document_header_wf (f f' : stream) (id : list byte) (np : nat) :
  CacheOpen.read_document_header f = (Some (id, np), f') →
  (x00 ∉ id) ∧ (length id ≤ UUID_LEN)%nat ∧ Z.of_nat np < 2 ^ 16.
Proof.
  unfold CacheOpen.read_document_header.
  intros (l & f1 & (-> & -> & _)%fread_Some & H1)%bind_Some.
  apply bind_Some in H1
    as (? & f2 & (Hc%bool_decide_eq_true & ->)%check_Some & H2).
  rewrite Hc, Nat2Z.id in H2.
  apply bind_Some in H2 as (i & f3 & (-> & -> & _)%fread_Some & H3).
  apply bind_Some in H3 as (k & f4 & (-> & -> & Hk)%fread_Some & H4).
  injection H4 as <- <- _.
  destruct (cstr_take_wf UUID_LEN (drop 1 f)) as [Hu Hul].
  split_and!; [done..|].
  pose proof (le_decode_range (take 2 (drop UUID_LEN (drop 1 f)))) as Hr.
  rewrite length_take, Nat.min_l in Hr by lia.
  change (256 ^ Z.of_nat 2) with (2 ^ 16) in Hr. lia.
Qed.

Lemma read_documents_wf (n : nat) (version : Z) (f : stream)
    (tbl : list (list DocumentEntry)) :
  length tbl = HASH_TABLE_SIZE →
  Forall doc_wf (concat tbl) →
  length (CacheOpen.read_documents n version f tbl) = HASH_TABLE_SIZE
  ∧ Forall doc_wf (concat (CacheOpen.read_documents n version f tbl))
  ∧ (length (concat (CacheOpen.read_documents n version f tbl))
     ≤ length (concat tbl) + n)%nat.
Proof.
  revert f tbl. induction n as [|n IH]; intros f tbl Hlen Hwf.
  - split_and!; [done..|simpl; lia].
  - cbn [CacheOpen.read_documents].
    destruct (CacheOpen.read_document_header f) as [[[id np]|] f'] eqn:Hh;
      [|split_and!; [done..|lia]].
    apply read_document_header_wf in Hh as (Hid & Hidl & Hnp).
    destruct (read_pages_wf np version f') as [Hpw Hpl].
    destruct (CacheOpen.read_pages np version f') as [pgs f''].
    cbn [fst] in *.
    assert (concat (table_insert (mkDoc id pgs) tbl)
            ≡ₚ mkDoc id pgs :: concat tbl) as Hperm.
    { apply concat_bucket_push. rewrite Hlen. apply hash_string_lt. }
    destruct (IH f'' (table_insert (mkDoc id pgs) tbl)) as (IH1 & IH2 & IH3).
    + by rewrite length_table_insert.
    + rewrite Hperm. constructor; [|done].
      unfold doc_wf. cbn [doc_id pages]. split_and!; [done..|lia].
    + split_and!; [done..|]. rewrite Hperm in IH3. simpl in IH3. lia.
Qed.

(** X29. Whatever file [cache_open] finds, the cache it returns has its
    256 buckets and holds only records within the limits of the format:
    strings that fit their buffers, integers within their widths, page and
    document counts that fit the count fields. *)
Lemma cache_open_wf (fs : filesystem) (path_arg : list byte) :
  cache_wf (CacheOpen.cache_open fs path_arg).
Proof.
  assert (cache_wf (mkCache (replicate HASH_TABLE_SIZE []) false
                            (take (PATH_MAX - 1) path_arg))) as Hfresh.
  { unfold cache_wf, documents. cbn [table].
    rewrite concat_replicate_nil, length_replicate.
    split_and!; [done|constructor|done]. }
  unfold CacheOpen.cache_open.
  destruct (fs !! path_arg) as [f|]; [|done].
  destruct (CacheOpen.read_header f) as [[[version n]|] f'] eqn:Hh; [|done].
  apply read_header_Some in Hh as (_ & _ & _ & _ & -> & _).
  cbn [table dirty path].
  destruct (read_documents_wf
              (Z.to_nat (le_decode (take 4 (drop 5 f)))) version f'
              (replicate HASH_TABLE_SIZE []))
    as (H1 & H2 & H3).
  { apply length_replicate. }
  { rewrite concat_replicate_nil. constructor. }
  unfold cache_wf, documents. cbn [table]. split_and!; [done..|].
  rewrite concat_replicate_nil in H3. cbn [length Nat.add] in H3.
  pose proof (le_decode_range (take 4 (drop 5 f))) as Hr.
  assert (length (take 4 (drop 5 f)) ≤ 4)%nat as Hl4
    by (rewrite length_take; lia).
  assert (256 ^ Z.of_nat (length (take 4 (drop 5 f))) ≤ 2 ^ 32) as Hpow.
  { change (2 ^ 32) with (256 ^ Z.of_nat 4).
    apply Z.pow_le_mono_r; lia. }
  lia.
Qed.

(** ** The scenarios, computed *)

Ltac by_compute := apply (bool_decide_unpack _); vm_compute; exact I.

(** The two sample documents share a bucket. *)
Example doc_a_doc_b_collide : hash_string doc_a = hash_string doc_b.
Proof. vm_compute. reflexivity. Qed.

(** Three upload cycles against a server that refuses: the page is PENDING
    with retry count 1, then 2, and FAILED with retry count 3 after the
    third; a fourth cycle, against a server that would accept the upload,
    processes nothing and leaves the page FAILED. *)
Example three_failing_cycles :
  deref fresh_cache p3_ref = None
  ∧ deref cycle_1.2 p3_ref
    = Some (mkPage P3 (bs "1") 100 (status_code SYNC_PENDING) 1)
  ∧ deref cycle_2.2 p3_ref
    = Some (mkPage P3 (bs "1") 100 (status_code SYNC_PENDING) 2)
  ∧ deref cycle_3.2 p3_ref
    = Some (mkPage P3 (bs "1") 100 (status_code SYNC_FAILED) 3)
  ∧ cycle_4.1.1 = 0
  ∧ deref cycle_4.2 p3_ref
    = Some (mkPage P3 (bs "1") 100 (status_code SYNC_FAILED) 3).
Proof. vm_compute. repeat split; reflexivity. Qed.


(** A page whose uuid also sits in a document found earlier: the lookups
    lead to the page of that document, and a failed delivery of the page
    of [doc_a] is counted there; the page of [doc_a] stays PENDING with
    retry count 0. *)
Example shadowed_failure_not_counted :
  deref shadowed_cache shadowed_ref
  = Some (mkPage P3 (bs "1") 100 (status_code SYNC_PENDING) 0)
  ∧ cache_get_document_for_page shadowed_cache P3 = Some doc_b
  ∧ find_page_ref shadowed_cache doc_b P3 = Some shadowing_ref
  ∧ find_page_ref shadowed_cache doc_a P3 = Some shadowed_ref
  ∧ deref (process_page three_retries failing_server 0 (0, shadowed_cache)
             shadowed_ref).2 shadowed_ref
    = Some (mkPage P3 (bs "1") 100 (status_code SYNC_PENDING) 0)
  ∧ deref (process_page three_retries failing_server 0 (0, shadowed_cache)
             shadowed_ref).2 shadowing_ref
    = Some (mkPage P3 (bs "1") 100 (status_code SYNC_PENDING) 1).
Proof. vm_compute. repeat split; reflexivity. Qed.


(** C2, the claim as stated fails: the file announces two documents and
    ends where the second should start, and the cache that [cache_open]
    returns holds the first document and its page. *)
Lemma open_keeps_records_before_error :
  doc_error (drop (length cut_file) cut_file)
  ∧ documents (CacheOpen.cache_open {[ sample_path := cut_file ]} sample_path)
    = [mkDoc doc_a [mkPage P3 (bs "1") 100 1 0]]
  ∧ documents (CacheOpen.cache_open {[ sample_path := cut_file ]} sample_path)
    ≠ [].
Proof.
  split_and!.
  - left. vm_compute. lia.
  - vm_compute. reflexivity.
  - vm_compute. discriminate.
Qed.

Lemma open_damaged_file_witness :
  documents (CacheOpen.cache_open {[ sample_path := le_encode 4 CACHE_MAGIC ]}
                                  sample_path) = [].
Proof.
  refine (proj1 (proj2 (open_damaged_file
                          {[ sample_path := le_encode 4 CACHE_MAGIC ]}
                          sample_path (le_encode 4 CACHE_MAGIC) _)) eq_refl).
  vm_compute. reflexivity.
Defined.

(** C3 at the failing input: [P3] is FAILED with retry count 3 and was
    modified at 100; the scan sees its file modified at 200 and leaves it
    PENDING with retry count 3, and the next refused upload makes it FAILED
    again at once. *)
Lemma scan_keeps_retry_count_witness :
  deref (scan_page doc_a (0, p3_failed_cache) p3_modified).2 p3_ref
  = Some (mkPage P3 (bs "1") 200 (status_code SYNC_PENDING) 3).
Proof.
  refine (proj2 (scan_keeps_retry_count p3_failed_cache doc_a p3_modified 0
                   p3_ref (mkPage P3 (bs "1") 100 2 3) _ _ _));
    try (vm_compute; reflexivity).
Defined.

Example rearmed_page_fails_at_once :
  let rescanned := (scan_page doc_a (0, p3_failed_cache) p3_modified).2 in
  deref (process_page three_retries failing_server 0 (0, rescanned) p3_ref).2
        p3_ref
  = Some (mkPage P3 (bs "1") 200 (status_code SYNC_FAILED) 4).
Proof. vm_compute. reflexivity. Qed.

(** An uploaded page whose file changed is PENDING again with the new
    modification time. *)
Example scan_rearms_uploaded_page :
  deref p3_uploaded_cache p3_ref
  = Some (mkPage P3 (bs "1") 100 (status_code SYNC_UPLOADED) 0)
  ∧ deref (scan_page doc_a (0, p3_uploaded_cache) p3_modified).2 p3_ref
    = Some (mkPage P3 (bs "1") 200 (status_code SYNC_PENDING) 0).
Proof. vm_compute. split; reflexivity. Qed.

(** A page whose path does not pass the filter is SKIPPED. *)
Example filtered_page_is_skipped :
  deref (process_page shared_only working_server 0 (0, p3_cache) p3_ref).2
        p3_ref
  = Some (mkPage P3 (bs "1") 100 (status_code SYNC_SKIPPED) 0).
Proof. vm_compute. reflexivity. Qed.

(** Every successful upload stores retry count 0 with UPLOADED. *)
Lemma upload_success_resets_retry (config : config_t) (env : collaborators)
    (i : nat) (processed : Z) (c : CacheHandle) (r : PageRef) (p : PageEntry)
    (id : list byte) (info : path_info_t) :
  deref c r = Some p →
  cache_get_document_for_page c (uuid p) = Some id →
  find_page_ref c id (uuid p) = Some r →
  reconstruct_virtual_path env id (page_num p) = Some info →
  is_under_shared_path (full_path info) (shared_path config) = true →
  upload_file env i id (uuid p) (page_num p) (full_path info) = 0 →
  deref (process_page config env i (processed, c) r).2 r
  = Some (mkPage (uuid p) (page_num p) (mtime p)
                 (status_code SYNC_UPLOADED) 0).
Proof.
  intros Hr Hdoc Hfind Hpath Hfilter Hup.
  unfold process_page. rewrite Hr, Hdoc, Hpath, Hfilter. cbn [negb].
  rewrite decide_True by done. cbn [snd].
  rewrite (update_status_found _ _ _ _ _ _ Hfind). cbn [snd].
  erewrite deref_update by done. by rewrite decide_True, Hr.
Qed.

Lemma save_reload_round_trip_witness :
  documents (CacheReload.cache_reload
               (cache_save io_ok ∅ five_pending).1.2
               (cache_save io_ok ∅ five_pending).2).2
  ≡ₚ documents five_pending.
Proof.
  refine (proj1 (proj2 (proj2 (proj2 (proj2 (save_reload_round_trip
            io_ok ∅ five_pending _) eq_refl eq_refl eq_refl))))).
  by_compute.
Defined.

(** The chains come back reversed: [doc_b], inserted last, is the head of
    its bucket before the round trip and behind [doc_a] after it. *)
Example reload_reverses_chain :
  doc_id <$> documents five_pending = [doc_b; doc_a]
  ∧ doc_id <$> documents (CacheReload.cache_reload
                            (cache_save io_ok ∅ five_pending).1.2
                            (cache_save io_ok ∅ five_pending).2).2
    = [doc_a; doc_b].
Proof. vm_compute. split; reflexivity. Qed.


(** The page of the version-1 file, as both loads import it. *)
Example legacy_file_loaded :
  documents (CacheOpen.cache_open {[ sample_path := legacy_file ]} sample_path)
  = [mkDoc doc_a [mkPage P3 (bs "7") 100 (status_code SYNC_PENDING) 0]]
  ∧ documents (CacheReload.cache_reload {[ sample_path := legacy_file ]}
                                        fresh_cache).2
    = [mkDoc doc_a [mkPage P3 (bs "7") 100 (status_code SYNC_PENDING) 0]].
Proof. vm_compute. split; reflexivity. Qed.

Lemma is_under_shared_path_spec_witness :
  is_under_shared_path (bs "Work/Projects") (bs "Work") = true
  ↔ bs "Work" `prefix_of` bs "Work/Projects"
    ∧ (length (bs "Work/Projects") = length (bs "Work")
       ∨ bs "Work/Projects" !! length (bs "Work") = Some "/"%byte).
Proof.
  refine (proj1 (proj2 (is_under_shared_path_spec (bs "Work/Projects")
                          (bs "Work") _ _)) _).
  - by_compute.
  - by_compute.
  - vm_compute. discriminate.
Defined.


Lemma upsert_page_idempotent_witness :
  cache_add_or_update_page p3_cache doc_a P3 (Some (bs "1")) 100 SYNC_PENDING
  = (0, p3_cache).
Proof.
  refine (upsert_page_idempotent fresh_cache doc_a P3 (Some (bs "1")) 100
            SYNC_PENDING _ _ _).
  - vm_compute. reflexivity.
  - vm_compute. lia.
  - vm_compute. lia.
Defined.

Lemma upsert_existing_page_frame_witness :
  deref (cache_add_or_update_page p3_failed_cache doc_a P3 None 200
           SYNC_PENDING).2 p3_ref
  = Some (mkPage P3 (bs "1") 200 (status_code SYNC_PENDING) 3).
Proof.
  refine (proj1 (proj2 (upsert_existing_page_frame p3_failed_cache doc_a P3
                          None 200 SYNC_PENDING p3_ref
                          (mkPage P3 (bs "1") 100 2 3) _ _)));
    vm_compute; reflexivity.
Defined.

(** [pending_pages(2)] on a cache with five PENDING pages. *)
Lemma cache_get_pending_pages_spec_witness :
  (cache_get_pending_pages (Some five_pending) 2).2 = Some five_pending
  ∧ ∃ found,
      (cache_get_pending_pages (Some five_pending) 2).1
      = Some ((Some <$> found) ++ replicate (3 - length found) None)
      ∧ Z.of_nat (length found) ≤ 2 ∧ NoDup found.
Proof.
  pose proof (cache_get_pending_pages_spec (Some five_pending) 2) as Hspec.
  assert (2 < 2 ^ 31 - 1) as Hint by lia.
  destruct (Hspec Hint) as (Hsame & _ & Hfound).
  destruct (Hfound five_pending eq_refl ltac:(lia))
    as (found & Harray & _ & _ & Hlen & Hdup & _).
  split; [exact Hsame|]. exists found. by split_and!.
Defined.

Example two_of_five_pending :
  (cache_get_pending_pages (Some five_pending) 2).1
  = Some [Some (hash_string doc_b, O, O); Some (hash_string doc_b, O, 1%nat);
          None]
  ∧ cache_count_by_status five_pending SYNC_PENDING = 5.
Proof. vm_compute. split; reflexivity. Qed.

(** * Further properties *)

(** ** The cache as a map *)

Lemma list_find_alter_full {A : Type} (P : A → Prop) `{!∀ x, Decision (P x)}
    (f : A → A) (i : nat) (l : list A) :
  (∀ x, P (f x) ↔ P x) →
  list_find P (alter f i l)
  = (λ found, (found.1, if decide (found.1 = i) then f found.2 else found.2))
      <$> list_find P l.
Proof.
  intros HP. revert i. induction l as [|x l IH]; intros i; [done|].
  destruct i as [|i].
  - assert (alter f O (x :: l) = f x :: l) as -> by reflexivity.
    rewrite !list_find_cons.
    rewrite (decide_ext (P (f x)) (P x)) by apply HP.
    case_decide; [done|].
    destruct (list_find P l) as [[j y]|]; [|done]. done.
  - assert (alter f (S i) (x :: l) = x :: alter f i l) as -> by reflexivity.
    rewrite !list_find_cons.
    case_decide; [done|].
    rewrite IH.
    destruct (list_find P l) as [[j y]|]; [|done]. simpl.
    do 2 f_equal. destruct (decide (j = i)) as [->|Hne].
    + by rewrite decide_True.
    + by rewrite decide_False by lia.
Qed.

Lemma alter_as_insert {A : Type} (g : A → A) (i : nat) (l : list A) (x : A) :
  l !! i = Some x → alter g i l = <[i := g x]> l.
Proof.
  intros Hx. apply list_eq. intros j.
  rewrite list_lookup_alter, list_lookup_insert.
  apply lookup_lt_Some in Hx as Hlt.
  destruct (decide (i = j)) as [<-|Hne].
  - rewrite Hx. by rewrite decide_True by done.
  - by rewrite decide_False by (intros [? ?]; done).
Qed.

Lemma lookup_total_Some (tbl : list (list DocumentEntry)) (h j : nat)
    (doc : DocumentEntry) :
  (tbl !!! h) !! j = Some doc → tbl !! h = Some (tbl !!! h).
Proof.
  rewrite list_lookup_total_alt. by destruct (tbl !! h).
Qed.

Lemma page_lookup_bucket (c : CacheHandle) (id page_uuid : list byte) :
  page_lookup c id page_uuid
  = bucket_lookup (table c !!! hash_string id) id page_uuid.
Proof.
  unfold page_lookup, find_page_ref, cache_find_document, bucket_lookup.
  destruct (list_find _ (table c !!! hash_string id)) as [[j doc]|] eqn:Hfind;
    [|done].
  cbn [fmap option_fmap option_map mbind option_bind fst snd].
  apply list_find_Some in Hfind as (Hdoc & _ & _).
  pose proof (lookup_total_Some _ _ _ _ Hdoc) as Hb.
  unfold deref_doc at 1. cbn [fst snd]. rewrite Hb.
  cbn [mbind option_bind]. rewrite Hdoc. cbn [mbind option_bind].
  unfold cache_find_page.
  destruct (list_find _ (pages doc)) as [[k p]|] eqn:Hp; [|reflexivity].
  cbn [fmap option_fmap option_map mbind option_bind fst snd mret option_ret].
  apply list_find_Some in Hp as (Hp & _ & _).
  unfold deref, deref_doc. cbn [fst snd]. rewrite Hb.
  cbn [mbind option_bind]. rewrite Hdoc. done.
Qed.

Lemma pages_lookup_upsert (page_uuid u' : list byte) (f : PageEntry → PageEntry)
    (chain : list PageEntry) :
  (∀ page, uuid (f page) = uuid page) →
  (list_find (λ page, uuid page = page_uuid) chain = None →
   take UUID_LEN page_uuid = page_uuid) →
  snd <$> list_find (λ page, uuid page = u') (upsert_pages page_uuid f chain)
  = if decide (u' = page_uuid)
    then Some (f (default (mkPage (take UUID_LEN page_uuid) [] 0 0 0)
                    (snd <$> list_find (λ page, uuid page = page_uuid) chain)))
    else snd <$> list_find (λ page, uuid page = u') chain.
Proof.
  intros Hf Hnew. unfold upsert_pages.
  destruct (list_find (λ page, uuid page = page_uuid) chain) as [[k p]|] eqn:Hk.
  - cbn [fst]. rewrite list_find_alter_full by (intros page; by rewrite Hf).
    apply list_find_Some in Hk as (Hp & Hu & Hfirst).
    destruct (decide (u' = page_uuid)) as [->|Hne].
    + assert (list_find (λ page, uuid page = page_uuid) chain = Some (k, p))
        as -> by (by apply list_find_Some).
      cbn. by rewrite decide_True.
    + destruct (list_find (λ page, uuid page = u') chain) as [[k' p']|] eqn:Hk';
        [|done].
      cbn. apply list_find_Some in Hk' as (Hp' & Hu' & _).
      rewrite decide_False; [done|]. intros ->. congruence.
  - specialize (Hnew eq_refl). rewrite list_find_cons. rewrite Hf. cbn [uuid].
    rewrite Hnew. destruct (decide (u' = page_uuid)) as [->|Hne].
    + by rewrite decide_True.
    + rewrite decide_False by done.
      destruct (list_find (λ page, uuid page = u') chain) as [[k' p']|]; done.
Qed.

Lemma bucket_lookup_upsert (id page_uuid id' u' : list byte)
    (f : PageEntry → PageEntry) (bucket : list DocumentEntry) :
  (∀ page, uuid (f page) = uuid page) →
  (list_find (λ doc, doc_id doc = id) bucket = None → take UUID_LEN id = id) →
  (bucket_lookup bucket id page_uuid = None →
   take UUID_LEN page_uuid = page_uuid) →
  bucket_lookup (upsert_bucket id page_uuid f bucket) id' u'
  = if decide (id' = id ∧ u' = page_uuid)
    then Some (f (default (mkPage (take UUID_LEN page_uuid) [] 0 0 0)
                    (bucket_lookup bucket id page_uuid)))
    else bucket_lookup bucket id' u'.
Proof.
  intros Hf Hid Hu. unfold upsert_bucket, bucket_lookup in *.
  destruct (list_find (λ doc, doc_id doc = id) bucket) as [[j doc]|] eqn:Hj.
  - cbn [fst]. cbn [fmap option_fmap option_map mbind option_bind snd] in Hu.
    rewrite list_find_alter_full by done.
    apply list_find_Some in Hj as Hj'. destruct Hj' as (Hdoc & Hdid & _).
    destruct (decide (id' = id)) as [->|Hne].
    + rewrite Hj. cbn [fmap option_fmap option_map mbind option_bind fst snd].
      rewrite decide_True by done. cbn [pages].
      rewrite pages_lookup_upsert;
        [|done|by intros Hn; apply Hu; rewrite Hn].
      destruct (decide (u' = page_uuid)) as [->|Hne'].
      * by rewrite decide_True.
      * by rewrite decide_False by (intros [_ ?]; done).
    + rewrite (decide_False (P := id' = id ∧ u' = page_uuid))
        by (intros [? _]; done).
      destruct (list_find (λ doc0, doc_id doc0 = id') bucket)
        as [[j' doc']|] eqn:Hj'; [|done].
      cbn [fmap option_fmap option_map mbind option_bind fst snd].
      apply list_find_Some in Hj' as (Hdoc' & Hdid' & _).
      rewrite decide_False; [done|]. intros ->. congruence.
  - specialize (Hid eq_refl). rewrite list_find_cons. cbn [doc_id].
    rewrite Hid.
    cbn [fmap option_fmap option_map mbind option_bind snd] in Hu.
    specialize (Hu eq_refl).
    destruct (decide (id' = id)) as [->|Hne].
    + rewrite decide_True by done.
      cbn [fmap option_fmap option_map mbind option_bind snd pages].
      rewrite pages_lookup_upsert by done.
      destruct (decide (u' = page_uuid)) as [->|Hne'].
      * by rewrite decide_True.
      * rewrite decide_False by (intros [_ ?]; done). by rewrite Hj.
    + rewrite decide_False by done.
      rewrite (decide_False (P := id' = id ∧ u' = page_uuid))
        by (intros [? _]; done).
      by destruct (list_find (λ doc, doc_id doc = id') bucket) as [[j' doc']|].
Qed.

Lemma update_page_at_insert (tbl : list (list DocumentEntry)) (h j k : nat)
    (f : PageEntry → PageEntry) (bucket : list DocumentEntry)
    (doc : DocumentEntry) :
  tbl !! h = Some bucket → bucket !! j = Some doc →
  update_page_at (h, j, k) f tbl
  = <[h := <[j := mkDoc (doc_id doc) (alter f k (pages doc))]> bucket]> tbl.
Proof.
  intros Hb Hdoc. unfold update_page_at. cbn [fst snd].
  rewrite (alter_as_insert _ _ _ _ Hb). f_equal.
  by rewrite (alter_as_insert _ _ _ _ Hdoc).
Qed.

Lemma upsert_bucket_found (id page_uuid : list byte) (f : PageEntry → PageEntry)
    (bucket : list DocumentEntry) (j : nat) (doc : DocumentEntry) :
  list_find (λ doc, doc_id doc = id) bucket = Some (j, doc) →
  upsert_bucket id page_uuid f bucket
  = <[j := mkDoc (doc_id doc) (upsert_pages page_uuid f (pages doc))]> bucket.
Proof.
  intros Hj. unfold upsert_bucket. rewrite Hj. cbn [fst].
  apply list_find_Some in Hj as (Hdoc & _ & _).
  by rewrite (alter_as_insert _ _ _ _ Hdoc).
Qed.

Lemma update_found_table (c : CacheHandle) (id page_uuid : list byte)
    (f : PageEntry → PageEntry) (r : PageRef) :
  find_page_ref c id page_uuid = Some r →
  update_page_at r f (table c)
  = <[hash_string id :=
        upsert_bucket id page_uuid f (table c !!! hash_string id)]> (table c).
Proof.
  unfold find_page_ref, cache_find_document.
  destruct (list_find _ (table c !!! hash_string id)) as [[j doc]|] eqn:Hj;
    [|done].
  cbn [fmap option_fmap option_map mbind option_bind fst snd].
  apply list_find_Some in Hj as Hj'. destruct Hj' as (Hdoc & _ & _).
  pose proof (lookup_total_Some _ _ _ _ Hdoc) as Hb.
  unfold deref_doc. cbn [fst snd]. rewrite Hb.
  cbn [mbind option_bind]. rewrite Hdoc. cbn [mbind option_bind].
  unfold cache_find_page.
  destruct (list_find _ (pages doc)) as [[k p]|] eqn:Hk; [|done].
  cbn [fmap option_fmap option_map mbind option_bind fst snd mret option_ret].
  intros [= <-].
  rewrite (update_page_at_insert _ _ _ _ _ _ _ Hb Hdoc).
  rewrite (upsert_bucket_found _ _ _ _ _ _ Hj).
  unfold upsert_pages. by rewrite Hk.
Qed.

Lemma upsert_table (c : CacheHandle) (id page_uuid : list byte)
    (page_num_arg : option (list byte)) (mtime_arg : Z)
    (status : sync_status_t) :
  (hash_string id < length (table c))%nat →
  cache_add_or_update_page c id page_uuid page_num_arg mtime_arg status
  = (0, mkCache
          (<[hash_string id :=
               upsert_bucket id page_uuid
                 (λ page, mkPage (uuid page)
                            (match page_num_arg with
                             | Some s => take (MAX_PAGE_NUM_LEN - 1) s
                             | None => page_num page
                             end)
                            mtime_arg (status_code status) (retry_count page))
                 (table c !!! hash_string id)]> (table c))
          true (path c)).
Proof.
  intros Hlt. unfold cache_add_or_update_page, ensure_document.
  set (f := λ page : PageEntry, mkPage _ _ _ _ _).
  set (h := hash_string id) in *.
  destruct (lookup_lt_is_Some_2 _ _ Hlt) as [bucket Hb].
  assert (table c !!! h = bucket) as Hbt
    by (by rewrite list_lookup_total_alt, Hb).
  rewrite Hbt.
  destruct (list_find _ bucket) as [[j doc]|] eqn:Hj.
  - cbn [fst]. apply list_find_Some in Hj as Hj'.
    destruct Hj' as (Hdoc & _ & _).
    rewrite (upsert_bucket_found _ _ _ _ _ _ Hj).
    unfold ensure_page, pages_at. cbn [fst snd]. rewrite Hb.
    cbn [mbind option_bind]. rewrite Hdoc.
    cbn [fmap option_fmap option_map default]. unfold Datatypes.id.
    unfold upsert_pages.
    destruct (list_find _ (pages doc)) as [[k p]|] eqn:Hk.
    + cbn [fst]. by rewrite (update_page_at_insert _ _ _ _ _ _ _ Hb Hdoc).
    + rewrite (alter_as_insert _ _ _ _ Hb), (alter_as_insert _ _ _ _ Hdoc).
      erewrite update_page_at_insert;
        [|by apply list_lookup_insert_eq
         |apply list_lookup_insert_eq; by eapply lookup_lt_Some].
      rewrite !list_insert_insert_eq. done.
  - unfold bucket_push. rewrite Hbt.
    unfold ensure_page, pages_at. cbn [fst snd].
    rewrite list_lookup_insert_eq by done.
    cbn [mbind option_bind lookup list_lookup fmap option_fmap option_map
         default pages]. unfold Datatypes.id. cbn [list_find].
    cbn [fmap option_fmap option_map].
    rewrite (alter_as_insert _ h _ (mkDoc (take UUID_LEN id) [] :: bucket))
      by (by apply list_lookup_insert_eq).
    rewrite list_insert_insert_eq.
    erewrite update_page_at_insert;
      [|by apply list_lookup_insert_eq|reflexivity].
    rewrite list_insert_insert_eq. unfold upsert_bucket. rewrite Hj. done.
Qed.

Lemma find_page_ref_lookup (c : CacheHandle) (id page_uuid : list byte) :
  is_Some (find_page_ref c id page_uuid) ↔ is_Some (page_lookup c id page_uuid).
Proof.
  unfold page_lookup. split.
  - intros [r Hr]. rewrite Hr. cbn [mbind option_bind].
    revert Hr. unfold find_page_ref, cache_find_document.
    destruct (list_find _ (table c !!! hash_string id)) as [[j doc]|] eqn:Hj;
      [|done].
    cbn [fmap option_fmap option_map mbind option_bind fst snd].
    apply list_find_Some in Hj as (Hdoc & _ & _).
    pose proof (lookup_total_Some _ _ _ _ Hdoc) as Hb.
    unfold deref_doc at 1. cbn [fst snd]. rewrite Hb.
    cbn [mbind option_bind]. rewrite Hdoc. cbn [mbind option_bind].
    unfold cache_find_page.
    destruct (list_find _ (pages doc)) as [[k p]|] eqn:Hk; [|done].
    cbn [fmap option_fmap option_map mbind option_bind fst snd mret option_ret].
    intros [= <-]. apply list_find_Some in Hk as (Hp & _ & _).
    unfold deref, deref_doc. cbn [fst snd]. rewrite Hb.
    cbn [mbind option_bind]. rewrite Hdoc. cbn [mbind option_bind]. eauto.
  - destruct (find_page_ref c id page_uuid); [eauto|].
    cbn [mbind option_bind]. by intros [? ?].
Qed.

Lemma take_all_le {A : Type} (n : nat) (l : list A) :
  (length l ≤ n)%nat → take n l = l.
Proof. intros. by apply take_ge. Qed.

Lemma upsert_lookup (c : CacheHandle) (id page_uuid : list byte)
    (page_num_arg : option (list byte)) (mtime_arg : Z)
    (status : sync_status_t) (id' u' : list byte) :
  length (table c) = HASH_TABLE_SIZE →
  (length id ≤ UUID_LEN)%nat → (length page_uuid ≤ UUID_LEN)%nat →
  page_lookup
    (cache_add_or_update_page c id page_uuid page_num_arg mtime_arg status).2
    id' u'
  = if decide (id' = id ∧ u' = page_uuid)
    then Some (mkPage page_uuid
                 (match page_num_arg with
                  | Some s => take (MAX_PAGE_NUM_LEN - 1) s
                  | None => default [] (page_num <$> page_lookup c id page_uuid)
                  end)
                 mtime_arg (status_code status)
                 (default 0 (retry_count <$> page_lookup c id page_uuid)))
    else page_lookup c id' u'.
Proof.
  intros Hlen Hid Hu.
  pose proof (hash_string_lt id) as Hlt. rewrite <- Hlen in Hlt.
  rewrite upsert_table by done. cbn [snd].
  rewrite !page_lookup_bucket. cbn [table].
  destruct (decide (hash_string id' = hash_string id)) as [Hh|Hh].
  - rewrite Hh, list_lookup_total_insert_eq by done.
    rewrite bucket_lookup_upsert;
      [|done|by intros; apply take_all_le|by intros; apply take_all_le].
    case_decide as Hsame; [|done]. f_equal.
    rewrite (take_all_le _ _ Hu).
    destruct (bucket_lookup _ id page_uuid) as [p|] eqn:Hp; [|done].
    cbn [default fmap option_fmap option_map]. unfold Datatypes.id.
    f_equal. revert Hp. unfold bucket_lookup.
    destruct (list_find _ _) as [[j doc]|]; [|done]. cbn [snd].
    destruct (list_find _ (pages doc)) as [[k q]|] eqn:Hk; [|done].
    intros [= <-]. by apply list_find_Some in Hk as (_ & ? & _).
  - rewrite list_lookup_total_insert_ne by done.
    rewrite decide_False; [done|]. intros [-> _]. done.
Qed.

(** X1. Insert, then look up.  In a cache with its 256 buckets,
    [cache_add_or_update_page] with ids of at most 36 characters stores
    under the pair of ids a page with the given mtime and status and the
    page number cut to 7 characters; a page that was already there keeps its
    retry_count (and its page number when none is passed), a new page starts
    with retry_count 0. *)
Theorem upsert_then_lookup (c : CacheHandle) (id page_uuid : list byte)
    (page_num_arg : option (list byte)) (mtime_arg : Z)
    (status : sync_status_t) :
  length (table c) = HASH_TABLE_SIZE →
  (length id ≤ UUID_LEN)%nat → (length page_uuid ≤ UUID_LEN)%nat →
  page_lookup
    (cache_add_or_update_page c id page_uuid page_num_arg mtime_arg status).2
    id page_uuid
  = Some (mkPage page_uuid
            (match page_num_arg with
             | Some s => take (MAX_PAGE_NUM_LEN - 1) s
             | None => default [] (page_num <$> page_lookup c id page_uuid)
             end)
            mtime_arg (status_code status)
            (default 0 (retry_count <$> page_lookup c id page_uuid))).
Proof.
  intros Hlen Hid Hu. rewrite upsert_lookup by done.
  by rewrite decide_True.
Qed.

(** X2. Frame of an insert.  Under the same conditions, every other pair of
    a document id and a page uuid leads to the same page, or to none, as
    before the call. *)
Theorem upsert_lookup_frame (c : CacheHandle) (id page_uuid : list byte)
    (page_num_arg : option (list byte)) (mtime_arg : Z)
    (status : sync_status_t) (id' u' : list byte) :
  length (table c) = HASH_TABLE_SIZE →
  (length id ≤ UUID_LEN)%nat → (length page_uuid ≤ UUID_LEN)%nat →
  (id', u') ≠ (id, page_uuid) →
  page_lookup
    (cache_add_or_update_page c id page_uuid page_num_arg mtime_arg status).2
    id' u'
  = page_lookup c id' u'.
Proof.
  intros Hlen Hid Hu Hne. rewrite upsert_lookup by done.
  rewrite decide_False; [done|]. intros [-> ->]. done.
Qed.

Lemma bucket_of_documents (c : CacheHandle) (h : nat) (doc : DocumentEntry) :
  doc ∈ table c !!! h → doc ∈ documents c.
Proof.
  intros Hin. unfold documents.
  rewrite list_lookup_total_alt in Hin.
  destruct (table c !! h) as [b|] eqn:Hb.
  - apply list_elem_of_split_length in Hb as (front & back & -> & _).
    rewrite concat_app. cbn [concat]. rewrite !elem_of_app. auto.
  - cbn in Hin. by apply elem_of_nil in Hin.
Qed.

(** X3. An id that does not fit.  A document id of more than 36 characters
    is stored cut to 36 characters and compared in full: in a cache whose
    documents have ids of at most 36 characters, the page just stored under
    such an id is not found under it, and the call has added one more
    document. *)
Theorem upsert_long_id_not_found (c : CacheHandle) (id page_uuid : list byte)
    (page_num_arg : option (list byte)) (mtime_arg : Z)
    (status : sync_status_t) :
  length (table c) = HASH_TABLE_SIZE →
  Forall (λ doc, (length (doc_id doc) ≤ UUID_LEN)%nat) (documents c) →
  (UUID_LEN < length id)%nat →
  let c' :=
    (cache_add_or_update_page c id page_uuid page_num_arg mtime_arg status).2
  in
  page_lookup c' id page_uuid = None
  ∧ length (documents c') = S (length (documents c))
  ∧ Forall (λ doc, (length (doc_id doc) ≤ UUID_LEN)%nat) (documents c').
Proof.
  intros Hlen Hfit Hid c'.
  pose proof (hash_string_lt id) as Hlt. rewrite <- Hlen in Hlt.
  assert (list_find (λ doc, doc_id doc = id) (table c !!! hash_string id)
          = None) as Hnone.
  { apply list_find_None. apply Forall_forall. intros doc Hin Heq.
    apply bucket_of_documents in Hin.
    rewrite Forall_forall in Hfit. specialize (Hfit doc Hin).
    rewrite Heq in Hfit. lia. }
  assert (documents c'
          ≡ₚ mkDoc (take UUID_LEN id) (upsert_pages page_uuid
               (λ page, mkPage (uuid page)
                          (match page_num_arg with
                           | Some s => take (MAX_PAGE_NUM_LEN - 1) s
                           | None => page_num page
                           end)
                          mtime_arg (status_code status) (retry_count page))
               []) :: documents c) as Hperm.
  { subst c'. rewrite upsert_table by done. cbn [snd].
    unfold documents, upsert_bucket. cbn [table]. rewrite Hnone.
    by apply (concat_bucket_push (hash_string id)). }
  split_and!.
  - subst c'. rewrite upsert_table by done. cbn [snd].
    rewrite page_lookup_bucket. cbn [table].
    rewrite list_lookup_total_insert_eq by done.
    unfold upsert_bucket, bucket_lookup. rewrite Hnone.
    rewrite list_find_cons. cbn [doc_id].
    rewrite decide_False.
    + by rewrite Hnone.
    + intros Heq. apply (f_equal length) in Heq.
      rewrite length_take in Heq. lia.
  - by rewrite Hperm.
  - rewrite Hperm. constructor; [|done]. cbn [doc_id].
    rewrite length_take. lia.
Qed.

(** X4. [cache_update_page_status] on the map.  When the pair of ids leads
    to no page the call returns -1 and leaves the cache as it is, not marked
    dirty.  When it leads to a page the call returns 0 and marks the cache
    dirty; the pair then leads to that page with the new status and retry
    count, and every other pair to what it led to before. *)
Theorem update_status_lookup (c : CacheHandle) (id page_uuid : list byte)
    (status : sync_status_t) (retry : Z) :
  match page_lookup c id page_uuid with
  | None => cache_update_page_status c id page_uuid status retry = (-1, c)
  | Some page =>
      let result := cache_update_page_status c id page_uuid status retry in
      result.1 = 0 ∧ dirty result.2 = true ∧ path result.2 = path c
      ∧ ∀ id' u',
          page_lookup result.2 id' u'
          = if decide (id' = id ∧ u' = page_uuid)
            then Some (mkPage (uuid page) (page_num page) (mtime page)
                              (status_code status) retry)
            else page_lookup c id' u'
  end.
Proof.
  destruct (page_lookup c id page_uuid) as [page|] eqn:Hpage.
  - destruct (proj2 (find_page_ref_lookup c id page_uuid)) as [r Hr];
      [by rewrite Hpage|].
    rewrite (update_status_found _ _ _ _ _ _ Hr). cbn [fst snd dirty path].
    split_and!; [done..|]. intros id' u'.
    rewrite (update_found_table _ _ _ _ _ Hr).
    assert (hash_string id < length (table c))%nat as Hlt.
    { revert Hr. unfold find_page_ref, cache_find_document.
      destruct (list_find _ _) as [[j doc]|] eqn:Hj; [|done]. intros _.
      apply list_find_Some in Hj as (Hdoc & _ & _).
      apply lookup_total_Some in Hdoc. by eapply lookup_lt_Some. }
    rewrite page_lookup_bucket in Hpage.
    rewrite !page_lookup_bucket. cbn [table].
    destruct (decide (hash_string id' = hash_string id)) as [Hh|Hh].
    + rewrite Hh, list_lookup_total_insert_eq by done.
      rewrite bucket_lookup_upsert; [|done|..].
      * by rewrite Hpage.
      * intros Hn. revert Hpage. unfold bucket_lookup. by rewrite Hn.
      * intros Hn. by rewrite Hn in Hpage.
    + rewrite list_lookup_total_insert_ne by done.
      rewrite decide_False; [done|]. intros [-> _]. done.
  - unfold cache_update_page_status.
    assert (find_page_ref c id page_uuid = None) as Hr.
    { destruct (find_page_ref c id page_uuid) as [r|] eqn:Hr; [|done].
      destruct (proj1 (find_page_ref_lookup c id page_uuid)) as [p Hp];
        [by rewrite Hr|]. congruence. }
    revert Hr. unfold find_page_ref.
    destruct (cache_find_document c id) as [d|]; [|done].
    cbn [mbind option_bind].
    destruct (deref_doc c d) as [doc|]; [|done].
    cbn [mbind option_bind].
    by destruct (cache_find_page doc page_uuid).
Qed.

Lemma upsert_then_lookup_witness :
  page_lookup
    (cache_add_or_update_page p3_failed_cache doc_a P3 None 200
       SYNC_PENDING).2 doc_a P3
  = Some (mkPage P3
            (default [] (page_num <$> page_lookup p3_failed_cache doc_a P3))
            200 (status_code SYNC_PENDING)
            (default 0 (retry_count <$> page_lookup p3_failed_cache doc_a P3))).
Proof.
  refine (upsert_then_lookup p3_failed_cache doc_a P3 None 200 SYNC_PENDING
            _ _ _).
  - vm_compute. reflexivity.
  - vm_compute. lia.
  - vm_compute. lia.
Defined.

Lemma upsert_lookup_frame_witness :
  page_lookup
    (cache_add_or_update_page five_pending doc_a P3 None 200 SYNC_UPLOADED).2
    doc_b P5
  = page_lookup five_pending doc_b P5.
Proof.
  refine (upsert_lookup_frame five_pending doc_a P3 None 200 SYNC_UPLOADED
            doc_b P5 _ _ _ _).
  - vm_compute. reflexivity.
  - vm_compute. lia.
  - vm_compute. lia.
  - vm_compute. discriminate.
Defined.

Lemma upsert_long_id_not_found_witness :
  let c' :=
    (cache_add_or_update_page p3_cache (doc_a ++ bs "x") P3 None 200
       SYNC_PENDING).2 in
  page_lookup c' (doc_a ++ bs "x") P3 = None
  ∧ length (documents c') = S (length (documents p3_cache))
  ∧ Forall (λ doc, (length (doc_id doc) ≤ UUID_LEN)%nat) (documents c').
Proof.
  refine (upsert_long_id_not_found p3_cache (doc_a ++ bs "x") P3 None 200
            SYNC_PENDING _ _ _).
  - vm_compute. reflexivity.
  - apply (bool_decide_unpack _). vm_compute. exact I.
  - vm_compute. lia.
Defined.

(** ** Reloading *)

Lemma read_header_None (f : stream) :
  (CacheOpen.read_header f).1 = None → bad_header f.
Proof.
  unfold CacheOpen.read_header, bad_header.
  rewrite bind_unfold. unfold fread at 1.
  destruct (decide (4 ≤ length f)%nat) as [H4|H4]; [|left; lia].
  rewrite bind_unfold. unfold check at 1.
  destruct (bool_decide (le_decode (take 4 f) = CACHE_MAGIC)) eqn:Hm;
    [|apply bool_decide_eq_false in Hm; auto].
  rewrite bind_unfold. unfold fread at 1.
  destruct (decide (1 ≤ length (drop 4 f))%nat) as [H1|H1];
    [|rewrite length_drop in H1; left; lia].
  rewrite bind_unfold. unfold check at 1.
  destruct (bool_decide (le_decode (take 1 (drop 4 f)) = CACHE_VERSION)
            || bool_decide (le_decode (take 1 (drop 4 f)) = 1)) eqn:Hv.
  - rewrite bind_unfold. unfold fread at 1.
    destruct (decide (4 ≤ length (drop 1 (drop 4 f)))%nat) as [H9|H9];
      [done|]. rewrite !length_drop in H9. left. lia.
  - apply orb_false_iff in Hv as [?%bool_decide_eq_false ?%bool_decide_eq_false].
    auto.
Qed.

(** X5. The outcomes of [cache_reload].  On a cache with its 256 buckets the
    call returns 0 or -1, and -1 exactly when the file exists and its header
    cannot be read (short, wrong magic, or a version other than 2 and 1).
    Whatever it returns, the pages held in memory before are gone, the
    cache holds only records within the limits of the format, and a return
    of -1 leaves it empty with its dirty flag as it was, a return of 0 not
    dirty. *)
Theorem cache_reload_outcome (fs : filesystem) (c : CacheHandle) :
  length (table c) = HASH_TABLE_SIZE →
  let result := CacheReload.cache_reload fs c in
  (result.1 = 0 ∨ result.1 = -1)
  ∧ (result.1 = -1 ↔ ∃ f, fs !! path c = Some f ∧ bad_header f)
  ∧ cache_wf result.2
  ∧ path result.2 = path c
  ∧ (result.1 = -1 → documents result.2 = [] ∧ dirty result.2 = dirty c)
  ∧ (result.1 = 0 → dirty result.2 = false)
  ∧ (fs !! path c = None → documents result.2 = [])
  ∧ result
    = CacheReload.cache_reload fs
        (mkCache (replicate HASH_TABLE_SIZE []) (dirty c) (path c)).
Proof.
  intros Hlen. cbv zeta.
  assert (cache_wf (mkCache (replicate HASH_TABLE_SIZE []) (dirty c) (path c))
          ∧ cache_wf (mkCache (replicate HASH_TABLE_SIZE []) false (path c)))
    as [Hwf1 Hwf2].
  { unfold cache_wf, documents. cbn [table].
    rewrite concat_replicate_nil, length_replicate.
    split; (split_and!; [done|constructor|done]). }
  unfold CacheReload.cache_reload. cbn [table dirty path].
  rewrite !cleared_replicate, Hlen, length_replicate.
  destruct (fs !! path c) as [f|] eqn:Hf; cbn [fst snd].
  - rewrite read_header_agree.
    destruct (CacheOpen.read_header f) as [[[version n]|] f'] eqn:Hh;
      cbn [fst snd dirty path].
    + split_and!; [by left| |..|done|done|done|done|done].
      * split; [done|]. intros (f0 & [= <-] & Hbad).
        apply read_header_bad in Hbad. by rewrite Hh in Hbad.
      * rewrite read_documents_agree.
        apply read_header_Some in Hh as (_ & _ & _ & _ & -> & _).
        destruct (read_documents_wf
                    (Z.to_nat (le_decode (take 4 (drop 5 f)))) version f'
                    (replicate HASH_TABLE_SIZE []))
          as (H1 & H2 & H3).
        { apply length_replicate. }
        { rewrite concat_replicate_nil. constructor. }
        unfold cache_wf, documents. cbn [table]. split_and!; [done..|].
        rewrite concat_replicate_nil in H3. cbn [length Nat.add] in H3.
        pose proof (le_decode_range (take 4 (drop 5 f))) as Hr.
        assert (length (take 4 (drop 5 f)) ≤ 4)%nat as Hl4
          by (rewrite length_take; lia).
        assert (256 ^ Z.of_nat (length (take 4 (drop 5 f))) ≤ 2 ^ 32) as Hpow.
        { change (2 ^ 32) with (256 ^ Z.of_nat 4).
          apply Z.pow_le_mono_r; lia. }
        lia.
    + split_and!; [by right| |done|done| |done|done|done].
      * split; [|done]. intros _. exists f. split; [done|].
        apply read_header_None. by rewrite Hh.
      * intros _. unfold documents. cbn [table].
        by rewrite concat_replicate_nil.
  - cbn [dirty path]. split_and!; [by left| |done|done|done|done| |done].
    + split; [done|]. by intros (f0 & [=] & _).
    + intros _. unfold documents. cbn [table].
      by rewrite concat_replicate_nil.
Qed.

Lemma cache_reload_outcome_witness :
  let result := CacheReload.cache_reload (<[sample_path := cut_file]> ∅)
                  five_pending in
  (result.1 = 0 ∨ result.1 = -1)
  ∧ (result.1 = -1
     ↔ ∃ f, (<[sample_path := cut_file]> ∅ : filesystem) !! path five_pending
            = Some f ∧ bad_header f)
  ∧ cache_wf result.2
  ∧ path result.2 = path five_pending
  ∧ (result.1 = -1
     → documents result.2 = [] ∧ dirty result.2 = dirty five_pending)
  ∧ (result.1 = 0 → dirty result.2 = false)
  ∧ ((<[sample_path := cut_file]> ∅ : filesystem) !! path five_pending = None
     → documents result.2 = [])
  ∧ result
    = CacheReload.cache_reload (<[sample_path := cut_file]> ∅)
        (mkCache (replicate HASH_TABLE_SIZE []) (dirty five_pending)
                 (path five_pending)).
Proof.
  refine (cache_reload_outcome (<[sample_path := cut_file]> ∅) five_pending _).
  vm_compute. reflexivity.
Defined.

(** ** Full scans of the table *)

Lemma entries_pages_snd (i j k : nat) (chain : list PageEntry) :
  snd <$> entries_pages i j k chain = chain.
Proof.
  revert k. induction chain as [|page rest IH]; intros k; [done|].
  cbn [entries_pages]. csimpl. by rewrite IH.
Qed.

Lemma entries_docs_snd (i j : nat) (chain : list DocumentEntry) :
  snd <$> entries_docs i j chain = chain ≫= pages.
Proof.
  revert j. induction chain as [|doc rest IH]; intros j; [done|].
  cbn [entries_docs]. rewrite fmap_app, entries_pages_snd, IH. done.
Qed.

Lemma entries_table_snd (i : nat) (buckets : list (list DocumentEntry)) :
  snd <$> entries_table i buckets = concat buckets ≫= pages.
Proof.
  revert i. induction buckets as [|bucket rest IH]; intros i; [done|].
  cbn [entries_table concat].
  rewrite fmap_app, entries_docs_snd, IH, bind_app. done.
Qed.

Lemma length_pending_refs (entries : list (PageRef * PageEntry)) :
  length (pending_refs entries)
  = length (filter (λ page, sync_status page = status_code SYNC_PENDING)
                   (snd <$> entries)).
Proof.
  unfold pending_refs. rewrite length_fmap.
  induction entries as [|e rest IH]; [done|].
  rewrite fmap_cons, !filter_cons.
  destruct (decide (sync_status e.2 = status_code SYNC_PENDING));
    cbn [length]; by rewrite IH.
Qed.

(** X6. Pending pages and the pending count.  For a positive limit, the
    number of pointers [cache_get_pending_pages] puts before the first null
    of its array is the smaller of the limit and of
    [cache_count_by_status] for PENDING: the array starts with a null
    exactly when that count is 0. *)
Theorem pending_pages_count (c : CacheHandle) (max_pages : Z) :
  0 < max_pages →
  let found :=
    until_null (default [] (cache_get_pending_pages (Some c) max_pages).1) in
  Z.of_nat (length found)
  = Z.min max_pages (cache_count_by_status c SYNC_PENDING)
  ∧ (found = [] ↔ cache_count_by_status c SYNC_PENDING = 0).
Proof.
  intros Hpos. cbv zeta. unfold cache_get_pending_pages.
  rewrite decide_False by lia. cbn [fst default]. unfold Datatypes.id.
  rewrite until_null_found, pending_in_table_spec. cbn [app length].
  rewrite Nat.sub_0_r.
  unfold cache_count_by_status, documents.
  rewrite <- (entries_table_snd 0), <- length_pending_refs.
  set (refs := pending_refs _).
  split.
  - rewrite length_take. lia.
  - destruct refs as [|r rest]; cbn [length].
    + by rewrite take_nil.
    + destruct (Z.to_nat max_pages) as [|n] eqn:Hn; [lia|].
      cbn [take]. split; [done|lia].
Qed.

Lemma pending_pages_count_witness :
  let found :=
    until_null (default [] (cache_get_pending_pages (Some five_pending) 2).1) in
  Z.of_nat (length found)
  = Z.min 2 (cache_count_by_status five_pending SYNC_PENDING)
  ∧ (found = [] ↔ cache_count_by_status five_pending SYNC_PENDING = 0).
Proof. refine (pending_pages_count five_pending 2 _). lia. Defined.

Lemma documents_deref_doc (c : CacheHandle) (doc : DocumentEntry) :
  doc ∈ documents c ↔ ∃ d, deref_doc c d = Some doc.
Proof.
  unfold documents, deref_doc. split.
  - intros Hin. induction (table c) as [|bucket rest IH] using rev_ind.
    + by apply elem_of_nil in Hin.
    + rewrite concat_app in Hin. cbn [concat] in Hin.
      rewrite app_nil_r in Hin. apply elem_of_app in Hin as [Hin|Hin].
      * destruct (IH Hin) as [d Hd]. exists d.
        destruct (rest !! d.1) as [b|] eqn:Hb; [|done].
        by rewrite (lookup_app_l_Some _ _ _ _ Hb).
      * apply list_elem_of_lookup in Hin as [j Hj].
        exists (length rest, j). cbn [fst snd].
        by rewrite list_lookup_middle.
  - intros [d Hd]. destruct (table c !! d.1) as [b|] eqn:Hb; [|done].
    cbn [mbind option_bind] in Hd.
    apply list_elem_of_split_length in Hb as (front & back & -> & _).
    rewrite concat_app. cbn [concat]. rewrite !elem_of_app.
    right. left. by eapply list_elem_of_lookup_2.
Qed.

(** X7. [cache_get_document_for_page] is sound and complete.  When it
    returns an id, a document of the table has that id and a page with the
    uuid asked for; when it returns null, no page of the table has that
    uuid.  So for the uuid of a page that a pointer into the table
    reaches, it never returns null. *)
Theorem document_for_page_spec (c : CacheHandle) (page_uuid : list byte) :
  match cache_get_document_for_page c page_uuid with
  | Some id =>
      ∃ d doc k page,
        deref_doc c d = Some doc ∧ doc_id doc = id
        ∧ deref c (d, k) = Some page ∧ uuid page = page_uuid
  | None => ∀ r page, deref c r = Some page → uuid page ≠ page_uuid
  end.
Proof.
  unfold cache_get_document_for_page.
  destruct (list_find _ (documents c)) as [[i doc]|] eqn:Hfind;
    cbn [fmap option_fmap option_map snd].
  - apply list_find_Some in Hfind as (Hdoc & Hex & _).
    apply list_elem_of_lookup_2, documents_deref_doc in Hdoc as [d Hd].
    apply Exists_exists in Hex as (page & Hin & Hu).
    apply list_elem_of_lookup in Hin as [k Hk].
    exists d, doc, k, page. split_and!; [done..| |done].
    unfold deref. cbn [fst snd]. by rewrite Hd.
  - intros [d k] page Hr Hu. unfold deref in Hr. cbn [fst snd] in Hr.
    destruct (deref_doc c d) as [doc|] eqn:Hd; [|done].
    cbn [mbind option_bind] in Hr.
    assert (doc ∈ documents c) as Hin by (apply documents_deref_doc; eauto).
    rewrite list_find_None, Forall_forall in Hfind.
    apply (Hfind doc Hin). apply Exists_exists. exists page.
    split; [|done]. by eapply list_elem_of_lookup_2.
Qed.

(** ** Chains without shadowing *)

Lemma chained_bucket (c : CacheHandle) (h : nat) :
  chained c → bucket_ok h (table c !!! h).
Proof.
  intros [Hlen Hok]. destruct (decide (h < HASH_TABLE_SIZE)%nat) as [Hlt|Hge].
  - rewrite Forall_forall in Hok. apply Hok. apply elem_of_seq. lia.
  - rewrite list_lookup_total_alt, lookup_ge_None_2 by lia.
    split; constructor.
Qed.

Lemma chained_intro (c : CacheHandle) :
  length (table c) = HASH_TABLE_SIZE →
  (∀ h, (h < HASH_TABLE_SIZE)%nat → bucket_ok h (table c !!! h)) →
  chained c.
Proof.
  intros Hlen Hok. split; [done|]. apply Forall_forall.
  intros h Hh%elem_of_seq. apply Hok. lia.
Qed.

Lemma fmap_alter_same {A B : Type} (g : A → B) (f : A → A) (i : nat)
    (l : list A) :
  (∀ x, g (f x) = g x) → g <$> alter f i l = g <$> l.
Proof.
  intros Hg. revert i. induction l as [|x l IH]; intros [|i]; [done..| |].
  - assert (alter f O (x :: l) = f x :: l) as -> by reflexivity.
    by rewrite !fmap_cons, Hg.
  - assert (alter f (S i) (x :: l) = x :: alter f i l) as -> by reflexivity.
    by rewrite !fmap_cons, IH.
Qed.

Lemma list_find_None_not_in {A : Type} `{EqDecision B} (g : A → B) (b : B)
    (l : list A) :
  list_find (λ x, g x = b) l = None → b ∉ g <$> l.
Proof.
  rewrite list_find_None, Forall_forall.
  intros Hall (x & -> & Hin)%list_elem_of_fmap. by apply (Hall x).
Qed.

Lemma NoDup_upsert_pages (page_uuid : list byte) (f : PageEntry → PageEntry)
    (chain : list PageEntry) :
  (∀ page, uuid (f page) = uuid page) →
  (list_find (λ page, uuid page = page_uuid) chain = None →
   take UUID_LEN page_uuid = page_uuid) →
  NoDup (uuid <$> chain) → NoDup (uuid <$> upsert_pages page_uuid f chain).
Proof.
  intros Hf Hu Hnd. unfold upsert_pages.
  destruct (list_find _ chain) as [[k p]|] eqn:Hk.
  - by rewrite fmap_alter_same.
  - rewrite fmap_cons, Hf. cbn [uuid]. rewrite (Hu eq_refl).
    constructor; [|done]. by apply list_find_None_not_in.
Qed.

Lemma bucket_ok_upsert (h : nat) (id page_uuid : list byte)
    (f : PageEntry → PageEntry) (bucket : list DocumentEntry) :
  (∀ page, uuid (f page) = uuid page) →
  hash_string id = h →
  (list_find (λ doc, doc_id doc = id) bucket = None → take UUID_LEN id = id) →
  (bucket_lookup bucket id page_uuid = None →
   take UUID_LEN page_uuid = page_uuid) →
  bucket_ok h bucket → bucket_ok h (upsert_bucket id page_uuid f bucket).
Proof.
  intros Hf Hh Hid Hu [Hall Hnd]. unfold upsert_bucket, bucket_lookup in *.
  destruct (list_find _ bucket) as [[j doc]|] eqn:Hj.
  - cbn [fst snd] in *. split.
    + apply Forall_alter; [done|]. intros doc' Hdoc' [Hhash Hpages].
      cbn [doc_id pages]. split; [done|].
      apply NoDup_upsert_pages; [done| |done].
      apply list_find_Some in Hj as (Hdoc & _ & _).
      assert (doc' = doc) as -> by congruence.
      intros Hn. apply Hu. by rewrite Hn.
    + by rewrite fmap_alter_same.
  - specialize (Hid eq_refl). specialize (Hu eq_refl). split.
    + constructor; [|done]. cbn [doc_id pages]. rewrite Hid.
      split; [done|]. apply NoDup_upsert_pages; [done..|constructor].
    + rewrite fmap_cons. cbn [doc_id]. rewrite Hid.
      constructor; [|done]. by apply list_find_None_not_in.
Qed.

Lemma chained_insert_bucket (c : CacheHandle) (h : nat)
    (bucket : list DocumentEntry) (flag : bool) (p : list byte) :
  chained c → bucket_ok h bucket →
  chained (mkCache (<[h := bucket]> (table c)) flag p).
Proof.
  intros Hc Hb. apply chained_intro; cbn [table].
  - rewrite length_insert. apply Hc.
  - intros h' Hh'. destruct (decide (h' = h)) as [->|Hne].
    + rewrite list_lookup_total_insert_eq; [done|].
      destruct Hc as [-> _]. done.
    + rewrite list_lookup_total_insert_ne by done. by apply chained_bucket.
Qed.

Lemma chained_upsert (c : CacheHandle) (id page_uuid : list byte)
    (page_num_arg : option (list byte)) (mtime_arg : Z)
    (status : sync_status_t) :
  chained c →
  (length id ≤ UUID_LEN)%nat → (length page_uuid ≤ UUID_LEN)%nat →
  chained
    (cache_add_or_update_page c id page_uuid page_num_arg mtime_arg status).2.
Proof.
  intros Hc Hid Hu.
  pose proof (hash_string_lt id) as Hlt.
  rewrite upsert_table by (by destruct Hc as [-> _]). cbn [snd].
  apply chained_insert_bucket; [done|].
  apply bucket_ok_upsert;
    [done|done|by intros; apply take_all_le|by intros; apply take_all_le|].
  by apply chained_bucket.
Qed.

Lemma chained_update_status (c : CacheHandle) (id page_uuid : list byte)
    (status : sync_status_t) (retry : Z) :
  chained c →
  chained (cache_update_page_status c id page_uuid status retry).2.
Proof.
  intros Hc.
  destruct (find_page_ref c id page_uuid) as [r|] eqn:Hr.
  - rewrite (update_status_found _ _ _ _ _ _ Hr). cbn [snd].
    rewrite (update_found_table _ _ _ _ _ Hr).
    apply chained_insert_bucket; [done|].
    assert (is_Some (page_lookup c id page_uuid)) as [p Hp]
      by (apply find_page_ref_lookup; eauto).
    rewrite page_lookup_bucket in Hp.
    apply bucket_ok_upsert; [done|done| | |by apply chained_bucket].
    + intros Hn. revert Hp. unfold bucket_lookup. by rewrite Hn.
    + intros Hn. by rewrite Hn in Hp.
  - revert Hr. unfold cache_update_page_status, find_page_ref.
    destruct (cache_find_document c id) as [d|]; [|done].
    cbn [mbind option_bind].
    destruct (deref_doc c d) as [doc|]; [|done].
    cbn [mbind option_bind].
    by destruct (cache_find_page doc page_uuid).
Qed.

Lemma chained_empty (flag : bool) (p : list byte) :
  chained (mkCache (replicate HASH_TABLE_SIZE []) flag p).
Proof.
  apply chained_intro; cbn [table].
  - apply length_replicate.
  - intros h Hh. rewrite list_lookup_total_alt, lookup_replicate_2 by done.
    split; constructor.
Qed.

Lemma found_in_place (c : CacheHandle) (d : DocRef) (k : nat)
    (doc : DocumentEntry) (page : PageEntry) :
  chained c →
  deref_doc c d = Some doc → pages doc !! k = Some page →
  cache_find_document c (doc_id doc) = Some d
  ∧ cache_find_page doc (uuid page) = Some k
  ∧ page_lookup c (doc_id doc) (uuid page) = Some page.
Proof.
  intros Hc Hd Hk. destruct d as [h j]. unfold deref_doc in Hd.
  cbn [fst snd] in Hd.
  destruct (table c !! h) as [bucket|] eqn:Hb; [|done].
  cbn [mbind option_bind] in Hd.
  assert (table c !!! h = bucket) as Hbt
    by (by rewrite list_lookup_total_alt, Hb).
  pose proof (chained_bucket c h Hc) as [Hall Hnd]. rewrite Hbt in Hall, Hnd.
  assert (hash_string (doc_id doc) = h ∧ NoDup (uuid <$> pages doc))
    as [Hh Hpages].
  { rewrite Forall_forall in Hall. apply Hall.
    by eapply list_elem_of_lookup_2. }
  assert (list_find (λ doc0, doc_id doc0 = doc_id doc) bucket = Some (j, doc))
    as Hfind.
  { apply list_find_Some. split_and!; [done..|].
    intros i doc' Hi Hlt Heq.
    assert (i = j); [|lia].
    eapply (NoDup_lookup (doc_id <$> bucket)); [done|..].
    - rewrite list_lookup_fmap, Hi. cbn. by rewrite Heq.
    - by rewrite list_lookup_fmap, Hd. }
  assert (list_find (λ q, uuid q = uuid page) (pages doc) = Some (k, page))
    as Hfindp.
  { apply list_find_Some. split_and!; [done..|].
    intros i q Hi Hlt Heq.
    assert (i = k); [|lia].
    eapply (NoDup_lookup (uuid <$> pages doc)); [done|..].
    - rewrite list_lookup_fmap, Hi. cbn. by rewrite Heq.
    - by rewrite list_lookup_fmap, Hk. }
  split_and!.
  - unfold cache_find_document. rewrite Hh, Hbt, Hfind. done.
  - unfold cache_find_page. by rewrite Hfindp.
  - rewrite page_lookup_bucket, Hh, Hbt. unfold bucket_lookup.
    rewrite Hfind. cbn [snd]. by rewrite Hfindp.
Qed.

(** X8. Every record is found where it is.  In a cache whose chains have
    no shadowing, the document a pointer reaches is the one
    [cache_find_document] returns for its id, and a page of it is the one
    [cache_find_page] returns for its uuid. *)
Theorem records_found_in_place (c : CacheHandle) (d : DocRef) (k : nat)
    (doc : DocumentEntry) (page : PageEntry) :
  chained c →
  deref_doc c d = Some doc → pages doc !! k = Some page →
  cache_find_document c (doc_id doc) = Some d
  ∧ cache_find_page doc (uuid page) = Some k
  ∧ page_lookup c (doc_id doc) (uuid page) = Some page.
Proof. apply found_in_place. Qed.

Lemma records_found_in_place_witness :
  cache_find_document five_pending (doc_id (mkDoc doc_a [
      mkPage P3 (bs "3") 100 0 0; mkPage P2 (bs "2") 100 0 0;
      mkPage P1 (bs "1") 100 0 0]))
  = Some (hash_string doc_a, 1%nat)
  ∧ cache_find_page (mkDoc doc_a [
      mkPage P3 (bs "3") 100 0 0; mkPage P2 (bs "2") 100 0 0;
      mkPage P1 (bs "1") 100 0 0]) (uuid (mkPage P2 (bs "2") 100 0 0))
    = Some 1%nat
  ∧ page_lookup five_pending (doc_id (mkDoc doc_a [
      mkPage P3 (bs "3") 100 0 0; mkPage P2 (bs "2") 100 0 0;
      mkPage P1 (bs "1") 100 0 0])) (uuid (mkPage P2 (bs "2") 100 0 0))
    = Some (mkPage P2 (bs "2") 100 0 0).
Proof.
  refine (records_found_in_place five_pending (hash_string doc_a, 1%nat)
            1%nat _ _ _ _ _).
  - apply (bool_decide_unpack _). vm_compute. exact I.
  - vm_compute. reflexivity.
  - vm_compute. reflexivity.
Defined.

(** X9. The cache keeps its chains free of shadowing.  Started from the
    cache [cache_open] returns when there is no file, or from any cache
    without shadowing, any run of [cache_add_or_update_page] with ids of at
    most 36 characters and of [cache_update_page_status] ends in a cache
    without shadowing. *)
Theorem chained_kept (fs : filesystem) (path_arg : list byte)
    (c : CacheHandle) (ops : list cache_op) :
  (fs !! path_arg = None ∧ c = CacheOpen.cache_open fs path_arg) ∨ chained c →
  Forall op_fits ops →
  chained (foldl apply_op c ops).
Proof.
  intros Hstart Hops.
  assert (chained c) as Hc.
  { destruct Hstart as [[Hnone ->]|?]; [|done].
    unfold CacheOpen.cache_open. rewrite Hnone. apply chained_empty. }
  clear Hstart. revert c Hc.
  induction Hops as [|op ops Hop Hops IH]; intros c Hc; [done|].
  cbn [foldl]. apply IH. destruct op as [id u pn mt st|id u st rc].
  - destruct Hop. by apply chained_upsert.
  - by apply chained_update_status.
Qed.

(** The cache a process starts with when there is no file, after an insert
    and a status update. *)
Lemma chained_kept_witness :
  chained (foldl apply_op (CacheOpen.cache_open ∅ sample_path)
             [AddOrUpdatePage doc_a P3 (Some (bs "1")) 100 SYNC_PENDING;
              UpdatePageStatus doc_a P3 SYNC_FAILED 3]).
Proof.
  refine (chained_kept ∅ sample_path (CacheOpen.cache_open ∅ sample_path)
            _ _ _).
  - left. split; reflexivity.
  - apply (bool_decide_unpack _). vm_compute. exact I.
Defined.

(** ** The saved file, read back *)

Lemma NoDup_fmap_eq {A B : Type} (g : A → B) (l : list A) (x y : A) :
  NoDup (g <$> l) → x ∈ l → y ∈ l → g x = g y → x = y.
Proof.
  intros Hnd [i Hi]%list_elem_of_lookup [j Hj]%list_elem_of_lookup Heq.
  assert (i = j) as ->; [|congruence].
  eapply (NoDup_lookup (g <$> l)); [done|..].
  - by rewrite list_lookup_fmap, Hi.
  - rewrite list_lookup_fmap, Hj. cbn. by rewrite Heq.
Qed.

Lemma list_find_reverse {A : Type} `{EqDecision B} (g : A → B) (v : B)
    (l : list A) :
  NoDup (g <$> l) →
  snd <$> list_find (λ x, g x = v) (reverse l)
  = snd <$> list_find (λ x, g x = v) l.
Proof.
  intros Hnd.
  destruct (list_find (λ x, g x = v) l) as [[j x]|] eqn:Hl.
  - apply list_find_Some in Hl as (Hx & Hv & _).
    apply list_elem_of_lookup_2 in Hx.
    destruct (list_find (λ x, g x = v) (reverse l)) as [[j' x']|] eqn:Hr.
    + apply list_find_Some in Hr as (Hx' & Hv' & _).
      apply list_elem_of_lookup_2 in Hx'. rewrite elem_of_reverse in Hx'.
      cbn. f_equal. apply (NoDup_fmap_eq g l); [done..|congruence].
    + rewrite list_find_None, Forall_forall in Hr.
      destruct (Hr x); [by apply elem_of_reverse|done].
  - destruct (list_find (λ x, g x = v) (reverse l)) as [[j' x']|] eqn:Hr;
      [|done].
    apply list_find_Some in Hr as (Hx' & Hv' & _).
    apply list_elem_of_lookup_2 in Hx'. rewrite elem_of_reverse in Hx'.
    rewrite list_find_None, Forall_forall in Hl. by destruct (Hl x').
Qed.

Lemma bucket_ok_reverse (h : nat) (bucket : list DocumentEntry) :
  bucket_ok h bucket → bucket_ok h (reverse bucket).
Proof.
  intros [Hall Hnd]. split.
  - by apply Forall_reverse.
  - by rewrite fmap_reverse, reverse_Permutation.
Qed.

Lemma bucket_lookup_reverse (h : nat) (bucket : list DocumentEntry)
    (id page_uuid : list byte) :
  bucket_ok h bucket →
  bucket_lookup (reverse bucket) id page_uuid
  = bucket_lookup bucket id page_uuid.
Proof.
  intros [_ Hnd]. unfold bucket_lookup.
  pose proof (list_find_reverse doc_id id bucket Hnd) as Hfind.
  destruct (list_find _ (reverse bucket)) as [[j' doc']|],
           (list_find _ bucket) as [[j doc]|]; try done.
  cbn in Hfind. injection Hfind as ->. done.
Qed.

Lemma lookup_total_reverse (tbl : list (list DocumentEntry)) (h : nat) :
  (reverse <$> tbl) !!! h = reverse (tbl !!! h).
Proof.
  rewrite !list_lookup_total_alt, list_lookup_fmap.
  by destruct (tbl !! h).
Qed.

Lemma reload_saved (fs : filesystem) (c reader_cache : CacheHandle) :
  cache_wf c → chained c →
  path reader_cache = path c →
  length (table reader_cache) = HASH_TABLE_SIZE →
  CacheReload.cache_reload (<[path c := encode_cache c]> fs) reader_cache
  = (0, mkCache (reverse <$> table c) false (path c)).
Proof.
  intros (Hlen & Hwf & Hn) Hc Hpath Hlen2.
  destruct (load_encoded c (replicate HASH_TABLE_SIZE []) Hwf Hn)
    as (f' & Hhead & Hdocs).
  unfold CacheReload.cache_reload. rewrite Hpath, lookup_insert_eq.
  rewrite Hhead, cleared_replicate, Hlen2, Hdocs. do 2 f_equal.
  unfold documents. rewrite <- Hlen.
  apply (fold_insert_table [] (table c)). intros j b Hb.
  pose proof (chained_bucket c j Hc) as [Hall _].
  rewrite list_lookup_total_alt, Hb in Hall. cbn in Hall.
  eapply Forall_impl; [done|]. by intros doc [? _].
Qed.

(** X10. What one process saves, another reads back.  When a cache within
    the limits of the format and without shadowing is saved (it is dirty,
    and the temporary file can be opened and renamed), [cache_reload] on any
    handle for the same path returns 0 and every pair of a document id and a
    page uuid leads to the same page as in the cache that was saved; the
    reloaded cache is not dirty and again without shadowing. *)
Theorem saved_cache_read_back (io : io_env) (fs : filesystem)
    (c reader_cache : CacheHandle) :
  cache_wf c → chained c →
  dirty c = true →
  fopen_wb_ok io (temp_path c) = true →
  rename_ok io (temp_path c) (path c) = true →
  path reader_cache = path c →
  length (table reader_cache) = HASH_TABLE_SIZE →
  let saved := cache_save io fs c in
  let reloaded := CacheReload.cache_reload saved.1.2 reader_cache in
  saved.1.1 = 0
  ∧ reloaded.1 = 0
  ∧ dirty reloaded.2 = false
  ∧ chained reloaded.2
  ∧ ∀ id page_uuid,
      page_lookup reloaded.2 id page_uuid = page_lookup c id page_uuid.
Proof.
  intros Hwf Hc Hd Hopen Hren Hpath Hlen. cbv zeta.
  unfold cache_save. rewrite Hd, Hopen, Hren. cbn [negb fst snd].
  rewrite reload_saved by done. cbn [fst snd dirty].
  split_and!; [done..| |].
  - apply chained_intro; cbn [table].
    + rewrite length_fmap. apply Hc.
    + intros h _. rewrite lookup_total_reverse.
      by apply bucket_ok_reverse, chained_bucket.
  - intros id u. rewrite !page_lookup_bucket. cbn [table].
    rewrite lookup_total_reverse.
    eapply bucket_lookup_reverse. by apply chained_bucket.
Qed.

Lemma saved_cache_read_back_witness :
  let saved := cache_save io_ok ∅ five_pending in
  let reloaded := CacheReload.cache_reload saved.1.2 fresh_cache in
  saved.1.1 = 0
  ∧ reloaded.1 = 0
  ∧ dirty reloaded.2 = false
  ∧ chained reloaded.2
  ∧ ∀ id page_uuid,
      page_lookup reloaded.2 id page_uuid
      = page_lookup five_pending id page_uuid.
Proof.
  refine (saved_cache_read_back io_ok ∅ five_pending fresh_cache
            _ _ _ _ _ _ _).
  - apply (bool_decide_unpack _). vm_compute. exact I.
  - apply (bool_decide_unpack _). vm_compute. exact I.
  - reflexivity.
  - reflexivity.
  - reflexivity.
  - vm_compute. reflexivity.
  - vm_compute. reflexivity.
Defined.

(** ** watcher.c: the scan of a document directory *)

Lemma length_table_upsert (c : CacheHandle) (id page_uuid : list byte)
    (page_num_arg : option (list byte)) (mtime_arg : Z)
    (status : sync_status_t) :
  length (table c) = HASH_TABLE_SIZE →
  length (table (cache_add_or_update_page c id page_uuid page_num_arg
                   mtime_arg status).2) = HASH_TABLE_SIZE.
Proof.
  intros Hlen. pose proof (hash_string_lt id) as Hlt.
  rewrite upsert_table by (by rewrite Hlen). cbn [snd table].
  by rewrite length_insert.
Qed.

Lemma scan_page_lookup (id : list byte) (st : Z * CacheHandle) (file : rm_file)
    (id' u' : list byte) :
  length (table st.2) = HASH_TABLE_SIZE →
  (length id ≤ UUID_LEN)%nat → (length (rm_uuid file) ≤ UUID_LEN)%nat →
  page_lookup (scan_page id st file).2 id' u'
  = if decide (id' = id ∧ u' = rm_uuid file)
    then Some (scanned_page file (page_lookup st.2 id (rm_uuid file)))
    else page_lookup st.2 id' u'.
Proof.
  intros Hlen Hid Hu. rewrite scan_page_rearm_branch_dead.
  fold (page_lookup st.2 id (rm_uuid file)). unfold scanned_page.
  destruct (page_lookup st.2 id (rm_uuid file)) as [p|] eqn:Hp.
  - destruct (bool_decide (mtime p < st_mtime file)) eqn:Hnew.
    + cbn [snd]. rewrite upsert_lookup, Hp by done. reflexivity.
    + destruct (decide (id' = id ∧ u' = rm_uuid file)) as [[-> ->]|]; done.
  - cbn [snd]. rewrite upsert_lookup, Hp by done. reflexivity.
Qed.

Lemma scan_page_length (id : list byte) (st : Z * CacheHandle) (file : rm_file) :
  length (table st.2) = HASH_TABLE_SIZE →
  length (table (scan_page id st file).2) = HASH_TABLE_SIZE.
Proof.
  intros Hlen. rewrite scan_page_rearm_branch_dead.
  destruct (_ ≫= _) as [p|]; [destruct (bool_decide _)|]; cbn [snd];
    try done; by apply length_table_upsert.
Qed.

Lemma dirty_upsert (c : CacheHandle) (id page_uuid : list byte)
    (page_num_arg : option (list byte)) (mtime_arg : Z)
    (status : sync_status_t) :
  dirty (cache_add_or_update_page c id page_uuid page_num_arg mtime_arg
           status).2 = true
  ∧ path (cache_add_or_update_page c id page_uuid page_num_arg mtime_arg
            status).2 = path c.
Proof.
  unfold cache_add_or_update_page.
  destruct (ensure_document id (table c)) as [d tbl1].
  by destruct (ensure_page d page_uuid tbl1) as [r tbl2].
Qed.

Lemma scan_page_count (id : list byte) (st : Z * CacheHandle) (file : rm_file) :
  (scan_page id st file = st
   ∨ ((scan_page id st file).1 = st.1 + 1
      ∧ dirty (scan_page id st file).2 = true)).
Proof.
  rewrite scan_page_rearm_branch_dead.
  destruct (_ ≫= _) as [p|]; [destruct (bool_decide _)|]; cbn [fst snd];
    auto; right; (split; [done|apply dirty_upsert]).
Qed.

Lemma scanned_page_mtime (file : rm_file) (old : option PageEntry) :
  st_mtime file ≤ mtime (scanned_page file old)
  ∧ ∀ p, old = Some p → mtime p ≤ mtime (scanned_page file old).
Proof.
  unfold scanned_page. destruct old as [p|].
  - destruct (bool_decide (mtime p < st_mtime file)) eqn:Hnew; cbn [mtime].
    + apply bool_decide_eq_true in Hnew. split; [lia|].
      intros ? [= <-]. lia.
    + apply bool_decide_eq_false in Hnew. split; [lia|].
      intros ? [= <-]. lia.
  - cbn [mtime]. split; [lia|]. by intros ? [=].
Qed.

Lemma scan_fold (id : list byte) (files : list rm_file) (st : Z * CacheHandle) :
  length (table st.2) = HASH_TABLE_SIZE →
  (length id ≤ UUID_LEN)%nat →
  Forall (λ file, (length (rm_uuid file) ≤ UUID_LEN)%nat) files →
  let result := fold_left (scan_page id) files st in
  length (table result.2) = HASH_TABLE_SIZE
  ∧ (∀ file, file ∈ files →
       ∃ p, page_lookup result.2 id (rm_uuid file) = Some p
            ∧ st_mtime file ≤ mtime p)
  ∧ (∀ u p, page_lookup st.2 id u = Some p →
       ∃ p', page_lookup result.2 id u = Some p' ∧ mtime p ≤ mtime p')
  ∧ (∀ id' u', (id' = id → u' ∉ rm_uuid <$> files) →
       page_lookup result.2 id' u' = page_lookup st.2 id' u')
  ∧ (st.1 ≤ result.1 ≤ st.1 + Z.of_nat (length files))
  ∧ (result.1 = st.1 → result = st)
  ∧ (st.1 < result.1 → dirty result.2 = true).
Proof.
  intros Hlen Hid Hfiles. revert st Hlen.
  induction Hfiles as [|file files Hu Hfiles IH]; intros st Hlen; cbv zeta.
  - cbn [fold_left length]. split_and!; try done; try lia.
    + by intros file ?%elem_of_nil.
    + intros u p Hp. exists p. split; [done|lia].
  - cbn [fold_left].
    pose proof (scan_page_length id st file Hlen) as Hlen1.
    destruct (IH _ Hlen1) as (H1 & H2 & H3 & H4 & H5 & H6 & H7).
    pose proof (scan_page_lookup id st file) as Hstep.
    pose proof (scanned_page_mtime file (page_lookup st.2 id (rm_uuid file)))
      as [Hm1 Hm2].
    split_and!.
    + done.
    + intros file' [->|Hin]%elem_of_cons; [|by apply H2].
      destruct (H3 (rm_uuid file)
                  (scanned_page file (page_lookup st.2 id (rm_uuid file))))
        as (p' & Hp' & Hle); [by rewrite Hstep, decide_True|].
      exists p'. split; [done|lia].
    + intros u p Hp.
      destruct (decide (u = rm_uuid file)) as [->|Hne].
      * destruct (H3 (rm_uuid file)
                    (scanned_page file (page_lookup st.2 id (rm_uuid file))))
          as (p' & Hp' & Hle); [by rewrite Hstep, decide_True|].
        exists p'. split; [done|]. specialize (Hm2 p Hp). lia.
      * apply H3. rewrite Hstep by done.
        by rewrite decide_False by (intros [_ ?]; done).
    + intros id' u' Hout. rewrite H4.
      * rewrite Hstep by done. rewrite decide_False; [done|].
        intros [-> ->]. apply (Hout eq_refl). rewrite fmap_cons. by left.
      * intros ->. specialize (Hout eq_refl). rewrite fmap_cons in Hout.
        by apply not_elem_of_cons in Hout as [_ ?].
    + destruct (scan_page_count id st file) as [Heq|[Heq _]].
      * rewrite Heq in H5 |- *. lia.
      * rewrite Heq in H5. lia.
    + destruct (scan_page_count id st file) as [Heq|[Heq _]].
      * rewrite Heq in H5 |- *. cbn [length]. lia.
      * rewrite Heq in H5. cbn [length]. lia.
    + intros Hsame.
      destruct (scan_page_count id st file) as [Heq|[Heq _]].
      * rewrite Heq in H6, Hsame |- *. by apply H6.
      * rewrite Heq in H5. lia.
    + intros Hmore.
      destruct (scan_page_count id st file) as [Heq|[Heq Hd]].
      * rewrite Heq in H7, Hmore |- *. by apply H7.
      * destruct (decide ((scan_page id st file).1
                          < (fold_left (scan_page id) files
                               (scan_page id st file)).1)) as [Hlt|Hge].
        -- by apply H7.
        -- rewrite H6 by lia. done.
Qed.

(** X11. What a scan leaves in the cache.  After [scan_document_pages] on
    a directory that can be opened, every file of the directory has a page
    under the document id and its own uuid, with a modification time not
    older than the file's; no page of the document has an older
    modification time than before; pages the directory does not name, and
    the pages of other documents, are as before.  The number returned is
    between 0 and the number of files; when it is 0 the cache is unchanged,
    otherwise the cache is dirty.  (Ids of at most 36 characters, a
    cache with its 256 buckets.) *)
Theorem scan_records_directory (c : CacheHandle) (id : list byte)
    (files : list rm_file) :
  length (table c) = HASH_TABLE_SIZE →
  (length id ≤ UUID_LEN)%nat →
  Forall (λ file, (length (rm_uuid file) ≤ UUID_LEN)%nat) files →
  let result := scan_document_pages c id (Some files) in
  (∀ file, file ∈ files →
     ∃ p, page_lookup result.2 id (rm_uuid file) = Some p
          ∧ st_mtime file ≤ mtime p)
  ∧ (∀ u p, page_lookup c id u = Some p →
       ∃ p', page_lookup result.2 id u = Some p' ∧ mtime p ≤ mtime p')
  ∧ (∀ id' u', (id' = id → u' ∉ rm_uuid <$> files) →
       page_lookup result.2 id' u' = page_lookup c id' u')
  ∧ (0 ≤ result.1 ≤ Z.of_nat (length files))
  ∧ (result.1 = 0 → result.2 = c)
  ∧ (0 < result.1 → dirty result.2 = true).
Proof.
  intros Hlen Hid Hfiles. cbv zeta. unfold scan_document_pages.
  destruct (scan_fold id files (0, c) Hlen Hid Hfiles)
    as (_ & H2 & H3 & H4 & H5 & H6 & H7).
  cbn [fst snd] in *. split_and!; [done|done|done|lia|lia| |done].
  intros H0. by rewrite (H6 H0).
Qed.

Lemma scan_records_directory_witness :
  let result :=
    scan_document_pages p3_uploaded_cache doc_a
      (Some [p3_modified; mkRm P4 (bs "2") 150]) in
  (∀ file, file ∈ [p3_modified; mkRm P4 (bs "2") 150] →
     ∃ p, page_lookup result.2 doc_a (rm_uuid file) = Some p
          ∧ st_mtime file ≤ mtime p)
  ∧ (∀ u p, page_lookup p3_uploaded_cache doc_a u = Some p →
       ∃ p', page_lookup result.2 doc_a u = Some p' ∧ mtime p ≤ mtime p')
  ∧ (∀ id' u',
       (id' = doc_a
        → u' ∉ rm_uuid <$> [p3_modified; mkRm P4 (bs "2") 150]) →
       page_lookup result.2 id' u' = page_lookup p3_uploaded_cache id' u')
  ∧ (0 ≤ result.1
     ≤ Z.of_nat (length [p3_modified; mkRm P4 (bs "2") 150]))
  ∧ (result.1 = 0 → result.2 = p3_uploaded_cache)
  ∧ (0 < result.1 → dirty result.2 = true).
Proof.
  refine (scan_records_directory p3_uploaded_cache doc_a
            [p3_modified; mkRm P4 (bs "2") 150] _ _ _).
  - vm_compute. reflexivity.
  - vm_compute. lia.
  - apply (bool_decide_unpack _). vm_compute. exact I.
Defined.

Lemma scan_noop (id : list byte) (files : list rm_file) (st : Z * CacheHandle) :
  (∀ file, file ∈ files →
     ∃ p, page_lookup st.2 id (rm_uuid file) = Some p
          ∧ st_mtime file ≤ mtime p) →
  fold_left (scan_page id) files st = st.
Proof.
  induction files as [|file files IH]; intros Hall; [done|].
  cbn [fold_left].
  assert (scan_page id st file = st) as ->.
  { destruct (Hall file) as (p & Hp & Hle); [by left|].
    rewrite scan_page_rearm_branch_dead.
    fold (page_lookup st.2 id (rm_uuid file)). rewrite Hp.
    by rewrite bool_decide_false by lia. }
  apply IH. intros file' Hin. apply Hall. by right.
Qed.

(** X12. A second scan finds nothing to do.  Scanning the same directory
    again, with no file changed in between, returns 0 and leaves the cache
    as the first scan left it. *)
Theorem rescan_is_noop (c : CacheHandle) (id : list byte)
    (files : list rm_file) :
  length (table c) = HASH_TABLE_SIZE →
  (length id ≤ UUID_LEN)%nat →
  Forall (λ file, (length (rm_uuid file) ≤ UUID_LEN)%nat) files →
  let scanned := (scan_document_pages c id (Some files)).2 in
  scan_document_pages scanned id (Some files) = (0, scanned).
Proof.
  intros Hlen Hid Hfiles. cbv zeta. unfold scan_document_pages.
  destruct (scan_fold id files (0, c) Hlen Hid Hfiles) as (_ & H2 & _).
  by apply scan_noop.
Qed.

Lemma rescan_is_noop_witness :
  let scanned :=
    (scan_document_pages p3_uploaded_cache doc_a
       (Some [p3_modified; mkRm P4 (bs "2") 150])).2 in
  scan_document_pages scanned doc_a (Some [p3_modified; mkRm P4 (bs "2") 150])
  = (0, scanned).
Proof.
  refine (rescan_is_noop p3_uploaded_cache doc_a
            [p3_modified; mkRm P4 (bs "2") 150] _ _ _).
  - vm_compute. reflexivity.
  - vm_compute. lia.
  - apply (bool_decide_unpack _). vm_compute. exact I.
Defined.

Lemma scan_page_count_fold (id : list byte) (files : list rm_file)
    (st : Z * CacheHandle) :
  st.1 ≤ (fold_left (scan_page id) files st).1
  ∧ ((fold_left (scan_page id) files st).1 = st.1 →
     fold_left (scan_page id) files st = st)
  ∧ (st.1 < (fold_left (scan_page id) files st).1 →
     dirty (fold_left (scan_page id) files st).2 = true).
Proof.
  revert st. induction files as [|file files IH]; intros st.
  - cbn [fold_left]. split_and!; [lia|done|lia].
  - cbn [fold_left]. destruct (IH (scan_page id st file)) as (H1 & H2 & H3).
    destruct (scan_page_count id st file) as [Heq|[Heq Hd]].
    + by rewrite Heq in H1, H2, H3 |- *.
    + rewrite Heq in H1, H2, H3. split_and!; [lia|lia|].
      intros _.
      destruct (decide (st.1 + 1
                        < (fold_left (scan_page id) files
                             (scan_page id st file)).1)) as [Hlt|Hge].
      * by apply H3.
      * rewrite H2 by lia. done.
Qed.

(** X13. A metadata event ends with the cache on disk.  For a file name of
    fewer than 45 characters [process_metadata_change] does nothing.
    Otherwise it scans the document named by the first 36 characters; when
    the cache was not dirty before and the temporary file can be opened and
    renamed, the cache is not dirty afterwards: either the scan found
    nothing and cache and files are as before, or the cache file holds the
    encoding of the cache as the scan left it. *)
Theorem metadata_change_saved (io : io_env)
    (opendir : list byte → option (list rm_file))
    (fs : filesystem) (c : CacheHandle) (filename : list byte) :
  dirty c = false →
  (∀ temp, fopen_wb_ok io temp = true) →
  (∀ temp target, rename_ok io temp target = true) →
  let id := take UUID_LEN filename in
  let scanned := scan_document_pages c id (opendir id) in
  let result := process_metadata_change io opendir fs c filename in
  ((length filename < UUID_LEN + 9)%nat → result = (fs, c))
  ∧ ((UUID_LEN + 9 ≤ length filename)%nat →
     result.2 = mkCache (table scanned.2) false (path c)
     ∧ (scanned.1 = 0 → result = (fs, c))
     ∧ (0 < scanned.1 →
        result.1 !! path c = Some (encode_cache result.2))).
Proof.
  intros Hclean Hopen Hren. cbv zeta. unfold process_metadata_change.
  destruct (decide (length filename < UUID_LEN + 9)%nat) as [Hshort|Hlong].
  { split; [done|]. lia. }
  split; [lia|]. intros _.
  set (id := take UUID_LEN filename).
  assert (∀ files (st : Z * CacheHandle),
            path (fold_left (scan_page id) files st).2 = path st.2) as Hpath.
  { induction files as [|file files IH]; intros st; [done|].
    cbn [fold_left]. rewrite IH, scan_page_rearm_branch_dead.
    destruct (_ ≫= _) as [p|]; [destruct (bool_decide _)|]; cbn [snd];
      try done; apply dirty_upsert. }
  unfold scan_document_pages.
  destruct (opendir id) as [files|]; cbn [fst snd].
  - pose proof (scan_page_count_fold id files (0, c)) as (Hle & Hsame & Hdirty).
    pose proof (Hpath files (0, c)) as Hp. cbn [fst snd] in *.
    destruct (fold_left (scan_page id) files (0, c)) as [n c1] eqn:Hscan.
    cbn [fst snd] in *.
    destruct (decide (0 < n)) as [Hpos|Hzero].
    + unfold cache_save. rewrite (Hdirty Hpos), Hopen, Hren. cbn [negb fst snd].
      rewrite Hp. split_and!; [done|lia|]. intros _.
      by rewrite lookup_insert_eq.
    + assert (n = 0) as -> by lia. injection (Hsame eq_refl) as ->.
      cbn [fst snd]. split_and!; [by destruct c; cbn in *; subst|done|lia].
  - rewrite decide_False by lia. cbn [fst snd].
    split_and!; [by destruct c; cbn in *; subst|done|lia].
Qed.

Lemma metadata_change_saved_witness :
  let filename := doc_a ++ bs ".metadata" in
  let opendir := λ _ : list byte, Some [p3_modified] in
  let id := take UUID_LEN filename in
  let scanned := scan_document_pages fresh_cache id (opendir id) in
  let result := process_metadata_change io_ok opendir ∅ fresh_cache filename in
  ((length filename < UUID_LEN + 9)%nat → result = (∅, fresh_cache))
  ∧ ((UUID_LEN + 9 ≤ length filename)%nat →
     result.2 = mkCache (table scanned.2) false (path fresh_cache)
     ∧ (scanned.1 = 0 → result = (∅, fresh_cache))
     ∧ (0 < scanned.1 →
        result.1 !! path fresh_cache = Some (encode_cache result.2))).
Proof.
  refine (metadata_change_saved io_ok (λ _, Some [p3_modified]) ∅ fresh_cache
            (doc_a ++ bs ".metadata") _ _ _).
  - reflexivity.
  - intros temp. reflexivity.
  - intros temp target. reflexivity.
Defined.

(** ** httpclient.c: the upload batch *)

Lemma outline_update (r : PageRef) (f : PageEntry → PageEntry)
    (c c' : CacheHandle) :
  (∀ page, uuid (f page) = uuid page) →
  table c' = update_page_at r f (table c) →
  outline c' = outline c.
Proof.
  intros Hf Ht. unfold outline, documents. rewrite Ht. unfold update_page_at.
  set (o := λ doc : DocumentEntry, (doc_id doc, uuid <$> pages doc)).
  assert (∀ tbl : list (list DocumentEntry),
            o <$> concat tbl
            = concat ((λ b : list DocumentEntry, o <$> b) <$> tbl)) as Hconcat.
  { induction tbl as [|b tbl IH]; [done|].
    cbn [concat]. rewrite fmap_app, IH. done. }
  rewrite !Hconcat. f_equal.
  apply (fmap_alter_same (λ b : list DocumentEntry, o <$> b)). intros bucket.
  apply (fmap_alter_same o). intros doc. unfold o. cbn [doc_id pages].
  f_equal. by apply fmap_alter_same.
Qed.

Lemma owner_found (c : CacheHandle) (d : DocRef) (k : nat)
    (doc : DocumentEntry) (page : PageEntry) :
  uuids_owned c →
  deref_doc c d = Some doc → pages doc !! k = Some page →
  cache_get_document_for_page c (uuid page) = Some (doc_id doc).
Proof.
  intros Hown Hd Hk. unfold cache_get_document_for_page.
  assert (doc ∈ documents c) as Hin by (apply documents_deref_doc; eauto).
  assert (Exists (λ q, uuid q = uuid page) (pages doc)) as Hex.
  { apply Exists_exists. exists page. split; [|done].
    by eapply list_elem_of_lookup_2. }
  destruct (list_find_elem_of
              (λ doc0, Exists (λ q, uuid q = uuid page) (pages doc0))
              (documents c) doc Hin Hex) as [[i doc'] Hfind].
  rewrite Hfind. cbn [fmap option_fmap option_map snd]. f_equal.
  apply list_find_Some in Hfind as (Hdoc' & Hex' & _).
  apply list_elem_of_lookup_2 in Hdoc'.
  apply Exists_exists in Hex' as (q & Hq & Hu).
  unfold uuids_owned in Hown. rewrite Forall_forall in Hown.
  specialize (Hown (doc_id doc', uuid <$> pages doc')).
  rewrite Forall_forall in Hown.
  specialize (Hown ltac:(unfold outline; apply list_elem_of_fmap; eauto)
                (doc_id doc, uuid <$> pages doc)
                ltac:(unfold outline; apply list_elem_of_fmap; eauto)).
  rewrite Forall_forall in Hown. cbn [fst snd] in Hown.
  apply (Hown (uuid q)).
  - apply list_elem_of_fmap. eauto.
  - rewrite Hu. apply list_elem_of_fmap. exists page. split; [done|].
    by eapply list_elem_of_lookup_2.
Qed.

Lemma find_page_ref_in_place (c : CacheHandle) (r : PageRef)
    (doc : DocumentEntry) (page : PageEntry) :
  chained c →
  deref_doc c r.1 = Some doc → pages doc !! r.2 = Some page →
  find_page_ref c (doc_id doc) (uuid page) = Some r.
Proof.
  intros Hc Hd Hk. destruct r as [d k]. cbn [fst snd] in *.
  destruct (found_in_place c d k doc page Hc Hd Hk) as (Hdoc & Hpage & _).
  unfold find_page_ref. rewrite Hdoc. cbn [mbind option_bind].
  rewrite Hd. cbn [mbind option_bind]. rewrite Hpage. done.
Qed.

(** In a cache whose chains hold each document once, in the bucket of its
    hash and with distinct page uuids, and in which no uuid sits in two
    documents, the lookups lead from a page's uuid back to the page. *)
Lemma owned_page_reached (c : CacheHandle) (r : PageRef)
    (doc : DocumentEntry) (page : PageEntry) :
  chained c → uuids_owned c →
  deref_doc c r.1 = Some doc → pages doc !! r.2 = Some page →
  cache_get_document_for_page c (uuid page) = Some (doc_id doc)
  ∧ find_page_ref c (doc_id doc) (uuid page) = Some r.
Proof.
  intros Hc Hown Hd Hk. split.
  - by apply (owner_found c r.1 r.2 doc page).
  - by apply find_page_ref_in_place.
Qed.

Lemma process_page_at (config : config_t) (env : collaborators) (i : nat)
    (n : Z) (c : CacheHandle) (r : PageRef) (doc : DocumentEntry)
    (page : PageEntry) :
  chained c → uuids_owned c →
  deref_doc c r.1 = Some doc → pages doc !! r.2 = Some page →
  let o := upload_outcome config env i (doc_id doc) page in
  process_page config env i (n, c) r
  = (if o.1 then n + 1 else n,
     mkCache (update_page_at r (record_outcome o) (table c)) true (path c)).
Proof.
  intros Hc Hown Hd Hk. cbv zeta.
  assert (deref c r = Some page) as Hr
    by (unfold deref; by rewrite Hd).
  pose proof (owner_found c r.1 r.2 doc page Hown Hd Hk) as Howner.
  pose proof (find_page_ref_in_place c r doc page Hc Hd Hk) as Hfind.
  unfold process_page, upload_outcome. rewrite Hr, Howner.
  destruct (reconstruct_virtual_path env (doc_id doc) (page_num page))
    as [info|].
  - destruct (negb (is_under_shared_path (full_path info)
                      (shared_path config))).
    + by rewrite (update_status_found _ _ _ _ _ _ Hfind).
    + destruct (decide (upload_file env i (doc_id doc) (uuid page)
                          (page_num page) (full_path info) = 0)).
      * by rewrite (update_status_found _ _ _ _ _ _ Hfind).
      * cbv zeta.
        destruct (decide (max_retries config
                          ≤ (retry_count page + 1) mod 256));
          by rewrite (update_status_found _ _ _ _ _ _ Hfind).
  - by rewrite (update_status_found _ _ _ _ _ _ Hfind).
Qed.

Lemma upload_outcome_counted (config : config_t) (env : collaborators)
    (i : nat) (id : list byte) (page : PageEntry) :
  (upload_outcome config env i id page).1 = true
  ↔ sync_status (record_outcome (upload_outcome config env i id page) page)
    = status_code SYNC_UPLOADED.
Proof.
  unfold upload_outcome, record_outcome.
  destruct (reconstruct_virtual_path env id (page_num page)) as [info|];
    [|done].
  destruct (negb _); [done|].
  destruct (decide (upload_file _ _ _ _ _ _ = 0)); [done|].
  cbv zeta. by destruct (decide (max_retries config ≤ _)).
Qed.

Lemma process_batch_spec (config : config_t) (env : collaborators)
    (refs : list PageRef) (i0 : nat) (n0 : Z) (c : CacheHandle) :
  chained c → uuids_owned c →
  NoDup refs → (∀ r, r ∈ refs → is_Some (deref c r)) →
  let result := process_batch config env i0 refs (n0, c) in
  chained result.2 ∧ uuids_owned result.2
  ∧ path result.2 = path c
  ∧ (∀ k r, refs !! k = Some r →
       ∃ id page,
         doc_id <$> deref_doc c r.1 = Some id ∧ deref c r = Some page
         ∧ deref result.2 r
           = Some (record_outcome
                     (upload_outcome config env (i0 + k) id page) page))
  ∧ (∀ r, r ∉ refs → deref result.2 r = deref c r)
  ∧ (∀ d, doc_id <$> deref_doc result.2 d = doc_id <$> deref_doc c d)
  ∧ result.1
    = n0 + Z.of_nat (length (filter
             (λ r, sync_status <$> deref result.2 r
                   = Some (status_code SYNC_UPLOADED)) refs))
  ∧ (refs ≠ [] → dirty result.2 = true).
Proof.
  revert i0 n0 c. induction refs as [|r refs IH]; intros i0 n0 c Hc Hown Hnd Hall;
    cbv zeta.
  { cbn [process_batch fst snd]. split_and!; try done.
    - by rewrite filter_nil, Z.add_0_r. }
  cbn [process_batch].
  apply NoDup_cons in Hnd as [Hnotin Hnd].
  destruct (Hall r ltac:(by left)) as [page Hr].
  assert (∃ doc, deref_doc c r.1 = Some doc ∧ pages doc !! r.2 = Some page)
    as (doc & Hd & Hk).
  { unfold deref in Hr. destruct (deref_doc c r.1) as [doc|]; [|done]. eauto. }
  rewrite (process_page_at config env i0 n0 c r doc page Hc Hown Hd Hk).
  set (o := upload_outcome config env i0 (doc_id doc) page).
  set (c1 := mkCache (update_page_at r (record_outcome o) (table c)) true
                     (path c)).
  assert (table c1 = update_page_at r (record_outcome o) (table c)) as Ht
    by done.
  assert (chained c1) as Hc1.
  { pose proof (chained_update_status c (doc_id doc) (uuid page) o.2.1 o.2.2 Hc)
      as Hcs.
    by rewrite (update_status_found _ _ _ _ _ _
                  (find_page_ref_in_place c r doc page Hc Hd Hk)) in Hcs. }
  assert (uuids_owned c1) as Hown1.
  { unfold uuids_owned.
    by rewrite (outline_update r (record_outcome o) c c1) by done. }
  assert (∀ r', r' ≠ r → deref c1 r' = deref c r') as Hframe1.
  { intros r' Hne. rewrite (deref_update c c1 r r' _ Ht).
    by rewrite decide_False. }
  assert (deref c1 r = Some (record_outcome o page)) as Hr1.
  { rewrite (deref_update c c1 r r _ Ht), decide_True, Hr by done. done. }
  assert (∀ d, doc_id <$> deref_doc c1 d = doc_id <$> deref_doc c d) as Hids1.
  { intros d. rewrite (deref_doc_update c c1 r d _ Ht).
    case_decide; [|done]. by destruct (deref_doc c d). }
  destruct (IH (S i0) (if o.1 then n0 + 1 else n0) c1 Hc1 Hown1 Hnd)
    as (H1 & H2 & H3 & H4 & H5 & H6 & H7 & H8).
  { intros r' Hin. rewrite Hframe1; [apply Hall; by right|].
    intros ->. done. }
  split_and!; [done|done|done| | | | |].
  - intros [|k] r' Hk'.
    + injection Hk' as <-. exists (doc_id doc), page.
      rewrite Nat.add_0_r. split_and!.
      * exact (f_equal (fmap doc_id) Hd).
      * done.
      * by rewrite H5.
    + destruct (H4 k r' Hk') as (id & page' & Hid & Hp' & Hres).
      exists id, page'.
      assert (r' ≠ r) as Hne.
      { intros ->. apply Hnotin. by eapply list_elem_of_lookup_2. }
      rewrite Hids1 in Hid. rewrite Hframe1 in Hp' by done.
      split_and!; [done..|].
      by replace (i0 + S k)%nat with (S i0 + k)%nat by lia.
  - intros r' Hout. apply not_elem_of_cons in Hout as [Hne Hout].
    rewrite H5 by done. by apply Hframe1.
  - intros d. by rewrite H6, Hids1.
  - rewrite H7, filter_cons. rewrite H5, Hr1 by done.
    cbn [fmap option_fmap option_map].
    pose proof (upload_outcome_counted config env i0 (doc_id doc) page)
      as Hcount. fold o in Hcount.
    destruct (fst o) eqn:Ho.
    + rewrite decide_True by (f_equal; by apply Hcount).
      cbn [length]. lia.
    + rewrite decide_False; [lia|].
      intros [= Hup]. apply Hcount in Hup. congruence.
  - intros _. destruct refs as [|r' refs']; [done|]. by apply H8.
Qed.

Lemma update_status_effect (c : CacheHandle) (id page_uuid : list byte)
    (status : sync_status_t) (retry : Z) :
  cache_update_page_status c id page_uuid status retry = (-1, c)
  ∨ ∃ r, cache_update_page_status c id page_uuid status retry
         = (0, mkCache
                 (update_page_at r
                    (λ page, mkPage (uuid page) (page_num page) (mtime page)
                                    (status_code status) retry)
                    (table c))
                 true (path c)).
Proof.
  destruct (find_page_ref c id page_uuid) as [r|] eqn:Hr.
  - right. exists r. by apply update_status_found.
  - left. revert Hr. unfold cache_update_page_status, find_page_ref.
    destruct (cache_find_document c id) as [d|]; [|done].
    cbn [mbind option_bind].
    destruct (deref_doc c d) as [doc|]; [|done].
    cbn [mbind option_bind].
    by destruct (cache_find_page doc page_uuid).
Qed.

Lemma process_page_effect (config : config_t) (env : collaborators) (i : nat)
    (st : Z * CacheHandle) (r : PageRef) :
  let result := process_page config env i st r in
  (st.1 ≤ result.1 ≤ st.1 + 1)
  ∧ (result.2 = st.2
     ∨ ∃ r' status retry,
         result.2
         = mkCache
             (update_page_at r'
                (λ page, mkPage (uuid page) (page_num page) (mtime page)
                                (status_code status) retry)
                (table st.2))
             true (path st.2)
         ∧ (status = SYNC_FAILED → max_retries config ≤ 255)).
Proof.
  destruct st as [n c]. cbv zeta. unfold process_page. cbn [fst snd].
  destruct (deref c r) as [page|]; [|split; [cbn [fst]; lia|by left]].
  destruct (cache_get_document_for_page c (uuid page)) as [id|];
    [|split; [cbn [fst]; lia|by left]].
  assert (∀ status retry (n' : Z),
            (status = SYNC_FAILED → max_retries config ≤ 255) →
            n ≤ n' ≤ n + 1 →
            (n ≤ (n', (cache_update_page_status c id (uuid page) status
                         retry).2).1 ≤ n + 1)
            ∧ ((n', (cache_update_page_status c id (uuid page) status
                       retry).2).2 = c
               ∨ ∃ r' status' retry',
                   (n', (cache_update_page_status c id (uuid page) status
                           retry).2).2
                   = mkCache
                       (update_page_at r'
                          (λ page, mkPage (uuid page) (page_num page)
                                          (mtime page) (status_code status')
                                          retry')
                          (table c))
                       true (path c)
                   ∧ (status' = SYNC_FAILED → max_retries config ≤ 255)))
    as Hcase.
  { intros status retry n' Hfailed Hn. cbn [fst snd]. split; [lia|].
    destruct (update_status_effect c id (uuid page) status retry)
      as [->|[r' ->]]; [by left|].
    right. exists r', status, retry. done. }
  destruct (reconstruct_virtual_path env id (page_num page)) as [info|];
    [|apply Hcase; [done|lia]].
  destruct (negb _); [apply Hcase; [done|lia]|].
  destruct (decide (upload_file _ _ _ _ _ _ = 0)); [apply Hcase; [done|lia]|].
  cbv zeta.
  destruct (decide (max_retries config ≤ (retry_count page + 1) mod 256))
    as [Hmax|Hmax]; (apply Hcase; [|lia]); [|done].
  intros _.
  pose proof (Z.mod_pos_bound (retry_count page + 1) 256 ltac:(lia)). lia.
Qed.

Lemma page_kept_refl (config : config_t) (old : option PageEntry) :
  page_kept config old old.
Proof. destruct old as [p|]; [|done]. split; [done|]. by left. Qed.

Lemma page_kept_trans (config : config_t) (a b c : option PageEntry) :
  page_kept config a b → page_kept config b c → page_kept config a c.
Proof.
  destruct a as [p|], b as [q|], c as [s|]; try done.
  intros [Hk1 Hf1] [Hk2 Hf2]. split; [congruence|].
  intros Hs. destruct (Hf2 Hs) as [Hq|?]; [|by right]. by apply Hf1.
Qed.

Lemma process_page_kept (config : config_t) (env : collaborators) (i : nat)
    (st : Z * CacheHandle) (r r' : PageRef) :
  page_kept config (deref st.2 r')
            (deref (process_page config env i st r).2 r').
Proof.
  destruct (process_page_effect config env i st r)
    as [_ [->|(r0 & status & retry & -> & Hfailed)]];
    [apply page_kept_refl|].
  set (f := λ page : PageEntry, mkPage _ _ _ _ _).
  rewrite (deref_update st.2 (mkCache (update_page_at r0 f (table st.2)) true
                                      (path st.2)) r0 r' f eq_refl).
  destruct (decide (r' = r0)); [|apply page_kept_refl].
  destruct (deref st.2 r') as [p|]; [|done].
  split; [done|]. cbn [sync_status]. intros Hs. right. apply Hfailed.
  by destruct status.
Qed.

Lemma process_page_dirty (config : config_t) (env : collaborators) (i : nat)
    (st : Z * CacheHandle) (r : PageRef) :
  let result := process_page config env i st r in
  path result.2 = path st.2
  ∧ (result.2 = st.2 ∨ dirty result.2 = true).
Proof.
  cbv zeta.
  destruct (process_page_effect config env i st r)
    as [_ [->|(r0 & status & retry & -> & _)]]; cbn [path dirty]; auto.
Qed.

Lemma process_batch_kept (config : config_t) (env : collaborators)
    (refs : list PageRef) (i : nat) (st : Z * CacheHandle) :
  let result := process_batch config env i refs st in
  (∀ r', page_kept config (deref st.2 r') (deref result.2 r'))
  ∧ (st.1 ≤ result.1 ≤ st.1 + Z.of_nat (length refs))
  ∧ path result.2 = path st.2
  ∧ (result.2 = st.2 ∨ dirty result.2 = true).
Proof.
  revert i st. induction refs as [|r refs IH]; intros i st; cbv zeta.
  - cbn [process_batch length]. split_and!; [|lia|lia|done|by left].
    intros r'. apply page_kept_refl.
  - cbn [process_batch].
    destruct (IH (S i) (process_page config env i st r))
      as (Hkept & Hn & Hpath & Hdirty).
    destruct (process_page_effect config env i st r) as [Hn1 _].
    destruct (process_page_dirty config env i st r) as [Hpath1 Hdirty1].
    split_and!.
    + intros r'. eapply page_kept_trans; [apply process_page_kept|apply Hkept].
    + lia.
    + cbn [length]. lia.
    + congruence.
    + destruct Hdirty as [Heq|?]; [|by right]. rewrite Heq.
      destruct Hdirty1 as [Heq1|?]; [left; congruence|by right].
Qed.

Lemma cache_save_table (io : io_env) (fs : filesystem) (c : CacheHandle) :
  table (cache_save io fs c).2 = table c ∧ path (cache_save io fs c).2 = path c.
Proof.
  unfold cache_save.
  destruct (negb (dirty c)); [done|].
  destruct (negb (fopen_wb_ok io (temp_path c))); [done|].
  by destruct (rename_ok io (temp_path c) (path c)).
Qed.

Lemma deref_table (c c' : CacheHandle) (r : PageRef) :
  table c' = table c → deref c' r = deref c r.
Proof. intros Ht. unfold deref, deref_doc. by rewrite Ht. Qed.

Lemma pending_refs_bound (c : CacheHandle) (max_pages : Z) :
  Z.of_nat (length (until_null
                      (default [] (cache_get_pending_pages (Some c)
                                     max_pages).1)))
  ≤ Z.max 0 max_pages.
Proof.
  unfold cache_get_pending_pages.
  destruct (decide (max_pages ≤ 0)); cbn [fst default].
  - cbn [until_null length]. lia.
  - unfold Datatypes.id. rewrite until_null_found, pending_in_table_spec.
    cbn [app length]. rewrite length_take. lia.
Qed.

(** X14. What an upload cycle never touches.  [process_pending_pages]
    reloads the cache and then changes nothing but status and retry count:
    every pointer reaches a page with the same uuid, page number and mtime
    as in the reloaded cache, or none as before.  It returns a number
    between 0 and 10, the batch size. *)
Theorem upload_cycle_keeps_records (config : config_t) (env : collaborators)
    (io : io_env) (fs : filesystem) (cache : CacheHandle) :
  let reloaded := (CacheReload.cache_reload fs cache).2 in
  let result := process_pending_pages config env io fs cache in
  (∀ r, page_key <$> deref result.2 r = page_key <$> deref reloaded r)
  ∧ (0 ≤ result.1.1 ≤ MAX_BATCH_SIZE)
  ∧ path result.2 = path cache.
Proof.
  cbv zeta. unfold process_pending_pages.
  set (c1 := (CacheReload.cache_reload fs cache).2).
  assert (path c1 = path cache) as Hpath1.
  { unfold c1, CacheReload.cache_reload.
    destruct (fs !! path cache) as [f|]; [|done].
    by destruct (CacheReload.read_header f) as [[[? ?]|] ?]. }
  pose proof (pending_refs_bound c1 MAX_BATCH_SIZE) as Hbound.
  destruct (cache_get_pending_pages (Some c1) MAX_BATCH_SIZE).1
    as [pending|] eqn:Hpending.
  - cbn [default] in Hbound. unfold Datatypes.id in Hbound.
    destruct (process_batch_kept config env (until_null pending) 0 (0, c1))
      as (Hkept & Hn & Hpath & _).
    destruct (process_batch config env 0 (until_null pending) (0, c1))
      as [n c2]. cbn [fst snd] in *.
    assert (∀ r, page_key <$> deref c2 r = page_key <$> deref c1 r) as Hkey.
    { intros r. specialize (Hkept r). unfold page_kept in Hkept.
      destruct (deref c1 r), (deref c2 r); try done.
      cbn. f_equal. apply Hkept. }
    assert (0 ≤ n ≤ MAX_BATCH_SIZE) as Hn' by (unfold MAX_BATCH_SIZE in *; lia).
    destruct (cache_save_table io fs c2) as [Hst Hsp].
    destruct (bool_decide (0 < n) || dirty c2).
    + destruct (cache_save io fs c2) as [[code fs'] c3]. cbn [fst snd] in *.
      split_and!; [|lia|lia|congruence].
      intros r. by rewrite (deref_table c2 c3 r Hst).
    + cbn [fst snd]. split_and!; [done|lia|lia|congruence].
  - cbn [fst snd]. split_and!; [done|done|unfold MAX_BATCH_SIZE; lia|done].
Qed.

(** X15. A retry limit above 255 is never reached.  The retry count is an
    8-bit counter: with [max_retries] of 256 or more, no upload cycle makes
    a page FAILED; a page that is FAILED after the cycle was FAILED in the
    reloaded cache. *)
Theorem retry_limit_out_of_reach (config : config_t) (env : collaborators)
    (io : io_env) (fs : filesystem) (cache : CacheHandle) (r : PageRef)
    (p' : PageEntry) :
  255 < max_retries config →
  let reloaded := (CacheReload.cache_reload fs cache).2 in
  let result := process_pending_pages config env io fs cache in
  deref result.2 r = Some p' →
  sync_status p' = status_code SYNC_FAILED →
  ∃ p, deref reloaded r = Some p
       ∧ sync_status p = status_code SYNC_FAILED.
Proof.
  intros Hmax. cbv zeta. unfold process_pending_pages.
  set (c1 := (CacheReload.cache_reload fs cache).2).
  destruct (cache_get_pending_pages (Some c1) MAX_BATCH_SIZE).1
    as [pending|]; [|cbn [snd]; eauto].
  destruct (process_batch_kept config env (until_null pending) 0 (0, c1))
    as (Hkept & _).
  destruct (process_batch config env 0 (until_null pending) (0, c1))
    as [n c2]. cbn [fst snd] in *.
  assert (deref c2 r = Some p' →
          sync_status p' = status_code SYNC_FAILED →
          ∃ p, deref c1 r = Some p
               ∧ sync_status p = status_code SYNC_FAILED) as Hgoal.
  { intros Hr Hs. specialize (Hkept r). unfold page_kept in Hkept.
    rewrite Hr in Hkept. destruct (deref c1 r) as [p|]; [|done].
    destruct Hkept as [_ Hf]. destruct (Hf Hs) as [?|?]; [eauto|lia]. }
  destruct (cache_save_table io fs c2) as [Hst _].
  destruct (bool_decide (0 < n) || dirty c2); [|done].
  destruct (cache_save io fs c2) as [[code fs'] c3]. cbn [fst snd] in *.
  by rewrite (deref_table c2 c3 r Hst).
Qed.

Lemma retry_limit_out_of_reach_witness :
  ∃ p, deref (CacheReload.cache_reload
                (cache_save io_ok ∅ p3_failed_cache).1.2 fresh_cache).2 p3_ref
       = Some p
       ∧ sync_status p = status_code SYNC_FAILED.
Proof.
  refine (retry_limit_out_of_reach (mkConfig (bs "*") 256 0) failing_server
            io_ok (cache_save io_ok ∅ p3_failed_cache).1.2 fresh_cache p3_ref
            (mkPage P3 (bs "1") 100 2 3) _ _ _).
  - cbn [max_retries]. lia.
  - vm_compute. reflexivity.
  - reflexivity.
Defined.

Lemma pending_refs_NoDup (c : CacheHandle) (max_pages : Z) :
  NoDup (until_null (default [] (cache_get_pending_pages (Some c)
                                   max_pages).1)).
Proof.
  unfold cache_get_pending_pages.
  destruct (decide (max_pages ≤ 0)); cbn [fst default].
  - cbn [until_null]. constructor.
  - unfold Datatypes.id. rewrite until_null_found, pending_in_table_spec.
    cbn [app length].
    eapply sublist_NoDup; [apply (NoDup_entries_table 0 (table c))|].
    etrans; [apply sublist_take|apply pending_refs_sublist].
Qed.

(** X16. What an upload cycle does to each pending page.  When the
    reloaded cache has no shadowing in its chains and every page uuid under
    one document id only, the cycle treats the pending pages of the batch
    one by one, each by its own record and the answers of path
    reconstruction, filter and upload at its position: the page ends with
    the status and retry count decided for it, every page outside the batch
    is as in the reloaded cache, and the number returned is the number of
    pages of the batch that end UPLOADED. *)
Theorem upload_cycle_spec (config : config_t) (env : collaborators)
    (io : io_env) (fs : filesystem) (cache : CacheHandle) :
  let reloaded := (CacheReload.cache_reload fs cache).2 in
  let refs :=
    until_null (default [] (cache_get_pending_pages (Some reloaded)
                              MAX_BATCH_SIZE).1) in
  let result := process_pending_pages config env io fs cache in
  chained reloaded → uuids_owned reloaded →
  (∀ k r, refs !! k = Some r →
     ∃ id page,
       doc_id <$> deref_doc reloaded r.1 = Some id
       ∧ deref reloaded r = Some page
       ∧ sync_status page = status_code SYNC_PENDING
       ∧ deref result.2 r
         = Some (record_outcome (upload_outcome config env k id page) page))
  ∧ (∀ r, r ∉ refs → deref result.2 r = deref reloaded r)
  ∧ result.1.1
    = Z.of_nat (length (filter
        (λ r, sync_status <$> deref result.2 r
              = Some (status_code SYNC_UPLOADED)) refs)).
Proof.
  cbv zeta. intros Hc Hown. unfold process_pending_pages.
  set (c1 := (CacheReload.cache_reload fs cache).2) in *.
  pose proof (pending_refs_NoDup c1 MAX_BATCH_SIZE) as Hnd.
  pose proof (pending_pointer_status c1 MAX_BATCH_SIZE) as Hpending.
  destruct (cache_get_pending_pages (Some c1) MAX_BATCH_SIZE).1
    as [pending|] eqn:Hsome; cbn [default] in *; unfold Datatypes.id in *.
  - destruct (process_batch_spec config env (until_null pending) 0 0 c1
                Hc Hown Hnd)
      as (_ & _ & _ & Heach & Hframe & _ & Hcount & _).
    { intros r Hr. destruct (Hpending r Hr) as (p & -> & _). eauto. }
    destruct (cache_save_table io fs
                (process_batch config env 0 (until_null pending) (0, c1)).2)
      as [Hst _].
    destruct (process_batch config env 0 (until_null pending) (0, c1))
      as [n c2]. cbn [fst snd] in *.
    assert (∃ c3, (let '(processed, cache2) := (n, c2) in
                   if bool_decide (0 < processed) || dirty cache2
                   then let '(_, fs', cache3) := cache_save io fs cache2 in
                        (processed, fs', cache3)
                   else (processed, fs, cache2)).2 = c3
                  ∧ (let '(processed, cache2) := (n, c2) in
                     if bool_decide (0 < processed) || dirty cache2
                     then let '(_, fs', cache3) := cache_save io fs cache2 in
                          (processed, fs', cache3)
                     else (processed, fs, cache2)).1.1 = n
                  ∧ table c3 = table c2) as (c3 & -> & -> & Ht).
    { cbv beta iota. destruct (bool_decide (0 < n) || dirty c2).
      - destruct (cache_save io fs c2) as [[code fs'] c3']. by exists c3'.
      - by exists c2. }
    assert (∀ r, deref c3 r = deref c2 r) as Hsame
      by (intros r; by apply deref_table).
    split_and!.
    + intros k r Hk. destruct (Heach k r Hk) as (id & page & Hid & Hp & Hres).
      destruct (Hpending r) as (p & Hp' & Hs);
        [by eapply list_elem_of_lookup_2|].
      exists id, page. rewrite Hsame. split_and!; [done..| |done].
      congruence.
    + intros r Hout. rewrite Hsame. by apply Hframe.
    + rewrite Hcount, Z.add_0_l. do 2 f_equal.
      apply list_filter_iff. intros r. by rewrite Hsame.
  - cbn [until_null fst snd]. split_and!; [by intros k r ?|done|done].
Qed.

Lemma upload_cycle_spec_witness :
  let reloaded := (CacheReload.cache_reload p3_fs fresh_cache).2 in
  let refs :=
    until_null (default [] (cache_get_pending_pages (Some reloaded)
                              MAX_BATCH_SIZE).1) in
  let result :=
    process_pending_pages three_retries failing_server io_ok p3_fs
      fresh_cache in
  (∀ k r, refs !! k = Some r →
     ∃ id page,
       doc_id <$> deref_doc reloaded r.1 = Some id
       ∧ deref reloaded r = Some page
       ∧ sync_status page = status_code SYNC_PENDING
       ∧ deref result.2 r
         = Some (record_outcome
                   (upload_outcome three_retries failing_server k id page)
                   page))
  ∧ (∀ r, r ∉ refs → deref result.2 r = deref reloaded r)
  ∧ result.1.1
    = Z.of_nat (length (filter
        (λ r, sync_status <$> deref result.2 r
              = Some (status_code SYNC_UPLOADED)) refs)).
Proof.
  refine (upload_cycle_spec three_retries failing_server io_ok p3_fs
            fresh_cache _ _).
  - apply (bool_decide_unpack _). vm_compute. exact I.
  - apply (bool_decide_unpack _). vm_compute. exact I.
Defined.

(** X17. An upload cycle ends with the cache on disk.  Take a cache file
    that, if it exists, either has a header [cache_reload] refuses or is the
    file [cache_save] writes for a cache within the limits of the format
    (every 36-byte id field of such a file holds a string followed by zero
    bytes only, so the buffers [cache_reload] fills hold nothing behind the
    terminator and [cache_save] writes back exactly [encode_cache]).  When
    the temporary file can be opened and renamed, the cache is not dirty
    after [process_pending_pages]: either nothing was written and the cache
    is the reloaded one, or the cache file holds the encoding of the cache
    as the cycle left it. *)
Theorem upload_cycle_saved (config : config_t) (env : collaborators)
    (io : io_env) (fs : filesystem) (cache : CacheHandle) :
  (∀ f, fs !! path cache = Some f →
        bad_header f ∨ ∃ c0, cache_wf c0 ∧ f = encode_cache c0) →
  (∀ temp, fopen_wb_ok io temp = true) →
  (∀ temp target, rename_ok io temp target = true) →
  let reloaded := (CacheReload.cache_reload fs cache).2 in
  let result := process_pending_pages config env io fs cache in
  dirty result.2 = false
  ∧ ((result.1.2 = fs ∧ result.2 = reloaded)
     ∨ result.1.2 !! path cache = Some (encode_cache result.2)).
Proof.
  intros _ Hopen Hren. cbv zeta. unfold process_pending_pages.
  set (c1 := (CacheReload.cache_reload fs cache).2).
  assert (path c1 = path cache) as Hpath1.
  { unfold c1, CacheReload.cache_reload.
    destruct (fs !! path cache) as [f|]; [|done].
    by destruct (CacheReload.read_header f) as [[[? ?]|] ?]. }
  assert (cache_get_pending_pages (Some c1) MAX_BATCH_SIZE
          = (Some ((Some <$> pending_in_table 0 (table c1)
                               (Z.to_nat MAX_BATCH_SIZE) [])
                   ++ replicate (Z.to_nat (MAX_BATCH_SIZE + 1)
                                 - length (pending_in_table 0 (table c1)
                                             (Z.to_nat MAX_BATCH_SIZE) []))
                                None), Some c1)) as -> by done.
  cbn [fst]. set (pending := _ ++ _).
  destruct (process_batch_kept config env (until_null pending) 0 (0, c1))
    as (_ & _ & Hpath & Hdirty).
  destruct (process_batch config env 0 (until_null pending) (0, c1))
    as [n c2]. cbn [fst snd] in *.
  destruct (dirty c2) eqn:Hd.
  - rewrite orb_true_r. unfold cache_save.
    rewrite Hd, Hopen, Hren. cbn [negb fst snd dirty].
    split; [done|]. right. rewrite Hpath, Hpath1.
    by rewrite lookup_insert_eq.
  - destruct Hdirty as [->|?]; [|done].
    rewrite orb_false_r. unfold cache_save. rewrite Hd. cbn [negb].
    destruct (bool_decide (0 < n)); cbn [fst snd]; auto.
Qed.

Lemma upload_cycle_saved_witness :
  let reloaded := (CacheReload.cache_reload p3_fs fresh_cache).2 in
  let result :=
    process_pending_pages three_retries failing_server io_ok p3_fs
      fresh_cache in
  dirty result.2 = false
  ∧ ((result.1.2 = p3_fs ∧ result.2 = reloaded)
     ∨ result.1.2 !! path fresh_cache = Some (encode_cache result.2)).
Proof.
  refine (upload_cycle_saved three_retries failing_server io_ok p3_fs
            fresh_cache _ _ _).
  - intros f Hf. right. exists p3_cache. split.
    + apply (bool_decide_unpack _). vm_compute. exact I.
    + assert (p3_fs !! path fresh_cache = Some (encode_cache p3_cache)) as Hp3
        by (vm_compute; reflexivity).
      congruence.
  - intros temp. reflexivity.
  - intros temp target. reflexivity.
Defined.

(** ** http_simple.c: parse_url *)

Lemma strchr_first (s rest : list byte) (ch : byte) :
  ch ∉ s → strchr (s ++ ch :: rest) ch = Some (length s).
Proof.
  intros Hnot. unfold strchr.
  assert (list_find (λ b, b = ch) (s ++ ch :: rest) = Some (length s, ch))
    as ->; [|done].
  apply list_find_Some. split_and!; [by apply list_lookup_middle|done|].
  intros i b Hi Hlt ->. apply Hnot.
  rewrite lookup_app_l in Hi by done. by eapply list_elem_of_lookup_2.
Qed.

Lemma strchr_none (s : list byte) (ch : byte) :
  ch ∉ s → strchr s ch = None.
Proof.
  intros Hnot. unfold strchr.
  assert (list_find (λ b, b = ch) s = None) as ->; [|done].
  apply list_find_None, Forall_forall. by intros b Hb ->.
Qed.

Lemma strchr_Some (s : list byte) (ch : byte) (i : nat) :
  strchr s ch = Some i →
  s !! i = Some ch ∧ (ch ∉ take i s) ∧ (i < length s)%nat.
Proof.
  unfold strchr. destruct (list_find _ s) as [[j b]|] eqn:Hfind; [|done].
  intros [= <-]. apply list_find_Some in Hfind as (Hj & -> & Hfirst).
  split_and!; [done| |by eapply lookup_lt_Some].
  intros [k Hk]%list_elem_of_lookup.
  apply lookup_take_Some in Hk as [Hk Hlt]. by eapply Hfirst.
Qed.

Lemma http_scheme (rest : list byte) :
  strncmp (bs "http://" ++ rest) (bs "http://") 7 = 0
  ∧ drop 7 (bs "http://" ++ rest) = rest.
Proof.
  split; [|done].
  apply (strncmp_prefix (bs "http://" ++ rest) (bs "http://")).
  - by apply (bool_decide_unpack _).
  - by apply prefix_app_r.
Qed.

Lemma isdigit_plain (b : byte) :
  isdigit b = true →
  isspace b = false ∧ b ≠ "-"%byte ∧ b ≠ "+"%byte ∧ b ≠ "/"%byte
  ∧ b ≠ ":"%byte.
Proof. by destruct b. Qed.

Lemma digits_value_app (ds rest : list byte) (acc : Z) :
  Forall (λ b, isdigit b = true) ds →
  match rest with b :: _ => isdigit b = false | [] => True end →
  digits_value acc (ds ++ rest) = digits_value acc ds.
Proof.
  intros Hds Hrest. revert acc.
  induction Hds as [|d ds Hd Hds IH]; intros acc.
  - destruct rest as [|b rest]; [done|]. cbn [app digits_value].
    by rewrite Hrest.
  - cbn [app digits_value]. rewrite Hd. apply IH.
Qed.

Lemma atoi_digits (ds rest : list byte) :
  ds ≠ [] → Forall (λ b, isdigit b = true) ds →
  match rest with b :: _ => isdigit b = false | [] => True end →
  - 2 ^ 31 ≤ digits_value 0 ds < 2 ^ 31 →
  atoi (ds ++ rest) = Some (digits_value 0 ds).
Proof.
  intros Hne Hds Hrest Hrange. unfold atoi.
  destruct ds as [|d ds]; [done|].
  apply Forall_cons in Hds as Hd. destruct Hd as [Hd _].
  destruct (isdigit_plain d Hd) as (Hsp & Hminus & Hplus & _).
  assert (skip_spaces ((d :: ds) ++ rest) = d :: (ds ++ rest)) as ->
    by (cbn [app skip_spaces]; by rewrite Hsp).
  rewrite decide_False, decide_False by done.
  change (d :: (ds ++ rest)) with ((d :: ds) ++ rest).
  rewrite (digits_value_app (d :: ds) rest 0 Hds Hrest).
  by rewrite decide_True.
Qed.

Lemma digits_no_separator (ds : list byte) :
  Forall (λ b, isdigit b = true) ds → ("/"%byte ∉ ds) ∧ (":"%byte ∉ ds).
Proof.
  intros Hds. rewrite Forall_forall in Hds.
  split; intros Hin; apply Hds, isdigit_plain in Hin;
    by destruct Hin as (_ & _ & _ & ? & ?).
Qed.

(** X18. A url with host, port and path.  For a host of fewer than 256
    characters without slash or colon, a port written as decimal digits
    with a value from 1 to 65535, and a path of fewer than 1024 characters
    that starts with a slash, [parse_url] of
    ["http://" host ":" port path] returns 0 with exactly that host, port
    and path. *)
Theorem parse_url_with_port (host ds path : list byte) :
  ("/"%byte ∉ host) → (":"%byte ∉ host) → (length host < HOST_SIZE)%nat →
  ds ≠ [] → Forall (λ b, isdigit b = true) ds →
  0 < digits_value 0 ds ≤ 65535 →
  (S (length path) < URL_PATH_SIZE)%nat →
  parse_url (bs "http://" ++ host ++ ":"%byte :: ds ++ "/"%byte :: path)
  = UrlOk host (digits_value 0 ds) ("/"%byte :: path).
Proof.
  intros Hslash Hcolon Hlen Hne Hds Hport Hpath.
  destruct (digits_no_separator ds Hds) as [Hds1 Hds2].
  unfold parse_url. destruct (http_scheme
    (host ++ ":"%byte :: ds ++ "/"%byte :: path)) as [-> ->].
  rewrite decide_True by done. cbv zeta.
  rewrite (strchr_first host _ ":"%byte Hcolon).
  assert (host ++ ":"%byte :: ds ++ "/"%byte :: path
          = (host ++ ":"%byte :: ds) ++ "/"%byte :: path) as Hassoc
    by (by rewrite <- app_assoc).
  assert (strchr (host ++ ":"%byte :: ds ++ "/"%byte :: path) "/"%byte
          = Some (length (host ++ ":"%byte :: ds))) as ->.
  { rewrite Hassoc. apply strchr_first.
    rewrite not_elem_of_app, not_elem_of_cons. split_and!; done. }
  rewrite decide_True by (rewrite !length_app; cbn [length]; lia).
  rewrite decide_False by (unfold HOST_SIZE in Hlen; lia).
  rewrite take_app_length.
  assert (drop (S (length host))
               (host ++ ":"%byte :: ds ++ "/"%byte :: path)
          = ds ++ "/"%byte :: path) as ->.
  { rewrite (cons_middle ":"%byte host), app_assoc.
    apply drop_app_length'. rewrite length_app. cbn [length]. lia. }
  rewrite atoi_digits by (done || lia).
  rewrite decide_False by lia.
  rewrite Hassoc at 1. rewrite drop_app_length.
  unfold parse_url_path.
  rewrite (decide_False (P := "/"%byte :: path = [])) by done.
  rewrite decide_False by (cbn [length]; lia). done.
Qed.

Lemma parse_url_with_port_witness :
  parse_url (bs "http://" ++ bs "192.168.1.100" ++ ":"%byte :: bs "8080"
             ++ "/"%byte :: bs "upload")
  = UrlOk (bs "192.168.1.100") (digits_value 0 (bs "8080"))
          ("/"%byte :: bs "upload").
Proof.
  refine (parse_url_with_port (bs "192.168.1.100") (bs "8080") (bs "upload")
            _ _ _ _ _ _ _).
  - apply (bool_decide_unpack _). vm_compute. exact I.
  - apply (bool_decide_unpack _). vm_compute. exact I.
  - vm_compute. lia.
  - discriminate.
  - apply (bool_decide_unpack _). vm_compute. exact I.
  - vm_compute. split; [reflexivity|discriminate].
  - vm_compute. lia.
Defined.

(** X19. A url without port.  For a host of fewer than 256 characters
    without slash or colon, followed by nothing or by a path of fewer than
    1024 characters that starts with a slash, [parse_url] returns 0 with
    that host, port 80, and the path, or ["/"] when there is none. *)
Theorem parse_url_default_port (host path : list byte) :
  ("/"%byte ∉ host) → (":"%byte ∉ host) → (length host < HOST_SIZE)%nat →
  (path = [] ∨ ∃ rest, path = "/"%byte :: rest) →
  (length path < URL_PATH_SIZE)%nat →
  parse_url (bs "http://" ++ host ++ path)
  = UrlOk host 80 (if decide (path = []) then bs "/" else path).
Proof.
  intros Hslash Hcolon Hlen Hpath Hplen.
  unfold parse_url. destruct (http_scheme (host ++ path)) as [-> ->].
  rewrite decide_True by done. cbv zeta.
  destruct Hpath as [->|[rest ->]].
  - rewrite app_nil_r, !strchr_none by done.
    rewrite decide_False by lia. rewrite drop_all.
    unfold parse_url_path.
    rewrite !(decide_True (P := @nil byte = [])) by done.
    by rewrite decide_False by (vm_compute; lia).
  - rewrite (strchr_first host rest "/"%byte Hslash).
    assert (match strchr (host ++ "/"%byte :: rest) ":"%byte with
            | Some c => (length host < c)%nat
            | None => True
            end) as Hc.
    { destruct (strchr _ ":"%byte) as [c|] eqn:Hc; [|done].
      apply strchr_Some in Hc as (Hc & _ & _).
      destruct (decide (c < length host)%nat) as [Hlt|Hge].
      - rewrite lookup_app_l in Hc by done.
        destruct Hcolon. by eapply list_elem_of_lookup_2.
      - destruct (decide (c = length host)) as [->|?]; [|lia].
        by rewrite list_lookup_middle in Hc. }
    assert (take (length host) (host ++ "/"%byte :: rest) = host) as Htake
      by apply take_app_length.
    assert (drop (length host) (host ++ "/"%byte :: rest) = "/"%byte :: rest)
      as Hdrop by apply drop_app_length.
    unfold HOST_SIZE in Hlen.
    destruct (strchr (host ++ "/"%byte :: rest) ":"%byte) as [c|].
    + rewrite (decide_False (P := (c < length host)%nat)) by lia.
      rewrite decide_False by lia. rewrite Htake, Hdrop.
      unfold parse_url_path.
      rewrite (decide_False (P := "/"%byte :: rest = [])) by done.
      by rewrite decide_False by lia.
    + rewrite decide_False by lia. rewrite Htake, Hdrop.
      unfold parse_url_path.
      rewrite (decide_False (P := "/"%byte :: rest = [])) by done.
      by rewrite decide_False by lia.
Qed.

Lemma parse_url_default_port_witness :
  parse_url (bs "http://" ++ bs "server" ++ bs "/a:b")
  = UrlOk (bs "server") 80
          (if decide (bs "/a:b" = []) then bs "/" else bs "/a:b").
Proof.
  refine (parse_url_default_port (bs "server") (bs "/a:b") _ _ _ _ _).
  - apply (bool_decide_unpack _). vm_compute. exact I.
  - apply (bool_decide_unpack _). vm_compute. exact I.
  - vm_compute. lia.
  - right. exists (bs "a:b"). reflexivity.
  - vm_compute. lia.
Defined.

(** X20. A port without a path.  When the url ends behind the port, the
    path [parse_url] returns is not ["/"]: it is the last digit of the
    port.  (Host and port as before.) *)
Theorem parse_url_port_without_path (host ds : list byte) (last_digit : byte) :
  ("/"%byte ∉ host) → (":"%byte ∉ host) → (length host < HOST_SIZE)%nat →
  Forall (λ b, isdigit b = true) (ds ++ [last_digit]) →
  0 < digits_value 0 (ds ++ [last_digit]) ≤ 65535 →
  parse_url (bs "http://" ++ host ++ ":"%byte :: ds ++ [last_digit])
  = UrlOk host (digits_value 0 (ds ++ [last_digit])) [last_digit].
Proof.
  intros Hslash Hcolon Hlen Hds Hport.
  destruct (digits_no_separator _ Hds) as [Hds1 Hds2].
  unfold parse_url.
  destruct (http_scheme (host ++ ":"%byte :: ds ++ [last_digit])) as [-> ->].
  rewrite decide_True by done. cbv zeta.
  rewrite (strchr_first host _ ":"%byte Hcolon).
  rewrite (strchr_none _ "/"%byte)
    by (rewrite not_elem_of_app, not_elem_of_cons; split_and!; done).
  rewrite decide_False by (unfold HOST_SIZE in Hlen; lia).
  rewrite take_app_length.
  assert (drop (S (length host)) (host ++ ":"%byte :: ds ++ [last_digit])
          = ds ++ [last_digit]) as ->.
  { rewrite (cons_middle ":"%byte host), app_assoc.
    apply drop_app_length'. rewrite length_app. cbn [length]. lia. }
  rewrite <- (app_nil_r (ds ++ [last_digit])) at 1.
  rewrite atoi_digits; [|by destruct ds|done|done|lia].
  rewrite decide_False by lia.
  assert (drop (length host + length (ds ++ [last_digit]))
               (host ++ ":"%byte :: ds ++ [last_digit]) = [last_digit]) as ->.
  { rewrite (cons_middle ":"%byte host), !app_assoc.
    apply drop_app_length'. rewrite !length_app. cbn [length]. lia. }
  unfold parse_url_path.
  rewrite (decide_False (P := [last_digit] = [])) by done.
  by rewrite decide_False by (vm_compute; lia).
Qed.

Lemma parse_url_port_without_path_witness :
  parse_url (bs "http://" ++ bs "192.168.1.100" ++ ":"%byte :: bs "808"
             ++ ["0"%byte])
  = UrlOk (bs "192.168.1.100") (digits_value 0 (bs "808" ++ ["0"%byte]))
          ["0"%byte].
Proof.
  refine (parse_url_port_without_path (bs "192.168.1.100") (bs "808")
            "0"%byte _ _ _ _ _).
  - apply (bool_decide_unpack _). vm_compute. exact I.
  - apply (bool_decide_unpack _). vm_compute. exact I.
  - vm_compute. lia.
  - apply (bool_decide_unpack _). vm_compute. exact I.
  - vm_compute. split; [reflexivity|discriminate].
Defined.

Lemma strchr_None (s : list byte) (ch : byte) :
  strchr s ch = None → ch ∉ s.
Proof.
  unfold strchr. destruct (list_find _ s) as [[? ?]|] eqn:Hfind; [done|].
  intros _ Hin. rewrite list_find_None, Forall_forall in Hfind.
  by apply (Hfind ch Hin).
Qed.

Lemma not_in_take_le (l : list byte) (ch : byte) (i j : nat) :
  ch ∉ take j l → (i ≤ j)%nat → ch ∉ take i l.
Proof.
  intros Hnot Hle [k Hk]%list_elem_of_lookup. apply Hnot.
  apply lookup_take_Some in Hk as [Hk Hlt].
  apply (list_elem_of_lookup_2 _ k). rewrite lookup_take_lt by lia. done.
Qed.

Lemma not_in_take (l : list byte) (ch : byte) (i : nat) :
  ch ∉ l → ch ∉ take i l.
Proof.
  intros Hnot [k Hk]%list_elem_of_lookup. apply Hnot.
  apply lookup_take_Some in Hk as [Hk _]. by eapply list_elem_of_lookup_2.
Qed.

Lemma parse_url_path_fits (host : list byte) (port : Z) (p : list byte) :
  match parse_url_path host port p with
  | UrlOk host' port' path =>
      host' = host ∧ port' = port ∧ (1 ≤ length path < URL_PATH_SIZE)%nat
  | UrlError => False
  | UrlUndefined => True
  end.
Proof.
  unfold parse_url_path.
  destruct (decide (URL_PATH_SIZE ≤ length _)%nat) as [Hlen|Hlen]; [done|].
  split_and!; [done..| |lia].
  destruct (decide (p = [])) as [->|Hp]; [by vm_compute|].
  destruct p; [done|]. cbn [length]. lia.
Qed.

(** X21. What [parse_url] hands to its callers.  When it returns 0, the
    url starts with ["http://"] and the host, the host has fewer than 256
    characters and neither slash nor colon, the port is between 1 and
    65535, and the path has between 1 and 1023 characters: both strings
    fit the arrays of the callers.  A url that does not start with
    ["http://"] is refused. *)
Theorem parse_url_result_fits (url : list byte) :
  match parse_url url with
  | UrlOk host port path =>
      (bs "http://" ++ host) `prefix_of` url
      ∧ (length host < HOST_SIZE)%nat
      ∧ ("/"%byte ∉ host) ∧ (":"%byte ∉ host)
      ∧ (1 ≤ port ≤ 65535)
      ∧ (1 ≤ length path < URL_PATH_SIZE)%nat
  | _ => True
  end
  ∧ (¬ bs "http://" `prefix_of` url → parse_url url = UrlError).
Proof.
  unfold parse_url.
  destruct (decide (strncmp url (bs "http://") 7 = 0)) as [Hscheme|Hscheme];
    [|done].
  apply (strncmp_prefix url (bs "http://")) in Hscheme as [p ->];
    [|by apply (bool_decide_unpack _)].
  split; [|by intros []; apply prefix_app_r].
  rewrite drop_app_length' by done. cbv zeta.
  assert (∀ i port rest,
            (i < 256)%nat →
            ("/"%byte ∉ take i p) → (":"%byte ∉ take i p) →
            1 ≤ port ≤ 65535 →
            match parse_url_path (take i p) port rest with
            | UrlOk host port path =>
                (bs "http://" ++ host) `prefix_of` (bs "http://" ++ p)
                ∧ (length host < HOST_SIZE)%nat
                ∧ ("/"%byte ∉ host) ∧ (":"%byte ∉ host)
                ∧ (1 ≤ port ≤ 65535)
                ∧ (1 ≤ length path < URL_PATH_SIZE)%nat
            | _ => True
            end) as Hfits.
  { intros i port rest Hi Hs Hc Hport.
    pose proof (parse_url_path_fits (take i p) port rest) as Hpath.
    destruct (parse_url_path (take i p) port rest) as [|host port' path|];
      [done| |done].
    destruct Hpath as (-> & -> & Hplen).
    split_and!; try done; try lia.
    - apply prefix_app, prefix_take.
    - rewrite length_take. unfold HOST_SIZE. lia. }
  assert (∀ c rest,
            ("/"%byte ∉ take c p) → (":"%byte ∉ take c p) →
            match
              (if decide (256 ≤ c)%nat then UrlError
               else
                 match atoi (drop (S c) p) with
                 | None => UrlUndefined
                 | Some port =>
                     if decide (port ≤ 0 ∨ 65535 < port) then UrlError
                     else parse_url_path (take c p) port rest
                 end)
            with
            | UrlOk host port path =>
                (bs "http://" ++ host) `prefix_of` (bs "http://" ++ p)
                ∧ (length host < HOST_SIZE)%nat
                ∧ ("/"%byte ∉ host) ∧ (":"%byte ∉ host)
                ∧ (1 ≤ port ≤ 65535)
                ∧ (1 ≤ length path < URL_PATH_SIZE)%nat
            | _ => True
            end) as Hwith.
  { intros c rest Hs Hc.
    destruct (decide (256 ≤ c)%nat); [done|].
    destruct (atoi (drop (S c) p)) as [port|]; [|done].
    destruct (decide (port ≤ 0 ∨ 65535 < port)); [done|].
    apply Hfits; [lia|done|done|lia]. }
  destruct (strchr p ":"%byte) as [c|] eqn:Hcolon,
           (strchr p "/"%byte) as [s|] eqn:Hslash.
  - apply strchr_Some in Hcolon as (_ & Hc & _).
    apply strchr_Some in Hslash as (_ & Hs & _).
    destruct (decide (c < s)%nat).
    + apply Hwith; [|done]. apply (not_in_take_le p _ c s); [done|lia].
    + destruct (decide (256 ≤ s)%nat); [done|].
      apply Hfits; [lia|done| |lia].
      apply (not_in_take_le p _ s c); [done|lia].
  - apply strchr_Some in Hcolon as (_ & Hc & _).
    apply strchr_None in Hslash.
    apply Hwith; [|done]. by apply not_in_take.
  - apply strchr_Some in Hslash as (_ & Hs & _).
    apply strchr_None in Hcolon.
    destruct (decide (256 ≤ s)%nat); [done|].
    apply Hfits; [lia|done| |lia]. by apply not_in_take.
  - apply strchr_None in Hcolon. apply strchr_None in Hslash.
    destruct (decide (HOST_SIZE ≤ length p)%nat) as [|Hlen]; [done|].
    unfold HOST_SIZE in Hlen.
    pose proof (Hfits (length p) 80 (drop (length p) p)) as Hp.
    rewrite take_ge in Hp by done. apply Hp; [lia|done|done|lia].
Qed.

Lemma parse_url_path_undefined (host : list byte) (port : Z) (p : list byte) :
  parse_url_path host port p = UrlUndefined → (URL_PATH_SIZE ≤ length p)%nat.
Proof.
  unfold parse_url_path.
  destruct (decide (p = [])) as [->|Hp].
  - by rewrite decide_False by (vm_compute; lia).
  - by case_decide.
Qed.

(** X22. No overrun for a url that fits the configuration.  [parse_url]
    copies host and path with [strcpy], unchecked; for a url of at most 255
    characters, the size of [config.server_url], neither copy leaves its
    array: the only way out of defined behaviour is a port number that is
    not an [int]. *)
Theorem parse_url_no_overrun (url : list byte) :
  (length url ≤ 255)%nat →
  parse_url url = UrlUndefined →
  ∃ c, strchr (drop 7 url) ":"%byte = Some c
       ∧ atoi (drop (S c) (drop 7 url)) = None.
Proof.
  intros Hlen. unfold parse_url.
  destruct (decide (strncmp url (bs "http://") 7 = 0)); [|done].
  cbv zeta. set (p := drop 7 url).
  assert (length p ≤ 255)%nat as Hp by (unfold p; rewrite length_drop; lia).
  assert (∀ host port i, parse_url_path host port (drop i p) ≠ UrlUndefined)
    as Hpath.
  { intros host port i Hu%parse_url_path_undefined.
    rewrite length_drop in Hu. unfold URL_PATH_SIZE in Hu. lia. }
  assert (∀ c rest_at,
            (if decide (256 ≤ c)%nat then UrlError
             else
               match atoi (drop (S c) p) with
               | None => UrlUndefined
               | Some port =>
                   if decide (port ≤ 0 ∨ 65535 < port) then UrlError
                   else parse_url_path (take c p) port (drop rest_at p)
               end) = UrlUndefined →
            atoi (drop (S c) p) = None) as Hwith.
  { intros c rest_at. destruct (decide (256 ≤ c)%nat); [done|].
    destruct (atoi (drop (S c) p)) as [port|]; [|done].
    destruct (decide (port ≤ 0 ∨ 65535 < port)); [done|].
    by intros ?%Hpath. }
  assert (∀ s, (if decide (256 ≤ s)%nat then UrlError
                else parse_url_path (take s p) 80 (drop s p)) ≠ UrlUndefined)
    as Hwithout.
  { intros s. destruct (decide (256 ≤ s)%nat); [done|]. apply Hpath. }
  destruct (strchr p ":"%byte) as [c|], (strchr p "/"%byte) as [s|].
  - destruct (decide (c < s)%nat).
    + intros ?%Hwith. eauto.
    + by intros ?%Hwithout.
  - intros ?%Hwith. eauto.
  - by intros ?%Hwithout.
  - destruct (decide (HOST_SIZE ≤ length p)%nat) as [Hh|Hh].
    + unfold HOST_SIZE in Hh. lia.
    + by intros ?%Hpath.
Qed.

Lemma parse_url_no_overrun_witness :
  ∃ c, strchr (drop 7 (bs "http://server:99999999999/upload")) ":"%byte
       = Some c
       ∧ atoi (drop (S c) (drop 7 (bs "http://server:99999999999/upload")))
         = None.
Proof.
  refine (parse_url_no_overrun (bs "http://server:99999999999/upload") _ _).
  - vm_compute. lia.
  - vm_compute. reflexivity.
Defined.

(** ** metadata_parser.c: the metadata files *)

Lemma prefix_take_eq (needle s : list byte) :
  needle `prefix_of` s ↔ take (length needle) s = needle.
Proof.
  split.
  - intros [t ->]. apply take_app_length.
  - intros <-. apply prefix_take.
Qed.

Lemma take_needle_window (l needle rest : list byte) :
  (0 < length l)%nat →
  take (length needle) (l ++ needle ++ rest)
  = take (length needle) (l ++ take (length needle - 1) needle).
Proof.
  intros Hl. rewrite !take_app. f_equal.
  rewrite take_take.
  rewrite Nat.min_l by lia.
  replace (length needle - length l - length needle)%nat with O by lia.
  by rewrite take_0, app_nil_r.
Qed.

Lemma strstr_first (pre needle rest : list byte) :
  strstr (pre ++ take (length needle - 1) needle) needle = None →
  strstr (pre ++ needle ++ rest) needle = Some (length pre).
Proof.
  induction pre as [|b pre IH]; intros Hnone.
  - cbn [app]. destruct (needle ++ rest) eqn:Heq; cbn [strstr];
      rewrite bool_decide_true; try done; rewrite <- Heq;
      by apply prefix_app_r.
  - cbn [app strstr] in Hnone |- *.
    case_bool_decide as Hp1; [done|].
    destruct (strstr (pre ++ take (length needle - 1) needle) needle)
      as [j|] eqn:Hj; [done|].
    rewrite bool_decide_false; [by rewrite IH|].
    intros Hp2. apply Hp1.
    apply prefix_take_eq. apply prefix_take_eq in Hp2.
    pose proof (take_needle_window (b :: pre) needle rest
                  ltac:(cbn [length]; lia)) as Hw.
    exact (eq_trans (eq_sym Hw) Hp2).
Qed.

Lemma skip_json_space_app (spaces rest : list byte) :
  Forall (λ b, b ∈ [" "%byte; x09; x0a; x0d]) spaces →
  match rest with
  | b :: _ => b ∉ [" "%byte; x09; x0a; x0d]
  | [] => True
  end →
  skip_json_space (spaces ++ rest) = rest.
Proof.
  intros Hsp Hrest. induction Hsp as [|b spaces Hb Hsp IH].
  - destruct rest as [|b rest]; [done|]. cbn [app skip_json_space].
    by rewrite bool_decide_false.
  - cbn [app skip_json_space]. by rewrite bool_decide_true.
Qed.

Lemma length_take_token (n : nat) (s : list byte) :
  (length (take_token n s) ≤ n)%nat.
Proof.
  revert s. induction n as [|n IH]; intros [|b s]; cbn [take_token length];
    try lia.
  case_bool_decide; cbn [length]; [lia|]. specialize (IH s). lia.
Qed.

Lemma read_json_value_fits (json key found : list byte) (value_size : nat) :
  (0 < value_size)%nat →
  read_json_value json key value_size = Some found →
  (length found < value_size)%nat.
Proof.
  intros Hsize. unfold read_json_value.
  destruct (strstr json _) as [key_pos|]; [|done].
  cbn [mbind option_bind].
  destruct (strchr _ ":"%byte) as [colon|]; [|done].
  cbn [mbind option_bind].
  set (p := skip_json_space _).
  destruct (decide (char_at p 0 = quote)).
  - destruct (strchr (drop 1 p) quote) as [end_pos|]; [|done].
    cbn [mbind option_bind]. intros [= <-]. rewrite length_take.
    case_decide; lia.
  - destruct (decide (char_at p 0 = "n"%byte ∧ _)).
    + intros [= <-]. cbn [length]. lia.
    + case_decide; [|done]. intros [= <-].
      pose proof (length_take_token (value_size - 1) p). lia.
Qed.

(** X23. [read_json_value] finds a string value and never fills more than
    its buffer.  When the quoted key first occurs behind [before], followed
    (after anything without a colon) by a colon, white space and a quoted
    string, the call returns that string, cut to [value_size - 1]
    characters; and whatever the text, a value it returns has fewer
    characters than [value_size]. *)
Theorem read_json_value_string (before key gap spaces value rest : list byte)
    (value_size : nat) :
  (0 < value_size)%nat →
  (length key ≤ 253)%nat →
  strstr (before ++ quote :: key) (quote :: key ++ [quote]) = None →
  (":"%byte ∉ gap) →
  Forall (λ b, b ∈ [" "%byte; x09; x0a; x0d]) spaces →
  (quote ∉ value) →
  let json :=
    before ++ (quote :: key ++ [quote])
    ++ gap ++ ":"%byte :: spaces ++ quote :: value ++ quote :: rest in
  read_json_value json key value_size = Some (take (value_size - 1) value)
  ∧ ∀ json' key' found,
      read_json_value json' key' value_size = Some found →
      (length found < value_size)%nat.
Proof.
  intros Hsize Hkey Hfirst Hgap Hspaces Hvalue. cbv zeta. split.
  - unfold read_json_value.
    assert (take 255 ([quote] ++ key ++ [quote]) = quote :: key ++ [quote])
      as -> by (apply take_ge; cbn [app length]; rewrite length_app;
                cbn [length]; lia).
    set (K := quote :: key ++ [quote]).
    set (R := gap ++ ":"%byte :: spaces ++ quote :: value ++ quote :: rest).
    rewrite (strstr_first before K R).
    2: { unfold K. cbn [length]. rewrite length_app. cbn [length].
         replace (S (length key + 1) - 1)%nat with (S (length key)) by lia.
         cbn [take]. by rewrite take_app_length. }
    cbn [mbind option_bind].
    assert (drop (length before + length K) (before ++ K ++ R) = R) as ->
      by (rewrite app_assoc; apply drop_app_length'; rewrite length_app; lia).
    unfold R. rewrite (strchr_first gap _ ":"%byte Hgap).
    cbn [mbind option_bind].
    rewrite (cons_middle ":"%byte gap), app_assoc.
    rewrite drop_app_length' by (rewrite length_app; cbn [length]; lia).
    rewrite (skip_json_space_app spaces);
      [|done|by apply (bool_decide_unpack _)].
    rewrite decide_True by done.
    cbv zeta. cbn [drop]. rewrite !drop_0.
    rewrite (strchr_first value rest quote Hvalue).
    cbn [mbind option_bind]. f_equal.
    destruct (decide (value_size ≤ length value)%nat) as [Hle|Hgt].
    + rewrite take_app_le by lia. done.
    + rewrite take_app_length. rewrite take_ge by lia. done.
  - intros json' key' found. by apply read_json_value_fits.
Qed.

Lemma read_json_value_string_witness :
  let json :=
    bs "{" ++ (quote :: bs "visibleName" ++ [quote])
    ++ [] ++ ":"%byte :: bs " " ++ quote :: bs "Notes" ++ quote :: bs "}" in
  read_json_value json (bs "visibleName") 256
  = Some (take (256 - 1) (bs "Notes"))
  ∧ ∀ json' key' found,
      read_json_value json' key' 256 = Some found →
      (length found < 256)%nat.
Proof.
  refine (read_json_value_string (bs "{") (bs "visibleName") [] (bs " ")
            (bs "Notes") (bs "}") 256 _ _ _ _ _ _).
  - lia.
  - vm_compute. lia.
  - vm_compute. reflexivity.
  - apply not_elem_of_nil.
  - apply (bool_decide_unpack _). vm_compute. exact I.
  - apply (bool_decide_unpack _). vm_compute. exact I.
Defined.

Lemma skip_json_space_subset (s : list byte) (b : byte) :
  b ∈ skip_json_space s → b ∈ s.
Proof.
  induction s as [|c s IH]; [done|]. cbn [skip_json_space].
  case_bool_decide; [|done]. intros Hin. right. by apply IH.
Qed.

Lemma take_token_subset (n : nat) (s : list byte) (b : byte) :
  b ∈ take_token n s → b ∈ s.
Proof.
  revert s. induction n as [|n IH]; intros [|c s]; cbn [take_token];
    try by intros ?%elem_of_nil.
  case_bool_decide; [by intros ?%elem_of_nil|].
  intros [->|Hin]%elem_of_cons; [by left|]. right. by apply IH.
Qed.

Lemma elem_of_drop (l : list byte) (b : byte) (i : nat) :
  b ∈ drop i l → b ∈ l.
Proof.
  intros [k Hk]%list_elem_of_lookup. rewrite lookup_drop in Hk.
  by eapply list_elem_of_lookup_2.
Qed.

Lemma elem_of_take (l : list byte) (b : byte) (i : nat) :
  b ∈ take i l → b ∈ l.
Proof.
  intros [k Hk]%list_elem_of_lookup. apply lookup_take_Some in Hk as [Hk _].
  by eapply list_elem_of_lookup_2.
Qed.

Lemma read_json_value_subset (json key found : list byte) (value_size : nat)
    (b : byte) :
  read_json_value json key value_size = Some found → b ∈ found → b ∈ json.
Proof.
  unfold read_json_value.
  destruct (strstr json _) as [key_pos|]; [|done].
  cbn [mbind option_bind].
  destruct (strchr _ ":"%byte) as [colon|]; [|done].
  cbn [mbind option_bind].
  set (p := skip_json_space _).
  assert (b ∈ p → b ∈ json) as Hp.
  { intros Hin%skip_json_space_subset. by do 2 apply elem_of_drop in Hin. }
  destruct (decide (char_at p 0 = quote)).
  - destruct (strchr (drop 1 p) quote) as [end_pos|]; [|done].
    cbn [mbind option_bind]. intros [= <-] Hin.
    by apply Hp, (elem_of_drop _ _ 1), (elem_of_take _ _ _ Hin).
  - destruct (decide (char_at p 0 = "n"%byte ∧ _)).
    + by intros [= <-] ?%elem_of_nil.
    + case_decide; [|done]. intros [= <-] Hin.
      by apply Hp, (take_token_subset _ _ _ Hin).
Qed.

Lemma read_metadata_file_fits (fs : filesystem) (id : list byte)
    (info : metadata_info_t) :
  read_metadata_file fs id = Some info →
  (length (visible_name info) < 256)%nat ∧ (x00 ∉ visible_name info)
  ∧ (length (parent info) < 37)%nat ∧ parent info ≠ bs "trash"
  ∧ (length (meta_doc_id info) ≤ UUID_LEN)%nat
  ∧ (∀ t, type info = Some t → (length t < 32)%nat).
Proof.
  unfold read_metadata_file.
  destruct (fs !! metadata_path id) as [content|]; [|done].
  case_decide; [done|]. intros [= <-]. cbn [visible_name parent meta_doc_id type].
  set (json := cstr (take 4095 content)).
  split_and!.
  - destruct (read_json_value json (bs "visibleName") 256) as [v|] eqn:Hv.
    + cbn [default]. unfold Datatypes.id.
      apply read_json_value_fits in Hv; lia.
    + vm_compute. lia.
  - destruct (read_json_value json (bs "visibleName") 256) as [v|] eqn:Hv.
    + cbn [default]. unfold Datatypes.id. intros Hin.
      apply (read_json_value_subset _ _ _ _ _ Hv) in Hin.
      by apply cstr_no_nul in Hin.
    + by apply (bool_decide_unpack _).
  - case_decide; [cbn [length]; lia|].
    destruct (read_json_value json (bs "parent") 37) as [v|] eqn:Hv.
    + cbn [default]. unfold Datatypes.id.
      apply read_json_value_fits in Hv; lia.
    + cbn [default length]. lia.
  - by case_decide.
  - rewrite length_take. lia.
  - intros t Ht. apply read_json_value_fits in Ht; lia.
Qed.

(** X24. What [read_metadata_file] hands on.  Without a metadata file, or
    with an empty one, the call fails.  When it succeeds, the name has fewer
    than 256 characters, the parent fewer than 37 and is never ["trash"],
    the type fewer than 32: every field fits its array, and the name fits a
    row of [path_parts]. *)
Theorem read_metadata_file_result (fs : filesystem) (id : list byte) :
  match read_metadata_file fs id with
  | Some info =>
      (∃ content, fs !! metadata_path id = Some content ∧ content ≠ [])
      ∧ (length (visible_name info) < 256)%nat
      ∧ (length (parent info) < 37)%nat ∧ parent info ≠ bs "trash"
      ∧ meta_doc_id info = take UUID_LEN id
      ∧ (∀ t, type info = Some t → (length t < 32)%nat)
  | None => fs !! metadata_path id = None ∨ fs !! metadata_path id = Some []
  end.
Proof.
  destruct (read_metadata_file fs id) as [info|] eqn:Hread.
  - destruct (read_metadata_file_fits fs id info Hread)
      as (Hname & _ & Hparent & Htrash & _ & Htype).
    split_and!; [|done..| |done].
    + revert Hread. unfold read_metadata_file.
      destruct (fs !! metadata_path id) as [content|]; [|done].
      case_decide as Hlen; [done|]. intros _. exists content. split; [done|].
      intros ->. by apply Hlen.
    + revert Hread. unfold read_metadata_file.
      destruct (fs !! metadata_path id) as [content|]; [|done].
      case_decide; [done|]. by intros [= <-].
  - revert Hread. unfold read_metadata_file.
    destruct (fs !! metadata_path id) as [content|]; [|by left].
    case_decide as Hlen; [|done]. intros _. right. f_equal.
    rewrite length_take in Hlen. destruct content; [done|].
    cbn [length] in Hlen. lia.
Qed.

(** ** metadata_parser.c: the virtual path *)

Lemma build_path_from_names (fs : filesystem) (remaining : nat)
    (id : list byte) (path_parts : list (list byte)) (depth : nat) :
  (depth + remaining ≤ length path_parts)%nat →
  let result := build_path_from fs remaining id path_parts depth in
  let names := folder_names fs remaining id in
  result.1 = (depth + length names)%nat
  ∧ (length names ≤ remaining)%nat
  ∧ length result.2 = length path_parts
  ∧ (∀ i, (i < length names)%nat → result.2 !! (depth + i)%nat = names !! i)
  ∧ (∀ i, (i < depth)%nat → result.2 !! i = path_parts !! i).
Proof.
  revert id path_parts depth.
  induction remaining as [|remaining IH]; intros id parts depth Hlen;
    cbv zeta; cbn [build_path_from folder_names].
  { cbn [fst snd length]. split_and!; [lia|lia|done|intros; lia|done]. }
  destruct (decide (id = [])).
  { cbn [fst snd length]. split_and!; [lia|lia|done|intros; lia|done]. }
  destruct (read_metadata_file fs id) as [info|].
  2: { cbn [fst snd length]. split_and!; [lia|lia|done|intros; lia|done]. }
  cbv zeta. destruct (decide (parent info ≠ [])).
  - destruct (IH (parent info) (<[depth := visible_name info]> parts)
                (S depth)) as (H1 & H2 & H3 & H4 & H5).
    { rewrite length_insert. lia. }
    cbn [length]. split_and!.
    + lia.
    + lia.
    + by rewrite H3, length_insert.
    + intros [|i] Hi.
      * rewrite Nat.add_0_r, H5 by lia.
        rewrite list_lookup_insert_eq by lia. done.
      * replace (depth + S i)%nat with (S depth + i)%nat by lia.
        rewrite H4 by lia. done.
    + intros i Hi. rewrite H5 by lia.
      by rewrite list_lookup_insert_ne by lia.
  - cbn [fst snd length]. split_and!.
    + lia.
    + lia.
    + by rewrite length_insert.
    + intros [|i] Hi; [|lia].
      rewrite Nat.add_0_r, list_lookup_insert_eq by lia. done.
    + intros i Hi. by rewrite list_lookup_insert_ne by lia.
Qed.

Lemma foldl_rows (parts names : list (list byte)) :
  (∀ i, (i < length names)%nat → parts !! i = names !! i) →
  foldl (λ acc i, append_part acc (parts !!! i)) []
        (reverse (seq 0 (length names)))
  = foldl append_part [] (reverse names).
Proof.
  intros Hrows.
  assert ((λ i, parts !!! i) <$> seq 0 (length names) = names) as Hmap.
  { apply list_eq. intros i. rewrite list_lookup_fmap.
    destruct (decide (i < length names)%nat) as [Hlt|Hge].
    - rewrite lookup_seq_lt by done. cbn.
      destruct (lookup_lt_is_Some_2 names i Hlt) as [x Hx].
      rewrite Hx. f_equal. apply list_lookup_total_correct.
      by rewrite Hrows.
    - rewrite lookup_seq_ge by lia. cbn.
      symmetry. apply lookup_ge_None. lia. }
  rewrite <- Hmap at 2. rewrite <- fmap_reverse.
  generalize (reverse (seq 0 (length names))). generalize (@nil byte).
  intros acc l. revert acc. induction l as [|i l IH]; intros acc; [done|].
  cbn [foldl fmap list_fmap]. apply IH.
Qed.

Lemma reconstruct_by_names (fs : filesystem) (path_parts : list (list byte))
    (id : list byte) (page_num : option (list byte)) :
  length path_parts = MAX_PATH_DEPTH →
  MetadataParser.reconstruct_virtual_path fs path_parts id page_num
  = match read_metadata_file fs id with
    | None => PathError
    | Some doc_meta =>
        let names :=
          if decide (parent doc_meta ≠ [])
          then folder_names fs MAX_PATH_DEPTH (parent doc_meta) else [] in
        let path :=
          append_part (foldl append_part [] (reverse names))
                      (visible_name doc_meta) in
        if decide (PATH_MAX ≤ length path)%nat then PathUndefined
        else
          PathOk (mkPathInfo path (take 255 (visible_name doc_meta))
                    (match page_num with
                     | Some s =>
                         if decide (s ≠ []) then take 63 (bs "Page " ++ s)
                         else []
                     | None => []
                     end))
    end.
Proof.
  intros Hlen. unfold MetadataParser.reconstruct_virtual_path.
  destruct (read_metadata_file fs id) as [doc_meta|]; [|done].
  destruct (decide (parent doc_meta ≠ [])); [|done].
  unfold build_path_recursive. rewrite Nat.sub_0_r.
  destruct (build_path_from_names fs MAX_PATH_DEPTH (parent doc_meta)
              path_parts 0) as (H1 & _ & _ & H4 & _); [lia|].
  destruct (build_path_from fs MAX_PATH_DEPTH (parent doc_meta) path_parts 0)
    as [num_parts parts]. cbn [fst snd Nat.add] in *. subst num_parts.
  cbv zeta. by rewrite (foldl_rows parts _ H4).
Qed.

(** X25. The virtual path does not depend on the stack.
    [reconstruct_virtual_path] reads only rows of [path_parts] that
    [build_path_recursive] has written: whatever the array of 32 rows held
    before, the result is the same. *)
Theorem reconstruct_ignores_stack (fs : filesystem)
    (path_parts path_parts' : list (list byte)) (id : list byte)
    (page_num : option (list byte)) :
  length path_parts = MAX_PATH_DEPTH → length path_parts' = MAX_PATH_DEPTH →
  MetadataParser.reconstruct_virtual_path fs path_parts id page_num
  = MetadataParser.reconstruct_virtual_path fs path_parts' id page_num.
Proof. intros H1 H2. by rewrite !reconstruct_by_names. Qed.

Lemma reconstruct_ignores_stack_witness :
  MetadataParser.reconstruct_virtual_path tablet_fs (replicate 32 []) doc_a
    (Some (bs "3"))
  = MetadataParser.reconstruct_virtual_path tablet_fs
      (replicate 32 (bs "x")) doc_a (Some (bs "3")).
Proof.
  refine (reconstruct_ignores_stack tablet_fs (replicate 32 [])
            (replicate 32 (bs "x")) doc_a (Some (bs "3")) _ _); reflexivity.
Defined.

Lemma ancestors_names (fs : filesystem) (id : list byte)
    (names : list (list byte)) (remaining : nat) :
  ancestors fs id names → (length names ≤ remaining)%nat →
  folder_names fs remaining id = names.
Proof.
  intros Hanc. revert remaining.
  induction Hanc as [id info Hid Hread Hparent
                    |id info names Hid Hread Hparent Hanc IH];
    intros [|remaining] Hlen; cbn [length] in Hlen; try lia;
    cbn [folder_names]; rewrite decide_False, Hread by done.
  - by rewrite decide_False by (by intros []).
  - rewrite decide_True by done. f_equal. apply IH. lia.
Qed.

Lemma ancestors_fit (fs : filesystem) (id : list byte)
    (names : list (list byte)) :
  ancestors fs id names →
  names ≠ [] ∧ Forall (λ name, x00 ∉ name) names.
Proof.
  induction 1 as [id info Hid Hread Hparent
                 |id info names Hid Hread Hparent Hanc [_ IH]].
  - split; [done|]. constructor; [|done].
    by apply read_metadata_file_fits in Hread as (_ & ? & _).
  - split; [done|]. constructor; [|done].
    by apply read_metadata_file_fits in Hread as (_ & ? & _).
Qed.

Lemma join_path_snoc (parts : list (list byte)) (part : list byte) :
  parts ≠ [] → join_path (parts ++ [part]) = join_path parts ++ bs "/" ++ part.
Proof.
  induction parts as [|x parts IH]; [done|]. intros _.
  destruct parts as [|y parts]; [done|].
  change (join_path ((x :: y :: parts) ++ [part]))
    with (x ++ bs "/" ++ join_path ((y :: parts) ++ [part])).
  rewrite IH by done.
  change (join_path (x :: y :: parts))
    with (x ++ bs "/" ++ join_path (y :: parts)).
  by rewrite <- !app_assoc.
Qed.

Lemma join_path_nonempty (parts : list (list byte)) :
  parts ≠ [] → Forall (λ part, part ≠ []) parts → join_path parts ≠ [].
Proof.
  intros Hne Hall. destruct Hall as [|x parts Hx Hall]; [done|].
  destruct parts; cbn [join_path]; [done|].
  destruct x; [done|]. done.
Qed.

Lemma foldl_append_part (parts : list (list byte)) :
  Forall (λ part, part ≠ []) parts →
  foldl append_part [] parts = join_path parts.
Proof.
  induction parts as [|part parts IH] using rev_ind; [done|].
  intros [Hparts Hpart]%Forall_app. rewrite foldl_app. cbn [foldl].
  rewrite IH by done. unfold append_part.
  destruct parts as [|x parts].
  - by rewrite decide_False by (by intros []).
  - rewrite decide_True by (by apply join_path_nonempty).
    rewrite join_path_snoc by done. by rewrite <- app_assoc.
Qed.

(** X26. The virtual path of a document in its folders.  When the chain
    of parents of the document leads through at most 32 folders to one
    without parent, and the folders have non-empty names, the full path is
    the names of the folders from the top down and the name of the
    document, with a slash between each two; a document without parent has
    its name as its path.  (A path of fewer than 4096 characters.) *)
Theorem reconstruct_path_of_chain (fs : filesystem)
    (path_parts : list (list byte)) (id : list byte)
    (page_num : option (list byte)) (doc_meta : metadata_info_t)
    (names : list (list byte)) :
  length path_parts = MAX_PATH_DEPTH →
  read_metadata_file fs id = Some doc_meta →
  (if decide (parent doc_meta = []) then names = []
   else ancestors fs (parent doc_meta) names) →
  (length names ≤ MAX_PATH_DEPTH)%nat →
  Forall (λ name, name ≠ []) names →
  let path :=
    match names with
    | [] => visible_name doc_meta
    | _ => join_path (reverse names) ++ bs "/" ++ visible_name doc_meta
    end in
  (length path < PATH_MAX)%nat →
  ∃ info,
    MetadataParser.reconstruct_virtual_path fs path_parts id page_num
    = PathOk info
    ∧ full_path info = path
    ∧ document_name info = visible_name doc_meta.
Proof.
  intros Hlen Hread Hchain Hdepth Hnames. cbv zeta. intros Hpath.
  rewrite reconstruct_by_names, Hread by done. cbv zeta.
  assert ((if decide (parent doc_meta ≠ [])
           then folder_names fs MAX_PATH_DEPTH (parent doc_meta) else [])
          = names) as ->.
  { destruct (decide (parent doc_meta = [])) as [Hp|Hp].
    - by rewrite decide_False by (by intros []).
    - rewrite decide_True by done. by apply ancestors_names. }
  rewrite foldl_append_part by (by apply Forall_reverse).
  assert (append_part (join_path (reverse names)) (visible_name doc_meta)
          = match names with
            | [] => visible_name doc_meta
            | _ => join_path (reverse names) ++ bs "/" ++ visible_name doc_meta
            end) as ->.
  { unfold append_part. destruct names as [|name names].
    - by rewrite decide_False by (by intros []).
    - rewrite decide_True; [by rewrite <- app_assoc|].
      apply join_path_nonempty; [|by apply Forall_reverse].
      intros Hr%(f_equal length). rewrite length_reverse in Hr. done. }
  rewrite decide_False by lia.
  eexists. split; [done|]. cbn [full_path document_name]. split; [done|].
  apply take_ge.
  apply read_metadata_file_fits in Hread as (? & _). lia.
Qed.

Example tablet_metadata :
  read_metadata_file tablet_fs doc_a
  = Some (mkMeta doc_a (bs "Notes") folder_projects (Some (bs "DocumentType")))
  ∧ read_metadata_file tablet_fs folder_projects
    = Some (mkMeta folder_projects (bs "Projects") folder_work
              (Some (bs "CollectionType")))
  ∧ read_metadata_file tablet_fs folder_work
    = Some (mkMeta folder_work (bs "Work") [] (Some (bs "CollectionType"))).
Proof. vm_compute. split_and!; reflexivity. Qed.

Lemma tablet_ancestors :
  ancestors tablet_fs folder_projects [bs "Projects"; bs "Work"].
Proof.
  apply (ancestors_step tablet_fs folder_projects
           (mkMeta folder_projects (bs "Projects") folder_work
              (Some (bs "CollectionType"))) [bs "Work"]).
  - discriminate.
  - vm_compute. reflexivity.
  - discriminate.
  - apply (ancestors_top tablet_fs folder_work
             (mkMeta folder_work (bs "Work") [] (Some (bs "CollectionType")))).
    + discriminate.
    + vm_compute. reflexivity.
    + reflexivity.
Defined.

Lemma reconstruct_path_of_chain_witness :
  ∃ info,
    MetadataParser.reconstruct_virtual_path tablet_fs (replicate 32 []) doc_a
      (Some (bs "3"))
    = PathOk info
    ∧ full_path info = join_path (reverse [bs "Projects"; bs "Work"])
                       ++ bs "/" ++ bs "Notes"
    ∧ document_name info = bs "Notes".
Proof.
  refine (reconstruct_path_of_chain tablet_fs (replicate 32 []) doc_a
            (Some (bs "3"))
            (mkMeta doc_a (bs "Notes") folder_projects
               (Some (bs "DocumentType")))
            [bs "Projects"; bs "Work"] _ _ _ _ _ _).
  - reflexivity.
  - vm_compute. reflexivity.
  - exact tablet_ancestors.
  - vm_compute. lia.
  - apply (bool_decide_unpack _). vm_compute. exact I.
  - vm_compute. lia.
Defined.

Lemma join_path_app (front back : list (list byte)) :
  front ≠ [] → back ≠ [] →
  join_path (front ++ back) = join_path front ++ bs "/" ++ join_path back.
Proof.
  intros Hf Hb. induction front as [|x front IH]; [done|].
  destruct front as [|y front].
  - destruct back; [done|]. done.
  - change (join_path ((x :: y :: front) ++ back))
      with (x ++ bs "/" ++ join_path ((y :: front) ++ back)).
    rewrite IH by done.
    change (join_path (x :: y :: front))
      with (x ++ bs "/" ++ join_path (y :: front)).
    by rewrite <- !app_assoc.
Qed.

Lemma join_path_no_nul (parts : list (list byte)) :
  Forall (λ part, x00 ∉ part) parts → x00 ∉ join_path parts.
Proof.
  induction 1 as [|x parts Hx Hparts IH]; [apply not_elem_of_nil|].
  destruct parts as [|y parts]; [done|].
  change (join_path (x :: y :: parts))
    with (x ++ bs "/" ++ join_path (y :: parts)).
  rewrite !not_elem_of_app. split_and!; [done| |done].
  by apply (bool_decide_unpack _).
Qed.

Lemma under_prefix (filter rest : list byte) :
  x00 ∉ filter →
  is_under_shared_path (filter ++ bs "/" ++ rest) filter = true.
Proof.
  intros Hnul. unfold is_under_shared_path.
  destruct (decide (filter = bs "*")); [done|].
  rewrite decide_False.
  - unfold char_at.
    rewrite (list_lookup_total_middle filter (rest) "/"%byte) by done.
    by rewrite decide_True by (by right).
  - intros Hne. apply Hne. apply strncmp_prefix; [done|].
    by apply prefix_app_r.
Qed.

(** X27. A document is under each of its folders.  For a document in a
    chain of at most 32 folders with non-empty names, the full path that
    [reconstruct_virtual_path] builds passes [is_under_shared_path] for the
    path of every folder of the chain: the top folder, the top folder and
    the next, and so on. *)
Theorem document_under_its_folders (fs : filesystem)
    (path_parts : list (list byte)) (id : list byte)
    (page_num : option (list byte)) (doc_meta : metadata_info_t)
    (names : list (list byte)) (k : nat) :
  length path_parts = MAX_PATH_DEPTH →
  read_metadata_file fs id = Some doc_meta →
  parent doc_meta ≠ [] → ancestors fs (parent doc_meta) names →
  (length names ≤ MAX_PATH_DEPTH)%nat →
  Forall (λ name, name ≠ []) names →
  (length (join_path (reverse names) ++ bs "/" ++ visible_name doc_meta)
   < PATH_MAX)%nat →
  (0 < k ≤ length names)%nat →
  ∃ info,
    MetadataParser.reconstruct_virtual_path fs path_parts id page_num
    = PathOk info
    ∧ is_under_shared_path (full_path info)
        (join_path (take k (reverse names))) = true.
Proof.
  intros Hlen Hread Hparent Hanc Hdepth Hnames Hpath Hk.
  destruct (ancestors_fit fs _ _ Hanc) as [Hne Hnul].
  rewrite reconstruct_by_names, Hread by done. cbv zeta.
  rewrite (decide_True (P := parent doc_meta ≠ [])) by done.
  rewrite (ancestors_names fs _ names MAX_PATH_DEPTH Hanc Hdepth).
  rewrite foldl_append_part by (by apply Forall_reverse).
  assert (length (reverse names) = length names) as Hrl
    by apply length_reverse.
  assert (join_path (reverse names) ≠ []) as Hjoin.
  { apply join_path_nonempty; [|by apply Forall_reverse].
    intros Hr. rewrite Hr in Hrl. destruct names; [done|]. done. }
  unfold append_part.
  rewrite (decide_True (P := join_path (reverse names) ≠ [])) by done.
  rewrite <- app_assoc. rewrite decide_False by lia.
  eexists. split; [done|]. cbn [full_path].
  assert (x00 ∉ join_path (take k (reverse names))) as Hfilter.
  { apply join_path_no_nul, Forall_take. by apply Forall_reverse. }
  destruct (decide (k = length names)) as [->|Hlt].
  - rewrite <- Hrl, firstn_all in Hfilter |- *. by apply under_prefix.
  - rewrite <- (take_drop k (reverse names)) at 1.
    rewrite join_path_app.
    + rewrite <- !app_assoc. by apply under_prefix.
    + intros Ht%(f_equal length). rewrite length_take in Ht.
      cbn [length] in Ht. lia.
    + intros Hd%(f_equal length). rewrite length_drop in Hd.
      cbn [length] in Hd. lia.
Qed.

Lemma document_under_its_folders_witness :
  ∃ info,
    MetadataParser.reconstruct_virtual_path tablet_fs (replicate 32 []) doc_a
      (Some (bs "3"))
    = PathOk info
    ∧ is_under_shared_path (full_path info)
        (join_path (take 1 (reverse [bs "Projects"; bs "Work"]))) = true.
Proof.
  refine (document_under_its_folders tablet_fs (replicate 32 []) doc_a
            (Some (bs "3"))
            (mkMeta doc_a (bs "Notes") folder_projects
               (Some (bs "DocumentType")))
            [bs "Projects"; bs "Work"] 1 _ _ _ _ _ _ _ _).
  - reflexivity.
  - vm_compute. reflexivity.
  - discriminate.
  - exact tablet_ancestors.
  - vm_compute. lia.
  - apply (bool_decide_unpack _). vm_compute. exact I.
  - vm_compute. lia.
  - vm_compute. lia.
Defined.

(** ** watcher.c: extract_document_id *)

Lemma strrchr_none (s : list byte) (ch : byte) :
  ch ∉ s → strrchr s ch = None.
Proof.
  induction s as [|b s IH]; [done|].
  intros [Hb Hs]%not_elem_of_cons. cbn [strrchr].
  rewrite IH by done. by rewrite decide_False.
Qed.

Lemma strrchr_last (front back : list byte) (ch : byte) :
  ch ∉ back → strrchr (front ++ ch :: back) ch = Some (length front).
Proof.
  intros Hback. induction front as [|b front IH].
  - cbn [app strrchr length]. rewrite strrchr_none by done.
    by rewrite decide_True.
  - cbn [app strrchr length]. by rewrite IH.
Qed.

(** X28. The file name of a path that names a document.  Whatever
    directories come before the last slash, [extract_document_id] returns
    the file name behind it when that name starts with a uuid (36
    characters with hyphens at offsets 8, 13, 18 and 23), and the first 36
    characters of the result, which the caller copies, are that uuid.  A
    file name of fewer than 36 characters is refused. *)
Theorem extract_document_id_of_file (dir id ext : list byte) :
  ("/"%byte ∉ id ++ ext) →
  length id = UUID_LEN →
  id !! 8%nat = Some "-"%byte → id !! 13%nat = Some "-"%byte →
  id !! 18%nat = Some "-"%byte → id !! 23%nat = Some "-"%byte →
  extract_document_id (dir ++ "/"%byte :: id ++ ext) = Some (id ++ ext)
  ∧ extract_document_id (id ++ ext) = Some (id ++ ext)
  ∧ take UUID_LEN (id ++ ext) = id
  ∧ ∀ short, ("/"%byte ∉ short) → (length short < UUID_LEN)%nat →
      extract_document_id (dir ++ "/"%byte :: short) = None.
Proof.
  intros Hslash Hlen H8 H13 H18 H23.
  assert (∀ i, (i < UUID_LEN)%nat → id !! i = Some "-"%byte →
               char_at (id ++ ext) i = "-"%byte) as Hchar.
  { intros i Hi Hid. unfold char_at. apply list_lookup_total_correct.
    by rewrite lookup_app_l by lia. }
  assert (∀ path,
            (match strrchr path "/"%byte with
             | None => path
             | Some i => drop (S i) path
             end) = id ++ ext →
            extract_document_id path = Some (id ++ ext)) as Hname.
  { intros path Hfile. unfold extract_document_id. rewrite Hfile.
    rewrite decide_True by (rewrite length_app; lia).
    rewrite decide_True; [done|].
    unfold UUID_LEN in *. split_and!; apply Hchar; (lia || done). }
  split_and!.
  - apply Hname. rewrite strrchr_last by done.
    rewrite (cons_middle "/"%byte dir), app_assoc.
    apply drop_app_length'. rewrite length_app. cbn [length]. lia.
  - apply Hname. by rewrite strrchr_none.
  - rewrite <- Hlen. apply take_app_length.
  - intros short Hs Hshort. unfold extract_document_id.
    rewrite strrchr_last by done.
    rewrite (cons_middle "/"%byte dir), app_assoc.
    rewrite drop_app_length' by (rewrite length_app; cbn [length]; lia).
    by rewrite decide_False by lia.
Qed.

Lemma extract_document_id_of_file_witness :
  extract_document_id (XOCHITL_PATH ++ "/"%byte :: doc_a ++ bs ".rm")
  = Some (doc_a ++ bs ".rm")
  ∧ extract_document_id (doc_a ++ bs ".rm") = Some (doc_a ++ bs ".rm")
  ∧ take UUID_LEN (doc_a ++ bs ".rm") = doc_a
  ∧ ∀ short, ("/"%byte ∉ short) → (length short < UUID_LEN)%nat →
      extract_document_id (XOCHITL_PATH ++ "/"%byte :: short) = None.
Proof.
  refine (extract_document_id_of_file XOCHITL_PATH doc_a (bs ".rm")
            _ _ _ _ _ _).
  - apply (bool_decide_unpack _). vm_compute. exact I.
  - reflexivity.
  - reflexivity.
  - reflexivity.
  - reflexivity.
  - reflexivity.
Defined.
